(** * KlingEx WebSocket client: subscription engine

    A shallow embedding of the class [KlingExWebSocket] (the streaming
    client of klingex-js) together with the part of the JavaScript
    runtime it talks to: the transport objects it creates, the timers it
    arms and the caller-supplied callbacks it invokes.

    Conventions.
    - A method of the class is a computation in the monad [M]: it reads
      and writes the instance fields and the runtime, and completes
      normally or abruptly (a JavaScript [throw]).  State changes made
      before a throw persist, as in JavaScript.
    - Everything observable from outside (frames sent, callbacks invoked,
      timers armed, sockets created) is appended to a chronological log.
    - Numbers that the class computes with ([reconnectInterval] and the
      back-off delay) are IEEE 754 binary64 values, multiplied and
      subtracted as JavaScript does.  [Math.pow] is "implementation
      approximated" (ECMA-262, Number::exponentiate), so the engine's
      approximation is a parameter of the runtime.
    - Caller-supplied callbacks are functions that return or throw;
      callbacks that call back into the client while they run are
      outside the model. *)

From Stdlib Require Import ZArith Floats Lia.
From stdpp Require Import base option list strings.

Local Set Warnings "-register-all".
Local Open Scope string_scope.
Local Open Scope list_scope.

(** ** JavaScript values *)

(** Decoded JSON, plus [undefined] (the result of reading an absent
    property).  A number is carried by its [ToString] rendering, the only
    thing the client ever does with one. *)
Inductive Js : Type :=
| JUndefined
| JNull
| JBool (b : bool)
| JNum (repr : string)
| JStr (s : string)
| JArr (items : list Js)
| JObj (props : list (string * Js)).

(** An [Error] object. *)
Record JsError : Type := new_Error_named {
  error_name : string;
  error_message : string
}.

Definition new_Error (message : string) : JsError :=
  new_Error_named "Error" message.

Definition new_TypeError (message : string) : JsError :=
  new_Error_named "TypeError" message.

(** What a [throw] carries: an [Error] instance or any other value. *)
Inductive Thrown : Type :=
| ThrowError (e : JsError)
| ThrowValue (v : Js).

(** [error instanceof Error ? error : new Error(fallback)] *)
Definition error_or (error : Thrown) (fallback : string) : JsError :=
  match error with
  | ThrowError e => e
  | ThrowValue _ => new_Error fallback
  end.

Inductive Completion (A : Type) : Type :=
| Normal (a : A)
| Throws (t : Thrown).
Arguments Normal {A} a.
Arguments Throws {A} t.

(** The own property [name] of a decoded object. *)
Fixpoint assoc {A : Type} (name : string) (props : list (string * A)) : option A :=
  match props with
  | [] => None
  | (k, v) :: rest => if String.eqb k name then Some v else assoc name rest
  end.

Definition cannot_convert : Thrown :=
  ThrowError (new_TypeError "Cannot convert object to primitive value").

(** [ToString], as applied by a template literal, on a decoded value.
    A plain object goes through [toString] and [valueOf]: an own property
    named [toString] (never callable in decoded JSON) hides
    [Object.prototype.toString], and then [valueOf], own or inherited,
    yields no primitive either, so the conversion throws a [TypeError];
    otherwise the result is "[object Object]".  An array goes through
    [Array.prototype.join], which converts its elements in order
    ([null] and [undefined] to the empty string). *)
Fixpoint ToString (v : Js) : Completion string :=
  match v with
  | JUndefined => Normal "undefined"
  | JNull => Normal "null"
  | JBool true => Normal "true"
  | JBool false => Normal "false"
  | JNum repr => Normal repr
  | JStr s => Normal s
  | JArr items =>
      (fix join (l : list Js) : Completion string :=
         match l with
         | [] => Normal ""
         | x :: rest =>
             match (match x with
                    | JUndefined | JNull => Normal ""
                    | _ => ToString x
                    end) with
             | Throws t => Throws t
             | Normal here =>
                 match rest with
                 | [] => Normal here
                 | _ =>
                     match join rest with
                     | Throws t => Throws t
                     | Normal others => Normal (here +:+ "," +:+ others)
                     end
                 end
             end
         end) items
  | JObj props =>
      match assoc "toString" props with
      | Some _ => Throws cannot_convert
      | None => Normal "[object Object]"
      end
  end.

(** Truthiness ([ToBoolean]). *)
Definition truthy (v : Js) : bool :=
  match v with
  | JUndefined | JNull => false
  | JBool b => b
  | JNum repr => negb (String.eqb repr "0")
  | JStr s => negb (String.eqb s "")
  | JArr _ | JObj _ => true
  end.

Definition typeof (v : Js) : string :=
  match v with
  | JUndefined => "undefined"
  | JNull | JArr _ | JObj _ => "object"
  | JBool _ => "boolean"
  | JNum _ => "number"
  | JStr _ => "string"
  end.

(** [v.name] for the property names the client reads ([type], [data],
    [channel], [symbol]): none of them lives on a prototype, so only the
    own properties of a decoded object count; reading from [null] or
    [undefined] throws a [TypeError]. *)
Definition member (v : Js) (name : string) : Completion Js :=
  match v with
  | JUndefined =>
      Throws (ThrowError (new_TypeError "Cannot read properties of undefined"))
  | JNull =>
      Throws (ThrowError (new_TypeError "Cannot read properties of null"))
  | JObj props => Normal (default JUndefined (assoc name props))
  | _ => Normal JUndefined
  end.

(** [name in v], for [v] an object (the caller checked [typeof]). *)
Definition has_property (name : string) (v : Js) : bool :=
  match v with
  | JObj props => bool_decide (is_Some (assoc name props))
  | _ => false
  end.

(** [v === s] for a string literal [s]. *)
Definition strict_eq_string (v : Js) (s : string) : bool :=
  match v with
  | JStr s' => String.eqb s' s
  | _ => false
  end.

(** A raw text frame, represented by what [JSON.parse] does with it:
    it throws a [SyntaxError] or returns the decoded value. *)
Inductive RawFrame : Type :=
| Malformed (e : JsError)
| Decoded (message : Js).

Definition JSON_parse (data : RawFrame) : Completion Js :=
  match data with
  | Malformed e => Throws (ThrowError e)
  | Decoded message => Normal message
  end.

(** ** Types of the client *)

Inductive WebSocketChannel : Type :=
| Ch_orderbook
| Ch_trades
| Ch_ticker
| Ch_user_orders
| Ch_user_balances.

Definition channel_name (c : WebSocketChannel) : string :=
  match c with
  | Ch_orderbook => "orderbook"
  | Ch_trades => "trades"
  | Ch_ticker => "ticker"
  | Ch_user_orders => "user.orders"
  | Ch_user_balances => "user.balances"
  end.

(** [type MessageHandler = (data) => void]: an identity, to tell
    callbacks apart in the log, and what a call does: it returns ([None])
    or throws.  The callback is caller code; calls that it makes into
    the client while it runs are not represented. *)
Record MessageHandler : Type := {
  handler_id : nat;
  handler_run : Js -> option Thrown
}.

(** [type ErrorHandler = (error: Error) => void] *)
Record ErrorHandler : Type := {
  error_handler_id : nat;
  error_handler_run : JsError -> option Thrown
}.

Record Subscription : Type := {
  channel : WebSocketChannel;
  symbol : option string;
  handler : MessageHandler
}.

Record WebSocketOptions : Type := {
  reconnect : bool;
  reconnectInterval : float;
  maxReconnectAttempts : Z
}.

(** The instance fields of [KlingExWebSocket].  [ws] is a handle into the
    runtime's store of transport objects. *)
Record KlingExWebSocket : Type := {
  ws : option nat;
  url : string;
  apiKey : option string;
  jwt : option string;
  options : WebSocketOptions;
  subscriptions : list (string * Subscription);
  reconnectAttempts : nat;
  reconnectTimeout : option positive;
  pingInterval : option positive;
  isConnecting : bool;
  errorHandler : option ErrorHandler
}.

(** ** The runtime the client runs in *)

Inductive ReadyState : Type := CONNECTING | OPEN | CLOSING | CLOSED.

Definition is_open (r : ReadyState) : bool :=
  match r with OPEN => true | _ => false end.

(** Who holds the promise returned by a [connect()] call: application
    code, or the callback of a reconnect timer (which attaches a
    [.catch] to it). *)
Inductive Awaiter : Type := ByCaller | ByReconnectTimer.

Inductive PromiseState : Type :=
| Pending
| Resolved
| Rejected (e : JsError).

(** The query parameter [connect()] adds to the URL. *)
Inductive AuthParam : Type :=
| NoAuth
| ApiKeyParam (key : string)
| TokenParam (token : string).

(** A transport object created by [new WebSocket(...)], with the promise
    whose [resolve]/[reject] its handlers close over. *)
Record Socket : Type := {
  readyState : ReadyState;
  socket_url : string;
  socket_auth : AuthParam;
  closeFired : bool;
  awaiter : Awaiter;
  promise : PromiseState
}.

(** Outbound wire messages, before [JSON.stringify]. *)
Inductive Wire : Type :=
| WireAction (action : string) (c : WebSocketChannel) (s : option string)
| WirePing.

(** What the outside world can observe. *)
Inductive Effect : Type :=
| CallHandler (id : nat) (payload : Js)
| CallErrorHandler (id : nat) (e : JsError)
| NewWebSocket (sock : nat)
| WsSend (sock : nat) (m : Wire)
| WsClose (sock : nat) (code : Z) (reason : string)
| SetTimeout (id : positive) (delay : float)
| ClearTimeout (id : positive)
| SetInterval (id : positive) (ms : Z)
| ClearInterval (id : positive)
| Settle (sock : nat) (p : PromiseState)
| Uncaught (t : Thrown).

(** The runtime: the transport objects, the pending timers, which URLs
    the [URL] and [WebSocket] constructors reject, the engine's
    approximation of exponentiation, and the log. *)
Record Runtime : Type := {
  sockets : list Socket;
  timeouts : list (positive * float);
  intervals : list positive;
  next_timer : positive;
  url_rejected : string -> option Thrown;
  pow_approx : float -> float -> float;
  log : list Effect
}.

Record World : Type := {
  this : KlingExWebSocket;
  rt : Runtime
}.

(** *** Field updates *)

Definition with_ws (v : option nat) (c : KlingExWebSocket) : KlingExWebSocket :=
  {| ws := v; url := url c; apiKey := apiKey c; jwt := jwt c;
     options := options c; subscriptions := subscriptions c;
     reconnectAttempts := reconnectAttempts c;
     reconnectTimeout := reconnectTimeout c; pingInterval := pingInterval c;
     isConnecting := isConnecting c; errorHandler := errorHandler c |}.

Definition with_options (v : WebSocketOptions) (c : KlingExWebSocket) : KlingExWebSocket :=
  {| ws := ws c; url := url c; apiKey := apiKey c; jwt := jwt c;
     options := v; subscriptions := subscriptions c;
     reconnectAttempts := reconnectAttempts c;
     reconnectTimeout := reconnectTimeout c; pingInterval := pingInterval c;
     isConnecting := isConnecting c; errorHandler := errorHandler c |}.

Definition with_subscriptions (v : list (string * Subscription)) (c : KlingExWebSocket)
  : KlingExWebSocket :=
  {| ws := ws c; url := url c; apiKey := apiKey c; jwt := jwt c;
     options := options c; subscriptions := v;
     reconnectAttempts := reconnectAttempts c;
     reconnectTimeout := reconnectTimeout c; pingInterval := pingInterval c;
     isConnecting := isConnecting c; errorHandler := errorHandler c |}.

Definition with_reconnectAttempts (v : nat) (c : KlingExWebSocket) : KlingExWebSocket :=
  {| ws := ws c; url := url c; apiKey := apiKey c; jwt := jwt c;
     options := options c; subscriptions := subscriptions c;
     reconnectAttempts := v;
     reconnectTimeout := reconnectTimeout c; pingInterval := pingInterval c;
     isConnecting := isConnecting c; errorHandler := errorHandler c |}.

Definition with_reconnectTimeout (v : option positive) (c : KlingExWebSocket)
  : KlingExWebSocket :=
  {| ws := ws c; url := url c; apiKey := apiKey c; jwt := jwt c;
     options := options c; subscriptions := subscriptions c;
     reconnectAttempts := reconnectAttempts c;
     reconnectTimeout := v; pingInterval := pingInterval c;
     isConnecting := isConnecting c; errorHandler := errorHandler c |}.

Definition with_pingInterval (v : option positive) (c : KlingExWebSocket)
  : KlingExWebSocket :=
  {| ws := ws c; url := url c; apiKey := apiKey c; jwt := jwt c;
     options := options c; subscriptions := subscriptions c;
     reconnectAttempts := reconnectAttempts c;
     reconnectTimeout := reconnectTimeout c; pingInterval := v;
     isConnecting := isConnecting c; errorHandler := errorHandler c |}.

Definition with_isConnecting (v : bool) (c : KlingExWebSocket) : KlingExWebSocket :=
  {| ws := ws c; url := url c; apiKey := apiKey c; jwt := jwt c;
     options := options c; subscriptions := subscriptions c;
     reconnectAttempts := reconnectAttempts c;
     reconnectTimeout := reconnectTimeout c; pingInterval := pingInterval c;
     isConnecting := v; errorHandler := errorHandler c |}.

Definition with_errorHandler (v : option ErrorHandler) (c : KlingExWebSocket)
  : KlingExWebSocket :=
  {| ws := ws c; url := url c; apiKey := apiKey c; jwt := jwt c;
     options := options c; subscriptions := subscriptions c;
     reconnectAttempts := reconnectAttempts c;
     reconnectTimeout := reconnectTimeout c; pingInterval := pingInterval c;
     isConnecting := isConnecting c; errorHandler := v |}.

Definition with_reconnect (v : bool) (o : WebSocketOptions) : WebSocketOptions :=
  {| reconnect := v; reconnectInterval := reconnectInterval o;
     maxReconnectAttempts := maxReconnectAttempts o |}.

Definition with_sockets (v : list Socket) (r : Runtime) : Runtime :=
  {| sockets := v; timeouts := timeouts r; intervals := intervals r;
     next_timer := next_timer r; url_rejected := url_rejected r;
     pow_approx := pow_approx r; log := log r |}.

Definition with_timeouts (v : list (positive * float)) (r : Runtime) : Runtime :=
  {| sockets := sockets r; timeouts := v; intervals := intervals r;
     next_timer := next_timer r; url_rejected := url_rejected r;
     pow_approx := pow_approx r; log := log r |}.

Definition with_intervals (v : list positive) (r : Runtime) : Runtime :=
  {| sockets := sockets r; timeouts := timeouts r; intervals := v;
     next_timer := next_timer r; url_rejected := url_rejected r;
     pow_approx := pow_approx r; log := log r |}.

Definition with_next_timer (v : positive) (r : Runtime) : Runtime :=
  {| sockets := sockets r; timeouts := timeouts r; intervals := intervals r;
     next_timer := v; url_rejected := url_rejected r;
     pow_approx := pow_approx r; log := log r |}.

Definition with_log (v : list Effect) (r : Runtime) : Runtime :=
  {| sockets := sockets r; timeouts := timeouts r; intervals := intervals r;
     next_timer := next_timer r; url_rejected := url_rejected r;
     pow_approx := pow_approx r; log := v |}.

Definition with_readyState (v : ReadyState) (s : Socket) : Socket :=
  {| readyState := v; socket_url := socket_url s; socket_auth := socket_auth s;
     closeFired := closeFired s; awaiter := awaiter s; promise := promise s |}.

Definition with_closeFired (v : bool) (s : Socket) : Socket :=
  {| readyState := readyState s; socket_url := socket_url s;
     socket_auth := socket_auth s;
     closeFired := v; awaiter := awaiter s; promise := promise s |}.

Definition with_promise (v : PromiseState) (s : Socket) : Socket :=
  {| readyState := readyState s; socket_url := socket_url s;
     socket_auth := socket_auth s;
     closeFired := closeFired s; awaiter := awaiter s; promise := v |}.

(** ** The monad of methods *)

Definition M (A : Type) : Type := World -> Completion A * World.

Definition ret {A : Type} (a : A) : M A := fun w => (Normal a, w).

Definition throw {A : Type} (t : Thrown) : M A := fun w => (Throws t, w).

Definition bind {A B : Type} (m : M A) (k : A -> M B) : M B :=
  fun w =>
    match m w with
    | (Normal a, w') => k a w'
    | (Throws t, w') => (Throws t, w')
    end.

(** [try { body } catch (error) { handler }] *)
Definition try_catch {A : Type} (body : M A) (handler : Thrown -> M A) : M A :=
  fun w =>
    match body w with
    | (Normal a, w') => (Normal a, w')
    | (Throws t, w') => handler t w'
    end.

Definition lift {A : Type} (c : Completion A) : M A := fun w => (c, w).

Definition get_this : M KlingExWebSocket := fun w => (Normal (this w), w).

Definition get_rt : M Runtime := fun w => (Normal (rt w), w).

Definition update_this (f : KlingExWebSocket -> KlingExWebSocket) : M unit :=
  fun w => (Normal tt, {| this := f (this w); rt := rt w |}).

Definition update_rt (f : Runtime -> Runtime) : M unit :=
  fun w => (Normal tt, {| this := this w; rt := f (rt w) |}).

Definition emit (e : Effect) : M unit :=
  update_rt (fun r => with_log (log r ++ [e]) r).

Declare Scope js_scope.
Delimit Scope js_scope with js.
Notation "'do' x <- m ; k" := (bind m (fun x => k))
  (at level 10, x name, m at level 100, k at level 200) : js_scope.
Notation "'run' m ; k" := (bind m (fun _ => k))
  (at level 10, m at level 100, k at level 200) : js_scope.
Local Open Scope js_scope.

Definition exec {A : Type} (m : M A) (w : World) : World := snd (m w).

Definition completion {A : Type} (m : M A) (w : World) : Completion A := fst (m w).

(** ** Runtime primitives *)

(** The registry is a JavaScript [Map] with string keys: insertion
    ordered, [set] on a present key replaces the value in place. *)
Fixpoint Map_set {V : Type} (key : string) (v : V) (m : list (string * V))
  : list (string * V) :=
  match m with
  | [] => [(key, v)]
  | (k, x) :: rest =>
      if String.eqb k key then (k, v) :: rest else (k, x) :: Map_set key v rest
  end.

Fixpoint Map_delete {V : Type} (key : string) (m : list (string * V))
  : list (string * V) :=
  match m with
  | [] => []
  | (k, x) :: rest =>
      if String.eqb k key then Map_delete key rest else (k, x) :: Map_delete key rest
  end.

(** [map.get(key)] for an arbitrary key value: only a string can be equal
    (SameValueZero) to one of the registry's keys. *)
Definition Map_get {V : Type} (m : list (string * V)) (key : Js) : option V :=
  match key with
  | JStr k => assoc k m
  | _ => None
  end.

(** [a || b] on lookup results (a stored entry is an object, hence truthy). *)
Definition or_else {V : Type} (a b : option V) : option V :=
  match a with
  | Some v => Some v
  | None => b
  end.

Definition socket_state (r : Runtime) (sock : nat) : option ReadyState :=
  readyState <$> (sockets r !! sock).

(** The handle in [this.ws] when [this.ws?.readyState === WebSocket.OPEN]. *)
Definition open_handle (w : World) : option nat :=
  match ws (this w) with
  | Some sock =>
      match socket_state (rt w) sock with
      | Some OPEN => Some sock
      | _ => None
      end
  | None => None
  end.

Definition ws_open : M (option nat) := fun w => (Normal (open_handle w), w).

Definition update_socket (sock : nat) (f : Socket -> Socket) : M unit :=
  update_rt (fun r =>
    match sockets r !! sock with
    | Some s => with_sockets (<[sock := f s]> (sockets r)) r
    | None => r
    end).

(** [new URL(this.url)], with the query parameter set, followed by
    [new WebSocket(wsUrl.toString())].  [url_rejected] says whether one
    of the two constructors throws for this URL. *)
Definition new_WebSocket (u : string) (a : AuthParam) (who : Awaiter) : M nat :=
  do r <- get_rt;
  match url_rejected r u with
  | Some t => throw t
  | None =>
      let sock := length (sockets r) in
      run update_rt (with_sockets (sockets r ++
            [{| readyState := CONNECTING; socket_url := u; socket_auth := a;
                closeFired := false; awaiter := who; promise := Pending |}]));
      run emit (NewWebSocket sock);
      ret sock
  end.

Definition ws_send (sock : nat) (m : Wire) : M unit := emit (WsSend sock m).

(** [ws.close(code, reason)]: starts the closing handshake unless the
    socket is already closing or closed. *)
Definition ws_close (sock : nat) (code : Z) (reason : string) : M unit :=
  run update_socket sock (fun s =>
        match readyState s with
        | CONNECTING | OPEN => with_readyState CLOSING s
        | _ => s
        end);
  emit (WsClose sock code reason).

Definition setTimeout (delay : float) : M positive :=
  do r <- get_rt;
  let id := next_timer r in
  run update_rt (fun r => with_next_timer (Pos.succ id)
                            (with_timeouts (timeouts r ++ [(id, delay)]) r));
  run emit (SetTimeout id delay);
  ret id.

Definition clearTimeout (id : positive) : M unit :=
  run update_rt (fun r =>
        with_timeouts (filter (fun t => negb (Pos.eqb (fst t) id)) (timeouts r)) r);
  emit (ClearTimeout id).

Definition setInterval (ms : Z) : M positive :=
  do r <- get_rt;
  let id := next_timer r in
  run update_rt (fun r => with_next_timer (Pos.succ id)
                            (with_intervals (intervals r ++ [id]) r));
  run emit (SetInterval id ms);
  ret id.

Definition clearInterval (id : positive) : M unit :=
  run update_rt (fun r =>
        with_intervals (filter (fun t => negb (Pos.eqb t id)) (intervals r)) r);
  emit (ClearInterval id).

Definition call_handler (h : MessageHandler) (payload : Js) : M unit :=
  run emit (CallHandler (handler_id h) payload);
  match handler_run h payload with
  | Some t => throw t
  | None => ret tt
  end.

(** [this.errorHandler?.(e)] *)
Definition call_errorHandler (e : JsError) : M unit :=
  do c <- get_this;
  match errorHandler c with
  | Some h =>
      run emit (CallErrorHandler (error_handler_id h) e);
      match error_handler_run h e with
      | Some t => throw t
      | None => ret tt
      end
  | None => ret tt
  end.

(** [resolve()] / [reject(err)] of the promise made by the [connect()]
    call that created [sock]; settling a settled promise does nothing. *)
Definition settle (sock : nat) (p : PromiseState) : M unit :=
  do r <- get_rt;
  match promise <$> (sockets r !! sock) with
  | Some Pending =>
      run update_socket sock (with_promise p);
      emit (Settle sock p)
  | _ => ret tt
  end.

(** ** The methods of [KlingExWebSocket] *)

Definition send (data : Wire) : M unit :=
  do open <- ws_open;
  match open with
  | Some sock => ws_send sock data
  | None => ret tt
  end.

Definition sendSubscribe (c : WebSocketChannel) (s : option string) : M unit :=
  send (WireAction "subscribe" c s).

Definition sendUnsubscribe (c : WebSocketChannel) (s : option string) : M unit :=
  send (WireAction "unsubscribe" c s).

(** [symbol ? `${channel}:${symbol}` : channel] *)
Definition subscription_key (c : WebSocketChannel) (s : option string) : string :=
  match s with
  | Some sym =>
      if String.eqb sym "" then channel_name c
      else channel_name c +:+ ":" +:+ sym
  | None => channel_name c
  end.

(** The closure returned by [subscribe]: it captures [key], [channel] and
    [symbol] (and [this]). *)
Record Unsubscribe : Type := {
  captured_key : string;
  captured_channel : WebSocketChannel;
  captured_symbol : option string
}.

Definition subscribe (c : WebSocketChannel) (s : option string) (h : MessageHandler)
  : M Unsubscribe :=
  let key := subscription_key c s in
  run update_this (fun t =>
        with_subscriptions
          (Map_set key {| channel := c; symbol := s; handler := h |} (subscriptions t)) t);
  do open <- ws_open;
  run (match open with
       | Some _ => sendSubscribe c s
       | None => ret tt
       end);
  ret {| captured_key := key; captured_channel := c; captured_symbol := s |}.

Definition unsubscribe (u : Unsubscribe) : M unit :=
  run update_this (fun t =>
        with_subscriptions (Map_delete (captured_key u) (subscriptions t)) t);
  do open <- ws_open;
  match open with
  | Some _ => sendUnsubscribe (captured_channel u) (captured_symbol u)
  | None => ret tt
  end.

Definition orderbook (sym : string) (h : MessageHandler) : M Unsubscribe :=
  subscribe Ch_orderbook (Some sym) h.

Definition trades (sym : string) (h : MessageHandler) : M Unsubscribe :=
  subscribe Ch_trades (Some sym) h.

Definition ticker (sym : string) (h : MessageHandler) : M Unsubscribe :=
  subscribe Ch_ticker (Some sym) h.

Definition userOrders (h : MessageHandler) : M Unsubscribe :=
  subscribe Ch_user_orders None h.

Definition userBalances (h : MessageHandler) : M Unsubscribe :=
  subscribe Ch_user_balances None h.

Definition onError (h : ErrorHandler) : M unit :=
  update_this (with_errorHandler (Some h)).

(** The routing key of a decoded message. *)
Definition routing_key (message : Js) : M Js :=
  do data <- lift (member message "data");
  do chan <- lift (member message "channel");
  if truthy data && String.eqb (typeof data) "object" && has_property "symbol" data
  then
    do prefix <- lift (ToString chan);
    do sym <- lift (member data "symbol");
    do suffix <- lift (ToString sym);
    ret (JStr (prefix +:+ ":" +:+ suffix))
  else ret chan.

Definition handleMessage (data : RawFrame) : M unit :=
  try_catch
    (do message <- lift (JSON_parse data);
     do type <- lift (member message "type");
     if strict_eq_string type "pong" then ret tt
     else
       do key <- routing_key message;
       do chan <- lift (member message "channel");
       do payload <- lift (member message "data");
       do t <- get_this;
       match or_else (Map_get (subscriptions t) key) (Map_get (subscriptions t) chan) with
       | Some subscription => call_handler (handler subscription) payload
       | None => ret tt
       end)
    (fun error => call_errorHandler (error_or error "Failed to parse message")).

Fixpoint for_each {A : Type} (f : A -> M unit) (l : list A) : M unit :=
  match l with
  | [] => ret tt
  | x :: rest => run f x; for_each f rest
  end.

Definition resubscribeAll : M unit :=
  do t <- get_this;
  for_each (fun entry => sendSubscribe (channel (snd entry)) (symbol (snd entry)))
           (subscriptions t).

Definition startPingInterval : M unit :=
  do id <- setInterval 30000;
  update_this (with_pingInterval (Some id)).

Definition stopPingInterval : M unit :=
  do t <- get_this;
  match pingInterval t with
  | Some id =>
      run clearInterval id;
      update_this (with_pingInterval None)
  | None => ret tt
  end.

(** The attempt counter as a Number (exact: counters stay far below
    2^53). *)
Definition Number_of_nat (n : nat) : float :=
  SF2Prim (binary_normalize prec emax (Z.of_nat n) 0 false).

(** [Math.pow(base, exponent)] for a finite non-zero [base] and a finite
    [exponent], the only calls the client makes: 1 for an exponent of
    zero, and otherwise the engine's approximation. *)
Definition Math_pow (approx : float -> float -> float) (base exponent : float) : float :=
  if (exponent =? 0)%float then 1%float else approx base exponent.

(** [reconnectInterval * Math.pow(1.5, attempts - 1)] *)
Definition backoff_delay (approx : float -> float -> float) (base : float)
    (attempts : nat) : float :=
  (base * Math_pow approx 1.5 (Number_of_nat attempts - 1))%float.

Definition scheduleReconnect : M unit :=
  do t <- get_this;
  if (maxReconnectAttempts (options t) <=? Z.of_nat (reconnectAttempts t))%Z
  then call_errorHandler (new_Error "Max reconnection attempts reached")
  else
    run update_this (with_reconnectAttempts (S (reconnectAttempts t)));
    do r <- get_rt;
    let delay := backoff_delay (pow_approx r) (reconnectInterval (options t))
                   (S (reconnectAttempts t)) in
    do id <- setTimeout delay;
    update_this (with_reconnectTimeout (Some id)).

(** The outcome of the synchronous part of [connect()]: the guard
    returned at once (the promise resolves with nothing done), a socket
    was created and the promise waits for its open or error event, or a
    constructor threw and the promise was rejected with what it threw. *)
Inductive ConnectResult : Type :=
| ReturnedAtOnce
| AwaitingSocket (sock : nat)
| ConstructorThrew (error : Thrown).

(** [if (this.apiKey) ... else if (this.jwt) ...] *)
Definition auth_param (t : KlingExWebSocket) : AuthParam :=
  let token := match jwt t with
               | Some j => if String.eqb j "" then NoAuth else TokenParam j
               | None => NoAuth
               end in
  match apiKey t with
  | Some k => if String.eqb k "" then token else ApiKeyParam k
  | None => token
  end.

Definition connect (who : Awaiter) : M ConnectResult :=
  do open <- ws_open;
  do t <- get_this;
  if bool_decide (is_Some open) || isConnecting t then ret ReturnedAtOnce
  else
    run update_this (with_isConnecting true);
    try_catch
      (do sock <- new_WebSocket (url t) (auth_param t) who;
       run update_this (with_ws (Some sock));
       ret (AwaitingSocket sock))
      (fun error =>
         run update_this (with_isConnecting false);
         ret (ConstructorThrew error)).

(** The handlers [connect()] installs on the socket it creates.  They
    close over [this] and over the promise of that [connect()] call, not
    over the socket: every socket ever created by the client carries the
    same four handlers. *)
Definition onopen (sock : nat) : M unit :=
  run update_this (with_isConnecting false);
  run update_this (with_reconnectAttempts 0);
  run startPingInterval;
  run resubscribeAll;
  settle sock Resolved.

Definition onclose (wasClean : bool) : M unit :=
  run update_this (with_isConnecting false);
  run stopPingInterval;
  do t <- get_this;
  if reconnect (options t) && negb wasClean then scheduleReconnect else ret tt.

Definition onerror (sock : nat) : M unit :=
  run update_this (with_isConnecting false);
  let err := new_Error "WebSocket error" in
  run call_errorHandler err;
  settle sock (Rejected err).

Definition onmessage (data : RawFrame) : M unit := handleMessage data.

(** The [.catch] reaction of the reconnect timer's callback. *)
Definition reconnect_catch (error : Thrown) : M unit :=
  call_errorHandler (error_or error "Reconnection failed").

(** The callback armed by [scheduleReconnect]. *)
Definition reconnect_callback : M unit :=
  do r <- connect ByReconnectTimer;
  match r with
  | ConstructorThrew error => reconnect_catch error
  | _ => ret tt
  end.

(** The callback armed by [startPingInterval]. *)
Definition ping_callback : M unit := send WirePing.

Definition disconnect : M unit :=
  run update_this (fun t => with_options (with_reconnect false (options t)) t);
  run stopPingInterval;
  do t <- get_this;
  run (match reconnectTimeout t with
       | Some id =>
           run clearTimeout id;
           update_this (with_reconnectTimeout None)
       | None => ret tt
       end);
  run (match ws t with
       | Some sock =>
           run ws_close sock 1000 "Client disconnect";
           update_this (with_ws None)
       | None => ret tt
       end);
  update_this (with_subscriptions []).

(** [new KlingExWebSocket(url, auth, options)]: absent options take the
    defaults [true], [5000] and [10]. *)
Definition new_KlingExWebSocket (u : string) (key token : option string)
    (o_reconnect : option bool) (o_interval : option float) (o_max : option Z)
  : KlingExWebSocket :=
  {| ws := None; url := u; apiKey := key; jwt := token;
     options := {| reconnect := default true o_reconnect;
                   reconnectInterval := default 5000%float o_interval;
                   maxReconnectAttempts := default 10%Z o_max |};
     subscriptions := []; reconnectAttempts := 0;
     reconnectTimeout := None; pingInterval := None;
     isConnecting := false; errorHandler := None |}.

Definition fresh_runtime (rejected : string -> option Thrown)
    (approx : float -> float -> float) : Runtime :=
  {| sockets := []; timeouts := []; intervals := []; next_timer := 1%positive;
     url_rejected := rejected; pow_approx := approx; log := [] |}.

(** ** The event loop *)

(** One turn of the loop: a call made by the application, or an event
    delivered by the runtime. *)
Inductive Event : Type :=
| Call_connect
| Call_disconnect
| Call_onError (h : ErrorHandler)
| Call_subscribe (c : WebSocketChannel) (s : option string) (h : MessageHandler)
| Call_unsubscribe (u : Unsubscribe)
| Ev_open (sock : nat)
| Ev_close (sock : nat) (wasClean : bool)
| Ev_error (sock : nat)
| Ev_message (sock : nat) (data : RawFrame)
| Ev_timeout (id : positive)
| Ev_interval (id : positive).

(** After [onerror] rejected the promise of a [connect()] issued by a
    reconnect timer, the timer's [.catch] reaction runs. *)
Definition rejection_reaction (before : Runtime) (sock : nat) : M unit :=
  do r <- get_rt;
  match before.(sockets) !! sock, r.(sockets) !! sock with
  | Some s0, Some s1 =>
      match awaiter s1, promise s0, promise s1 with
      | ByReconnectTimer, Pending, Rejected e => reconnect_catch (ThrowError e)
      | _, _, _ => ret tt
      end
  | _, _ => ret tt
  end.

Definition dispatch (e : Event) : M unit :=
  match e with
  | Call_connect => run connect ByCaller; ret tt
  | Call_disconnect => disconnect
  | Call_onError h => onError h
  | Call_subscribe c s h => run subscribe c s h; ret tt
  | Call_unsubscribe u => unsubscribe u
  | Ev_open sock =>
      run update_socket sock (with_readyState OPEN);
      onopen sock
  | Ev_close sock wasClean =>
      run update_socket sock (fun s => with_closeFired true (with_readyState CLOSED s));
      onclose wasClean
  | Ev_error sock =>
      do before <- get_rt;
      run update_socket sock (with_readyState CLOSED);
      run onerror sock;
      rejection_reaction before sock
  | Ev_message _ data => onmessage data
  | Ev_timeout id =>
      run update_rt (fun r =>
            with_timeouts (filter (fun t => negb (Pos.eqb (fst t) id)) (timeouts r)) r);
      reconnect_callback
  | Ev_interval _ => ping_callback
  end.

(** An exception that escapes a turn is reported by the runtime; the
    state changes made before it stay. *)
Definition step (e : Event) (w : World) : World :=
  match dispatch e w with
  | (Normal _, w') => w'
  | (Throws t, w') => exec (emit (Uncaught t)) w'
  end.

Definition run_events (es : list Event) (w : World) : World :=
  fold_left (fun acc e => step e acc) es w.

(** Whether the runtime can deliver the event (or the application make
    the call) in the given state. *)
Definition enabled (e : Event) (w : World) : bool :=
  match e with
  | Call_connect | Call_disconnect | Call_onError _ | Call_subscribe _ _ _ => true
  | Call_unsubscribe u =>
      String.eqb (captured_key u)
                 (subscription_key (captured_channel u) (captured_symbol u))
  | Ev_open sock =>
      match socket_state (rt w) sock with
      | Some CONNECTING => true
      | _ => false
      end
  | Ev_close sock _ =>
      match sockets (rt w) !! sock with
      | Some s => negb (closeFired s)
      | None => false
      end
  | Ev_error sock =>
      match socket_state (rt w) sock with
      | Some CLOSED | None => false
      | Some _ => true
      end
  | Ev_message sock _ =>
      match socket_state (rt w) sock with
      | Some OPEN => true
      | _ => false
      end
  | Ev_timeout id => bool_decide (id ∈ (timeouts (rt w)).*1)
  | Ev_interval id => bool_decide (id ∈ intervals (rt w))
  end.

Fixpoint feasible (es : list Event) (w : World) : bool :=
  match es with
  | [] => true
  | e :: rest => enabled e w && feasible rest (step e w)
  end.

(** A transport is live while it is connecting or open. *)
Definition live (s : Socket) : bool :=
  match readyState s with
  | CONNECTING | OPEN => true
  | _ => false
  end.

Definition live_handles (w : World) : nat :=
  length (filter (fun s => live s = true) (sockets (rt w))).

(** ** Observations on the log *)

Definition handler_calls (l : list Effect) : list (nat * Js) :=
  omap (fun e => match e with CallHandler id p => Some (id, p) | _ => None end) l.

Definition error_calls (l : list Effect) : list (nat * JsError) :=
  omap (fun e => match e with CallErrorHandler id x => Some (id, x) | _ => None end) l.

Definition wire_sent (l : list Effect) : list (nat * Wire) :=
  omap (fun e => match e with WsSend sock m => Some (sock, m) | _ => None end) l.

(** The reconnect timers armed so far. *)
Definition scheduled (l : list Effect) : list (positive * float) :=
  omap (fun e => match e with SetTimeout id d => Some (id, d) | _ => None end) l.

Definition sockets_created (l : list Effect) : list nat :=
  omap (fun e => match e with NewWebSocket sock => Some sock | _ => None end) l.

(** The routing key in the words of the specification: channel, a colon
    and [data.symbol] (joined as strings, which converts both) when the
    payload is an object with a [symbol] field, the bare channel
    otherwise. *)
Definition spec_routing_key (chan data : Js) : Completion Js :=
  match data with
  | JObj dprops =>
      match assoc "symbol" dprops with
      | Some sym =>
          match ToString chan with
          | Normal prefix =>
              match ToString sym with
              | Normal suffix => Normal (JStr (prefix +:+ ":" +:+ suffix))
              | Throws t => Throws t
              end
          | Throws t => Throws t
          end
      | None => Normal chan
      end
  | _ => Normal chan
  end.

(** The wire messages that replaying a registry on [sock] produces. *)
Definition replay (sock : nat) (subs : list (string * Subscription)) : list Effect :=
  map (fun entry =>
         WsSend sock (WireAction "subscribe" (channel (snd entry)) (symbol (snd entry))))
      subs.

(** ** Sample configurations *)

(** The integer part of a finite Number. *)
Definition Number_truncate (x : float) : Z :=
  match Prim2SF x with
  | S754_finite negative m e =>
      let magnitude := match e with
                       | Z.neg shift => Z.shiftr (Z.pos m) (Z.pos shift)
                       | _ => Z.shiftl (Z.pos m) e
                       end in
      if negative then (- magnitude)%Z else magnitude
  | _ => 0%Z
  end.

(** An engine's [Math.pow] on the calls of the sample runs (non-negative
    integer exponents): repeated multiplication, which is exact for the
    small powers of 1.5 that occur there. *)
Definition sample_pow (base exponent : float) : float :=
  Nat.iter (Z.to_nat (Number_truncate exponent)) (fun acc => (acc * base)%float) 1%float.

Definition quiet_handler (id : nat) : MessageHandler :=
  {| handler_id := id; handler_run := fun _ => None |}.

Definition throwing_handler (id : nat) (t : Thrown) : MessageHandler :=
  {| handler_id := id; handler_run := fun _ => Some t |}.

Definition quiet_error_handler (id : nat) : ErrorHandler :=
  {| error_handler_id := id; error_handler_run := fun _ => None |}.

(** An error handler that throws what it is given. *)
Definition rethrowing_error_handler (id : nat) : ErrorHandler :=
  {| error_handler_id := id; error_handler_run := fun e => Some (ThrowError e) |}.

Definition idle_world : World :=
  {| this := new_KlingExWebSocket "wss://api.klingex.io/ws" (Some "key") None
               None None None;
     rt := fresh_runtime (fun _ => None) sample_pow |}.

(** [await connect()] on a fresh client: socket 0 is open. *)
Definition open_world : World := run_events [Call_connect; Ev_open 0] idle_world.

Definition data_message_props (chan : string) (payload : Js) : list (string * Js) :=
  [("channel", JStr chan); ("event", JStr "update"); ("data", payload);
   ("timestamp", JStr "2024-01-01T00:00:00Z")].

Definition data_message (chan : string) (payload : Js) : Js :=
  JObj (data_message_props chan payload).

Definition btc_payload : Js :=
  JObj [("symbol", JStr "BTC-USDT"); ("last_price", JStr "50000")].

Definition syntax_error : JsError :=
  new_Error_named "SyntaxError" "Unexpected token".

Definition boom : JsError := new_Error "boom".

(** An open client whose only subscription, on orderbook BTC-USDT, has a
    callback that throws, and whose error handler throws in turn. *)
Definition fragile_world : World :=
  run_events [Call_onError (rethrowing_error_handler 9);
              Call_subscribe Ch_orderbook (Some "BTC-USDT")
                (throwing_handler 1 (ThrowError boom))] open_world.

Definition btc_closure : Unsubscribe :=
  {| captured_key := "orderbook:BTC-USDT"; captured_channel := Ch_orderbook;
     captured_symbol := Some "BTC-USDT" |}.

(** An open client with one subscription, on orderbook BTC-USDT. *)
Definition subscribed_world : World :=
  exec (subscribe Ch_orderbook (Some "BTC-USDT") (quiet_handler 1)) open_world.

(** A client with a short back-off (1000 ms, at most 3 attempts) and an
    error handler, connected. *)
Definition retry_world : World :=
  run_events [Call_onError (quiet_error_handler 9); Call_connect; Ev_open 0]
    {| this := new_KlingExWebSocket "wss://api.klingex.io/ws" None (Some "jwt")
                 None (Some 1000%float) (Some 3%Z);
       rt := fresh_runtime (fun _ => None) sample_pow |}.

(** The transport drops and every reconnection attempt fails. *)
Definition failing_reconnects : list Event :=
  [Ev_close 0 false;
   Ev_timeout 2; Ev_error 1; Ev_close 1 false;
   Ev_timeout 3; Ev_error 2; Ev_close 2 false;
   Ev_timeout 4; Ev_error 3; Ev_close 3 false].


(** ** Frame conditions *)

(** A computation respects a relation between states when it takes
    every state to a related one, however it completes. *)
Definition respects {A : Type} (R : World -> World -> Prop) (m : M A) : Prop :=
  forall w, R w (snd (m w)).

(** No reconnect timer is armed. *)
Definition no_new_timer (w w' : World) : Prop :=
  scheduled (log (rt w')) = scheduled (log (rt w)).

(** Automatic reconnection, once off, is off. *)
Definition reconnect_stays_off (w w' : World) : Prop :=
  reconnect (options (this w)) = false -> reconnect (options (this w')) = false.

(** The registry is untouched. *)
Definition same_subscriptions (w w' : World) : Prop :=
  subscriptions (this w') = subscriptions (this w).

(** The application calls [connect()] twice around a [disconnect()],
    and the close event of the discarded socket arrives in between. *)
Definition overlapping_connects : list Event :=
  [Call_connect; Ev_open 0; Call_disconnect; Call_connect; Ev_close 0 true; Call_connect].

(** A computation that completes normally from every state. *)
Definition returns {A : Type} (m : M A) : Prop :=
  forall w, exists a, fst (m w) = Normal a.

Definition not_close (e : Event) : bool :=
  match e with Ev_close _ _ => false | _ => true end.

(** Socket 0 of [open_world] and [subscribed_world]. *)
Definition open_socket : Socket :=
  {| readyState := OPEN; socket_url := "wss://api.klingex.io/ws";
     socket_auth := ApiKeyParam "key"; closeFired := false;
     awaiter := ByCaller; promise := Resolved |}.

(** ** Further notions used in the properties *)

(** The symbol as [subscribe] sees it: an empty string is falsy, hence
    treated as no symbol. *)
Definition effective_symbol (s : option string) : option string :=
  match s with
  | Some sym => if String.eqb sym "" then None else Some sym
  | None => None
  end.

(** The keys of the registry, in insertion order. *)
Definition registry_keys (w : World) : list string := (subscriptions (this w)).*1.

(** The registry, viewed as a list, never repeats a key. *)
Definition keys_stay_unique (w w' : World) : Prop :=
  NoDup (registry_keys w) -> NoDup (registry_keys w').

(** A batch of [subscribe] calls, as events, and the registry that the
    same calls build by [Map.set]. *)
Definition subscribe_calls
    (calls : list (WebSocketChannel * option string * MessageHandler)) : list Event :=
  map (fun call => Call_subscribe call.1.1 call.1.2 call.2) calls.

Definition registry_after
    (calls : list (WebSocketChannel * option string * MessageHandler))
    (m : list (string * Subscription)) : list (string * Subscription) :=
  fold_left
    (fun acc call =>
       Map_set (subscription_key call.1.1 call.1.2)
         {| channel := call.1.1; symbol := call.1.2; handler := call.2 |} acc)
    calls m.

(** The subscriptions of examples/websocket-stream.ts. *)
Definition example_calls : list (WebSocketChannel * option string * MessageHandler) :=
  [(Ch_orderbook, Some "BTC-USDT", quiet_handler 1);
   (Ch_trades, Some "BTC-USDT", quiet_handler 2);
   (Ch_ticker, Some "BTC-USDT", quiet_handler 3);
   (Ch_user_orders, None, quiet_handler 4);
   (Ch_user_balances, None, quiet_handler 5)].

(** Frames are sent on the current open socket only, which stays the
    current open socket. *)
Definition sends_on_current (w w' : World) : Prop :=
  open_handle w' = open_handle w
  /\ exists new, wire_sent (log (rt w')) = wire_sent (log (rt w)) ++ new
                 /\ forall x, x ∈ new -> open_handle w = Some x.1.

(** No frame is sent. *)
Definition silent (w w' : World) : Prop :=
  wire_sent (log (rt w')) = wire_sent (log (rt w)).

(** Calls that edit the registry. *)
Definition edits_registry (e : Event) : bool :=
  match e with
  | Call_subscribe _ _ _ | Call_unsubscribe _ | Call_disconnect => true
  | _ => false
  end.

Definition is_subscribe (e : Event) : bool :=
  match e with
  | Call_subscribe _ _ _ => true
  | _ => false
  end.

(** With an empty registry, the registry stays empty and no callback is
    called. *)
Definition nothing_delivered (w w' : World) : Prop :=
  subscriptions (this w) = [] ->
  subscriptions (this w') = []
  /\ handler_calls (log (rt w')) = handler_calls (log (rt w)).

(** Everything but the log is as it was. *)
Definition only_logs (w w' : World) : Prop :=
  this w' = this w
  /\ sockets (rt w') = sockets (rt w)
  /\ timeouts (rt w') = timeouts (rt w)
  /\ intervals (rt w') = intervals (rt w)
  /\ next_timer (rt w') = next_timer (rt w).

(** The state [onclose] reaches before it decides whether to reconnect:
    the socket is marked closed, the connecting flag is cleared and the
    ping timer is stopped. *)
Definition after_close_cleanup (sock : nat) (w : World) : World :=
  exec stopPingInterval
    (exec (update_this (with_isConnecting false))
       (exec (update_socket sock
                (fun s => with_closeFired true (with_readyState CLOSED s))) w)).

Definition max_attempts_error : JsError := new_Error "Max reconnection attempts reached".

(** The attempt counter and the options are as they were. *)
Definition keeps_counter (w w' : World) : Prop :=
  reconnectAttempts (this w') = reconnectAttempts (this w)
  /\ options (this w') = options (this w).

(** A credential as [if (this.apiKey)] sees it: present and not the
    empty string. *)
Definition configured (credential : option string) : option string :=
  match credential with
  | Some c => if String.eqb c "" then None else Some c
  | None => None
  end.

(** A client whose URL the constructors reject. *)
Definition bad_url_world : World :=
  {| this := new_KlingExWebSocket "not a url" (Some "key") None None None None;
     rt := fresh_runtime (fun _ => Some (ThrowError (new_TypeError "Invalid URL")))
             sample_pow |}.

Definition websocket_error : JsError := new_Error "WebSocket error".

(** The ping timer on record and the active interval timers are as they
    were; the log has only grown. *)
Definition keeps_ping (w w' : World) : Prop :=
  pingInterval (this w') = pingInterval (this w)
  /\ intervals (rt w') = intervals (rt w)
  /\ exists more, log (rt w') = log (rt w) ++ more.

(** What [onclose] does after its cleanup. *)
Definition onclose_decision (wasClean : bool) : M unit :=
  bind get_this
    (fun t => if reconnect (options t) && negb wasClean then scheduleReconnect else ret tt).

(** ** The reconnection loop *)

(** One failed reconnection attempt: the reconnect timer [id] fires,
    [connect()] creates socket [sock], and the socket fails (an error
    event, then a non-clean closure). *)
Definition failed_attempt (id : positive) (sock : nat) : list Event :=
  [Ev_timeout id; Ev_error sock; Ev_close sock false].

(** The client is waiting for a reconnect timer: reconnection is enabled,
    nothing is open or connecting, and the URL is one the constructors
    accept. *)
Definition retry_ready (w : World) : Prop :=
  reconnect (options (this w)) = true
  /\ isConnecting (this w) = false
  /\ open_handle w = None
  /\ url_rejected (rt w) (url (this w)) = None.

(** [k] failed attempts in a row, each started by the timer on record. *)
Fixpoint failed_rounds (k : nat) (w : World) : World :=
  match k with
  | 0 => w
  | S k' =>
      match reconnectTimeout (this w) with
      | Some id =>
          failed_rounds k' (run_events (failed_attempt id (length (sockets (rt w)))) w)
      | None => w
      end
  end.

(** The engine's [Math.pow] is the same throughout. *)
Definition same_engine (w w' : World) : Prop :=
  pow_approx (rt w') = pow_approx (rt w).

(** What an error event leaves alone. *)
Definition error_frame (w w' : World) : Prop :=
  ws (this w') = ws (this w)
  /\ options (this w') = options (this w)
  /\ reconnectAttempts (this w') = reconnectAttempts (this w)
  /\ reconnectTimeout (this w') = reconnectTimeout (this w)
  /\ url (this w') = url (this w)
  /\ url_rejected (rt w') = url_rejected (rt w)
  /\ timeouts (rt w') = timeouts (rt w)
  /\ next_timer (rt w') = next_timer (rt w)
  /\ length (sockets (rt w')) = length (sockets (rt w))
  /\ scheduled (log (rt w')) = scheduled (log (rt w)).

(** The transport of [retry_world] has dropped: the first reconnect timer
    is pending. *)
Definition waiting_world : World := step (Ev_close 0 false) retry_world.

(** Two reconnect timers are pending in [superseded_timer_world]: the
    transport dropped, the caller reconnected by hand before the timer
    fired, and the new transport dropped as well. *)
Definition superseded_timer_world : World :=
  run_events [Ev_close 0 false; Call_connect; Ev_close 1 false] retry_world.

(** * Properties *)

(** ** The registry as a map *)

Lemma assoc_Map_set_eq {V} (k : string) (v : V) m : assoc k (Map_set k v m) = Some v.
Proof.
  induction m as [|[k' x] m IH]; cbn.
  - by rewrite String.eqb_refl.
  - destruct (String.eqb k' k) eqn:E; cbn; rewrite E; done.
Qed.

Lemma assoc_Map_set_ne {V} (k k' : string) (v : V) m :
  k <> k' -> assoc k' (Map_set k v m) = assoc k' m.
Proof.
  intros Hne. induction m as [|[k0 x] m IH]; cbn.
  - destruct (String.eqb_spec k k'); congruence.
  - destruct (String.eqb_spec k0 k) as [->|]; cbn.
    + destruct (String.eqb_spec k k'); congruence.
    + destruct (String.eqb_spec k0 k'); congruence.
Qed.

Lemma assoc_Map_delete_eq {V} (k : string) (m : list (string * V)) :
  assoc k (Map_delete k m) = None.
Proof.
  induction m as [|[k0 x] m IH]; cbn; [done|].
  destruct (String.eqb k0 k) eqn:E; cbn; [done|]. by rewrite E.
Qed.

Lemma assoc_Map_delete_ne {V} (k k' : string) (m : list (string * V)) :
  k <> k' -> assoc k' (Map_delete k m) = assoc k' m.
Proof.
  intros Hne. induction m as [|[k0 x] m IH]; cbn; [done|].
  destruct (String.eqb_spec k0 k) as [->|]; cbn.
  - destruct (String.eqb_spec k k'); congruence.
  - destruct (String.eqb_spec k0 k'); congruence.
Qed.

Lemma Map_delete_absent {V} (k : string) (m : list (string * V)) :
  assoc k m = None -> Map_delete k m = m.
Proof.
  induction m as [|[k0 x] m IH]; cbn; [done|].
  destruct (String.eqb k0 k); [done|]. intros H. by rewrite IH.
Qed.

(** ** Message routing *)

Lemma routing_key_object (props : list (string * Js)) (w : World) :
  routing_key (JObj props) w =
    (spec_routing_key (default JUndefined (assoc "channel" props))
                      (default JUndefined (assoc "data" props)), w).
Proof.
  unfold routing_key, bind, lift, ret. cbn.
  destruct (default JUndefined (assoc "data" props)) as [| |b|r|s|items|dprops]; cbn; try done.
  - by destruct b.
  - by destruct (negb _).
  - by destruct (negb _).
  - destruct (assoc "symbol" dprops) as [sym|]; cbn; [|done].
    destruct (ToString (default JUndefined (assoc "channel" props))); cbn; [|done].
    by destruct (ToString sym).
Qed.

Lemma handleMessage_object (props : list (string * Js)) (w : World) (key : Js) :
  let chan := default JUndefined (assoc "channel" props) in
  let data := default JUndefined (assoc "data" props) in
  strict_eq_string (default JUndefined (assoc "type" props)) "pong" = false ->
  spec_routing_key chan data = Normal key ->
  handleMessage (Decoded (JObj props)) w =
    match or_else (Map_get (subscriptions (this w)) key)
                  (Map_get (subscriptions (this w)) chan) with
    | Some subscription =>
        try_catch (call_handler (handler subscription) data)
          (fun error => call_errorHandler (error_or error "Failed to parse message")) w
    | None => (Normal tt, w)
    end.
Proof.
  intros chan data Hpong Hkey.
  unfold handleMessage, try_catch, bind at 1 2, lift. cbn.
  rewrite Hpong. unfold bind at 1. rewrite routing_key_object. fold chan data.
  rewrite Hkey. unfold bind, lift, get_this. cbn. fold chan data.
  destruct (or_else _ _); done.
Qed.

(** When the key cannot be derived (a channel or symbol that has no
    string conversion), the catch clause reports the [TypeError]. *)
Lemma handleMessage_unroutable (props : list (string * Js)) (w : World) (t : Thrown) :
  let chan := default JUndefined (assoc "channel" props) in
  let data := default JUndefined (assoc "data" props) in
  strict_eq_string (default JUndefined (assoc "type" props)) "pong" = false ->
  spec_routing_key chan data = Throws t ->
  handleMessage (Decoded (JObj props)) w =
    call_errorHandler (error_or t "Failed to parse message") w.
Proof.
  intros chan data Hpong Hkey.
  unfold handleMessage, try_catch, bind at 1 2, lift. cbn.
  rewrite Hpong. unfold bind at 1. rewrite routing_key_object. fold chan data.
  by rewrite Hkey.
Qed.

Lemma handleMessage_pong (props : list (string * Js)) (w : World) :
  strict_eq_string (default JUndefined (assoc "type" props)) "pong" = true ->
  handleMessage (Decoded (JObj props)) w = (Normal tt, w).
Proof.
  intros Hpong. unfold handleMessage, try_catch, bind, lift. cbn. by rewrite Hpong.
Qed.

Lemma handleMessage_malformed (e : JsError) (w : World) :
  handleMessage (Malformed e) w = call_errorHandler e w.
Proof. reflexivity. Qed.

Lemma handleMessage_primitive (m : Js) (w : World) :
  match m with JObj _ | JNull | JUndefined => False | _ => True end ->
  handleMessage (Decoded m) w = (Normal tt, w).
Proof. destruct m; intros []; reflexivity. Qed.

Lemma handleMessage_null (w : World) :
  handleMessage (Decoded JNull) w =
    call_errorHandler (new_TypeError "Cannot read properties of null") w.
Proof. reflexivity. Qed.

Lemma dispatch_log (h : MessageHandler) (data : Js) (fallback : string) (w : World) :
  log (rt (exec (try_catch (call_handler h data)
                   (fun error => call_errorHandler (error_or error fallback))) w)) =
    log (rt w) ++
      CallHandler (handler_id h) data ::
      match handler_run h data, errorHandler (this w) with
      | Some t, Some eh => [CallErrorHandler (error_handler_id eh) (error_or t fallback)]
      | _, _ => []
      end.
Proof.
  unfold exec, try_catch, call_handler, call_errorHandler, bind, emit, update_rt, get_this.
  cbn. destruct (handler_run h data) as [t|]; cbn; [|done].
  destruct (errorHandler (this w)) as [eh|]; cbn; [|done].
  destruct (error_handler_run eh _); cbn; by rewrite <- app_assoc.
Qed.

Lemma handler_calls_app (l1 l2 : list Effect) :
  handler_calls (l1 ++ l2) = handler_calls l1 ++ handler_calls l2.
Proof. apply omap_app. Qed.

Lemma dispatch_handler_calls (h : MessageHandler) (data : Js) (fallback : string) (w : World) :
  handler_calls (log (rt (exec (try_catch (call_handler h data)
                   (fun error => call_errorHandler (error_or error fallback))) w))) =
    handler_calls (log (rt w)) ++ [(handler_id h, data)].
Proof.
  rewrite dispatch_log, handler_calls_app. f_equal. cbn.
  destruct (handler_run h data), (errorHandler (this w)); done.
Qed.

Lemma subscribe_spec (c : WebSocketChannel) (s : option string) (h : MessageHandler) (w : World) :
  subscribe c s h w =
    (Normal {| captured_key := subscription_key c s; captured_channel := c;
               captured_symbol := s |},
     {| this := with_subscriptions
                  (Map_set (subscription_key c s)
                     {| channel := c; symbol := s; handler := h |}
                     (subscriptions (this w))) (this w);
        rt := match open_handle w with
              | Some sock =>
                  with_log (log (rt w) ++ [WsSend sock (WireAction "subscribe" c s)]) (rt w)
              | None => rt w
              end |}).
Proof.
  unfold subscribe, bind, update_this, ws_open, ret, sendSubscribe, send, ws_send, emit,
    update_rt, ws_open. cbn.
  unfold open_handle at 1. cbn. fold (open_handle w).
  destruct (open_handle w) as [sock|] eqn:E; cbn; [|done].
  unfold open_handle. cbn. fold (open_handle w). by rewrite E.
Qed.

Lemma call_errorHandler_this (e : JsError) (w : World) :
  this (exec (call_errorHandler e) w) = this w.
Proof.
  unfold exec, call_errorHandler, bind, get_this, emit, update_rt. cbn.
  destruct (errorHandler (this w)) as [h|]; cbn; [|done].
  by destruct (error_handler_run h e).
Qed.

Lemma call_errorHandler_completion (e : JsError) (w : World) :
  completion (call_errorHandler e) w =
    match errorHandler (this w) with
    | Some h =>
        match error_handler_run h e with
        | Some t => Throws t
        | None => Normal tt
        end
    | None => Normal tt
    end.
Proof.
  unfold completion, call_errorHandler, bind, get_this, emit, update_rt. cbn.
  destruct (errorHandler (this w)) as [h|]; cbn; [|done].
  by destruct (error_handler_run h e).
Qed.

Lemma call_errorHandler_log (e : JsError) (w : World) :
  log (rt (exec (call_errorHandler e) w)) =
    log (rt w) ++
      match errorHandler (this w) with
      | Some h => [CallErrorHandler (error_handler_id h) e]
      | None => []
      end.
Proof.
  unfold exec, call_errorHandler, bind, get_this, emit, update_rt. cbn.
  destruct (errorHandler (this w)) as [h|]; cbn; [|by rewrite app_nil_r].
  by destruct (error_handler_run h e).
Qed.

(** C1.  For a decoded data message, the routing key is the channel, a
    colon and [data.symbol] when [data] is an object with a [symbol]
    field, and the bare channel otherwise.  The registry is looked up by
    that key first: an entry found there is the one called, with the
    message's [data].  Only when there is none is the registry looked up
    by the bare channel, and the entry found there is called; with no
    entry under either, nothing happens.  (A channel or symbol that has
    no string conversion yields no key: the [TypeError] goes to the error
    handler and no callback is called.)  So a message on "orderbook" with
    [data.symbol = "BTC-USDT"] is delivered to the callback subscribed
    for ("orderbook", "BTC-USDT") and to no other, whichever order the
    BTC-USDT and ETH-USDT subscriptions were made in; and a subscription
    for ("orderbook", "ETH-USDT") never receives it: with that
    subscription added, the message still goes to whatever is registered
    under "orderbook:BTC-USDT", else under "orderbook", else nowhere. *)
Theorem handleMessage_routing :
  forall (w : World) (props : list (string * Js)),
    let chan := default JUndefined (assoc "channel" props) in
    let data := default JUndefined (assoc "data" props) in
    let subs := subscriptions (this w) in
    let calls := fun w' : World => handler_calls (log (rt w')) in
    let handled := fun w' : World => exec (handleMessage (Decoded (JObj props))) w' in
    strict_eq_string (default JUndefined (assoc "type" props)) "pong" = false ->
    routing_key (JObj props) w = (spec_routing_key chan data, w)
    /\ (forall c dprops,
          chan = JStr c -> data = JObj dprops ->
          (forall s, assoc "symbol" dprops = Some (JStr s) ->
             completion (routing_key (JObj props)) w = Normal (JStr (c +:+ ":" +:+ s)))
          /\ (assoc "symbol" dprops = None ->
              completion (routing_key (JObj props)) w = Normal (JStr c)))
    /\ (forall key,
          completion (routing_key (JObj props)) w = Normal key ->
          (forall sub, Map_get subs key = Some sub ->
             calls (handled w) = calls w ++ [(handler_id (handler sub), data)])
          /\ (forall sub, Map_get subs key = None -> Map_get subs chan = Some sub ->
                calls (handled w) = calls w ++ [(handler_id (handler sub), data)])
          /\ (Map_get subs key = None -> Map_get subs chan = None ->
              handleMessage (Decoded (JObj props)) w = (Normal tt, w)))
    /\ (forall t,
          completion (routing_key (JObj props)) w = Throws t ->
          handleMessage (Decoded (JObj props)) w =
            call_errorHandler (error_or t "Failed to parse message") w
          /\ calls (handled w) = calls w)
    /\ (chan = JStr "orderbook" ->
        member data "symbol" = Normal (JStr "BTC-USDT") ->
        (forall cb cb2 : MessageHandler,
            let w2 := exec (subscribe Ch_orderbook (Some "ETH-USDT") cb2)
                        (exec (subscribe Ch_orderbook (Some "BTC-USDT") cb) w) in
            let w2' := exec (subscribe Ch_orderbook (Some "BTC-USDT") cb)
                         (exec (subscribe Ch_orderbook (Some "ETH-USDT") cb2) w) in
            calls (handled w2) = calls w2 ++ [(handler_id cb, data)]
            /\ calls (handled w2') = calls w2' ++ [(handler_id cb, data)])
        /\ (forall cb2 : MessageHandler,
              let w1 := exec (subscribe Ch_orderbook (Some "ETH-USDT") cb2) w in
              (forall sub, assoc "orderbook:BTC-USDT" subs = Some sub ->
                 calls (handled w1) = calls w1 ++ [(handler_id (handler sub), data)])
              /\ (forall sub, assoc "orderbook:BTC-USDT" subs = None ->
                    assoc "orderbook" subs = Some sub ->
                    calls (handled w1) = calls w1 ++ [(handler_id (handler sub), data)])
              /\ (assoc "orderbook:BTC-USDT" subs = None ->
                  assoc "orderbook" subs = None ->
                  calls (handled w1) = calls w1))).
Proof.
  intros w props chan data subs calls handled Hpong.
  assert (Hrk : forall x, completion (routing_key (JObj props)) x = spec_routing_key chan data).
  { intros x. unfold completion. by rewrite routing_key_object. }
  split; [apply routing_key_object|].
  split.
  { intros c dprops Hc Hd. rewrite Hrk, Hc, Hd. split.
    - intros s Hs. cbn. by rewrite Hs.
    - intros Hs. cbn. by rewrite Hs. }
  split.
  { intros key Hkey. rewrite Hrk in Hkey. unfold calls, handled, exec.
    rewrite (handleMessage_object props w key Hpong Hkey). fold chan data subs.
    split; [|split].
    - intros sub Hsub. rewrite Hsub. cbn [or_else]. apply dispatch_handler_calls.
    - intros sub Hnone Hsub. rewrite Hnone, Hsub. cbn [or_else].
      apply dispatch_handler_calls.
    - intros Hnone Hnone'. by rewrite Hnone, Hnone'. }
  split.
  { intros t Ht. rewrite Hrk in Ht.
    pose proof (handleMessage_unroutable props w t Hpong Ht) as H.
    split; [exact H|]. unfold calls, handled, exec. rewrite H.
    fold (exec (call_errorHandler (error_or t "Failed to parse message")) w).
    rewrite call_errorHandler_log, handler_calls_app.
    destruct (errorHandler (this w)); cbn; by rewrite app_nil_r. }
  intros Hchan Hsym.
  assert (Hkey : spec_routing_key chan data = Normal (JStr "orderbook:BTC-USDT")).
  { rewrite Hchan. destruct data as [| |b|r|s|items|dprops]; try discriminate Hsym.
    cbn in Hsym |- *. destruct (assoc "symbol" dprops) as [sym|]; cbn in Hsym;
      [|discriminate Hsym]. by injection Hsym as ->. }
  assert (Hfirst : forall w' sub,
     assoc "orderbook:BTC-USDT" (subscriptions (this w')) = Some sub ->
     calls (handled w') = calls w' ++ [(handler_id (handler sub), data)]).
  { intros w' sub Hsub. unfold calls, handled, exec.
    rewrite (handleMessage_object props w' _ Hpong Hkey). fold chan data.
    cbn [Map_get]. rewrite Hsub. cbn [or_else]. apply dispatch_handler_calls. }
  split.
  - intros cb cb2 w2 w2'. split.
    + rewrite (Hfirst w2 {| channel := Ch_orderbook; symbol := Some "BTC-USDT";
                            handler := cb |}); [done|].
      unfold w2, exec. rewrite !subscribe_spec. cbn.
      rewrite assoc_Map_set_ne by done. apply assoc_Map_set_eq.
    + rewrite (Hfirst w2' {| channel := Ch_orderbook; symbol := Some "BTC-USDT";
                             handler := cb |}); [done|].
      unfold w2', exec. rewrite !subscribe_spec. cbn. apply assoc_Map_set_eq.
  - intros cb2 w1.
    assert (Hsubs : forall k, k <> "orderbook:ETH-USDT" ->
              assoc k (subscriptions (this w1)) = assoc k subs).
    { intros k Hk. unfold w1, exec. rewrite subscribe_spec. cbn.
      by rewrite assoc_Map_set_ne. }
    split; [|split].
    + intros sub Hsub. apply Hfirst. by rewrite Hsubs.
    + intros sub Hnone Hsub. unfold calls, handled, exec.
      rewrite (handleMessage_object props w1 _ Hpong Hkey). fold chan data.
      rewrite Hchan. cbn [Map_get]. rewrite !Hsubs by done. rewrite Hnone, Hsub.
      cbn [or_else]. apply dispatch_handler_calls.
    + intros Hnone Hnone'. unfold calls, handled, exec.
      rewrite (handleMessage_object props w1 _ Hpong Hkey). fold chan data.
      rewrite Hchan. cbn [Map_get]. rewrite !Hsubs by done. by rewrite Hnone, Hnone'.
Qed.

Lemma handleMessage_routing_witness :
  strict_eq_string
    (default JUndefined (assoc "type" (data_message_props "orderbook" btc_payload)))
    "pong" = false
  /\ handler_calls
       (log (rt (exec (handleMessage (Decoded (data_message "orderbook" btc_payload)))
          (exec (subscribe Ch_orderbook (Some "ETH-USDT") (quiet_handler 2))
             (exec (subscribe Ch_orderbook (Some "BTC-USDT") (quiet_handler 1))
                open_world)))))
     = [(1, btc_payload)].
Proof.
  split; [reflexivity|].
  destruct (handleMessage_routing open_world
              (data_message_props "orderbook" btc_payload) eq_refl) as (_ & _ & _ & _ & H).
  destruct (H eq_refl eq_refl) as [H1 _].
  destruct (H1 (quiet_handler 1) (quiet_handler 2)) as [H2 _].
  exact H2.
Defined.

(** ** What [handleMessage] can do *)

(** A callback that throws: the catch clause takes over in the state the
    callback left (only the log has grown). *)
Lemma dispatch_throw (h : MessageHandler) (data : Js) (t : Thrown) (k : Thrown -> M unit)
    (w : World) :
  handler_run h data = Some t ->
  try_catch (call_handler h data) k w =
    k t (exec (emit (CallHandler (handler_id h) data)) w).
Proof.
  intros Ht. unfold try_catch, call_handler, bind, exec. cbn. by rewrite Ht.
Qed.

Lemma dispatch_return (h : MessageHandler) (data : Js) (k : Thrown -> M unit) (w : World) :
  handler_run h data = None ->
  try_catch (call_handler h data) k w =
    (Normal tt, exec (emit (CallHandler (handler_id h) data)) w).
Proof.
  intros Ht. unfold try_catch, call_handler, bind, exec. cbn. by rewrite Ht.
Qed.

(** The three things a frame can lead to. *)
Lemma handleMessage_shape (frame : RawFrame) (w : World) :
  handleMessage frame w = (Normal tt, w)
  \/ (exists e, handleMessage frame w = call_errorHandler e w)
  \/ (exists h data,
        handleMessage frame w =
          try_catch (call_handler h data)
            (fun error => call_errorHandler (error_or error "Failed to parse message")) w).
Proof.
  destruct frame as [e|m].
  - right; left. by exists e.
  - destruct m as [| |b|r|s|items|props]; try (left; reflexivity).
    + right; left. eexists. reflexivity.
    + right; left. eexists. reflexivity.
    + destruct (strict_eq_string (default JUndefined (assoc "type" props)) "pong") eqn:Hp.
      * left. by apply handleMessage_pong.
      * destruct (spec_routing_key (default JUndefined (assoc "channel" props))
                    (default JUndefined (assoc "data" props))) as [key|t] eqn:Hkey.
        -- rewrite (handleMessage_object props w key Hp Hkey).
           destruct (or_else _ _) as [sub|]; [|by left].
           right; right.
           by exists (handler sub), (default JUndefined (assoc "data" props)).
        -- right; left. eexists. by apply handleMessage_unroutable.
Qed.

Lemma handleMessage_throws_inv (frame : RawFrame) (w : World) (t : Thrown) :
  completion (handleMessage frame) w = Throws t ->
  exists h e, errorHandler (this w) = Some h /\ error_handler_run h e = Some t.
Proof.
  unfold completion.
  destruct (handleMessage_shape frame w) as [H|[[e H]|(h & data & H)]]; rewrite H.
  - discriminate.
  - fold (completion (call_errorHandler e) w). rewrite call_errorHandler_completion.
    destruct (errorHandler (this w)) as [eh|]; [|discriminate].
    destruct (error_handler_run eh e) eqn:E; [|discriminate].
    intros [= <-]. eauto.
  - destruct (handler_run h data) as [t'|] eqn:E.
    + rewrite (dispatch_throw h data t' _ w E).
      match goal with |- (call_errorHandler ?e ?w').1 = _ -> _ =>
        fold (completion (call_errorHandler e) w'); set (e0 := e) end.
      rewrite call_errorHandler_completion. cbn.
      destruct (errorHandler (this w)) as [eh|]; [|discriminate].
      destruct (error_handler_run eh e0) eqn:E'; [|discriminate].
      intros [= <-]. eauto.
    + by rewrite (dispatch_return h data _ w E).
Qed.

(** C7, as the code has it.  [handleMessage] completes abruptly only
    when the registered error handler itself throws; with no handler, or
    a handler that returns, it always returns.  A malformed frame is
    reported to the error handler and to nothing else; a pong frame
    returns with no effect at all; a routed message calls the stored
    callback with the message's [data], not the envelope; a message that
    matches no entry has no effect at all; a message whose routing key
    cannot be derived is reported to the error handler like a malformed
    frame. *)
Theorem handleMessage_completion :
  forall (w : World) (frame : RawFrame),
    (forall t, completion (handleMessage frame) w = Throws t ->
       exists h e, errorHandler (this w) = Some h /\ error_handler_run h e = Some t)
    /\ (match errorHandler (this w) with
        | Some h => forall e, error_handler_run h e = None
        | None => True
        end -> completion (handleMessage frame) w = Normal tt)
    /\ (forall e, frame = Malformed e ->
          handleMessage frame w = call_errorHandler e w
          /\ this (exec (handleMessage frame) w) = this w
          /\ log (rt (exec (handleMessage frame) w)) =
               log (rt w) ++ match errorHandler (this w) with
                             | Some h => [CallErrorHandler (error_handler_id h) e]
                             | None => []
                             end)
    /\ (forall props,
          frame = Decoded (JObj props) ->
          let type := default JUndefined (assoc "type" props) in
          let chan := default JUndefined (assoc "channel" props) in
          let data := default JUndefined (assoc "data" props) in
          (strict_eq_string type "pong" = true -> handleMessage frame w = (Normal tt, w))
          /\ (forall key,
                strict_eq_string type "pong" = false ->
                spec_routing_key chan data = Normal key ->
                let found := or_else (Map_get (subscriptions (this w)) key)
                                     (Map_get (subscriptions (this w)) chan) in
                (forall subscription, found = Some subscription ->
                   handler_calls (log (rt (exec (handleMessage frame) w))) =
                     handler_calls (log (rt w))
                     ++ [(handler_id (handler subscription), data)])
                /\ (found = None -> handleMessage frame w = (Normal tt, w)))
          /\ (forall t,
                strict_eq_string type "pong" = false ->
                spec_routing_key chan data = Throws t ->
                handleMessage frame w =
                  call_errorHandler (error_or t "Failed to parse message") w)).
Proof.
  intros w frame. split; [|split; [|split]].
  - intros t. apply handleMessage_throws_inv.
  - intros Hquiet. destruct (completion (handleMessage frame) w) as [[]|t] eqn:E; [done|].
    destruct (handleMessage_throws_inv _ _ _ E) as (h & e & Hh & Hrun).
    rewrite Hh in Hquiet. rewrite Hquiet in Hrun. discriminate.
  - intros e ->. split; [reflexivity|].
    change (handleMessage (Malformed e)) with (call_errorHandler e).
    split; [apply call_errorHandler_this | apply call_errorHandler_log].
  - intros props -> type chan data. split; [|split].
    + apply handleMessage_pong.
    + intros key Hp Hkey found. split.
      * intros sub Hsub. unfold exec. rewrite (handleMessage_object props w key Hp Hkey).
        fold chan data found. rewrite Hsub. apply dispatch_handler_calls.
      * intros Hnone. rewrite (handleMessage_object props w key Hp Hkey).
        fold chan data found. by rewrite Hnone.
    + intros t Hp Hkey. by apply handleMessage_unroutable.
Qed.

Lemma handleMessage_completion_witness :
  match errorHandler (this open_world) with
  | Some h => forall e, error_handler_run h e = None
  | None => True
  end
  /\ completion (handleMessage (Malformed syntax_error)) open_world = Normal tt.
Proof.
  split; [exact I|].
  destruct (handleMessage_completion open_world (Malformed syntax_error)) as (_ & H & _).
  apply H. exact I.
Defined.

(** C7 as stated fails: with an error handler that throws, a malformed
    frame makes [handleMessage] throw to its caller. *)
Lemma handleMessage_can_throw :
  completion (handleMessage (Malformed syntax_error))
             (exec (onError (rethrowing_error_handler 9)) open_world)
  = Throws (ThrowError syntax_error).
Proof. reflexivity. Qed.

(** C10, as the code has it.  When the callback selected for a message
    throws, the catch clause of [handleMessage] runs: the thrown value,
    turned into an [Error] exactly as for a decode failure, goes to the
    registered error handler; with no handler it is swallowed, with a
    handler that returns [handleMessage] returns, and [handleMessage]
    throws only what the error handler throws. *)
Theorem callback_exception_routed :
  forall (w : World) (props : list (string * Js)) (key : Js) (subscription : Subscription)
         (t : Thrown),
    let chan := default JUndefined (assoc "channel" props) in
    let data := default JUndefined (assoc "data" props) in
    let called := exec (emit (CallHandler (handler_id (handler subscription)) data)) w in
    let reported := error_or t "Failed to parse message" in
    strict_eq_string (default JUndefined (assoc "type" props)) "pong" = false ->
    spec_routing_key chan data = Normal key ->
    or_else (Map_get (subscriptions (this w)) key)
            (Map_get (subscriptions (this w)) chan) = Some subscription ->
    handler_run (handler subscription) data = Some t ->
    handleMessage (Decoded (JObj props)) w = call_errorHandler reported called
    /\ handleMessage (Decoded (JObj props)) w = handleMessage (Malformed reported) called
    /\ (errorHandler (this w) = None ->
        handleMessage (Decoded (JObj props)) w = (Normal tt, called))
    /\ (forall h, errorHandler (this w) = Some h ->
          log (rt (exec (handleMessage (Decoded (JObj props))) w)) =
            log (rt w) ++ [CallHandler (handler_id (handler subscription)) data;
                           CallErrorHandler (error_handler_id h) reported]
          /\ completion (handleMessage (Decoded (JObj props))) w =
               match error_handler_run h reported with
               | Some t' => Throws t'
               | None => Normal tt
               end).
Proof.
  intros w props key sub t chan data called reported Hp Hkey Hsub Hrun.
  assert (H : handleMessage (Decoded (JObj props)) w = call_errorHandler reported called).
  { rewrite (handleMessage_object props w key Hp Hkey). fold chan data. rewrite Hsub.
    by rewrite (dispatch_throw _ _ t _ w Hrun). }
  split; [exact H|]. split; [rewrite H; symmetry; apply handleMessage_malformed|]. split.
  - intros Hno. rewrite H. unfold call_errorHandler, bind, get_this. cbn. by rewrite Hno.
  - intros h Hh. unfold exec, completion. rewrite H.
    fold (exec (call_errorHandler reported) called).
    fold (completion (call_errorHandler reported) called).
    rewrite call_errorHandler_log, call_errorHandler_completion. cbn. rewrite Hh.
    split; [|done]. by rewrite <- app_assoc.
Qed.

Lemma callback_exception_routed_witness :
  (strict_eq_string
     (default JUndefined (assoc "type" (data_message_props "orderbook" btc_payload)))
     "pong" = false
   /\ spec_routing_key (JStr "orderbook") btc_payload
      = Normal (JStr "orderbook:BTC-USDT")
   /\ handler_run (throwing_handler 1 (ThrowValue (JStr "oops"))) btc_payload
      = Some (ThrowValue (JStr "oops")))
  /\ error_calls
       (log (rt (exec (handleMessage (Decoded (data_message "orderbook" btc_payload)))
          (run_events [Call_onError (quiet_error_handler 9);
                       Call_subscribe Ch_orderbook (Some "BTC-USDT")
                         (throwing_handler 1 (ThrowValue (JStr "oops")))] open_world))))
     = [(9, new_Error "Failed to parse message")].
Proof.
  split; [repeat split; reflexivity|].
  destruct (callback_exception_routed
              (run_events [Call_onError (quiet_error_handler 9);
                           Call_subscribe Ch_orderbook (Some "BTC-USDT")
                             (throwing_handler 1 (ThrowValue (JStr "oops")))] open_world)
              (data_message_props "orderbook" btc_payload)
              (JStr "orderbook:BTC-USDT")
              {| channel := Ch_orderbook; symbol := Some "BTC-USDT";
                 handler := throwing_handler 1 (ThrowValue (JStr "oops")) |}
              (ThrowValue (JStr "oops")) eq_refl eq_refl eq_refl eq_refl)
    as (_ & _ & _ & H).
  destruct (H (quiet_error_handler 9) eq_refl) as [Hlog _].
  exact (eq_trans (f_equal error_calls Hlog) eq_refl).
Defined.

(** C10 as stated fails: when the error handler rethrows what it is
    given, the exception thrown by the callback does leave
    [handleMessage]. *)
Lemma callback_exception_can_escape :
  completion (handleMessage (Decoded (data_message "orderbook" btc_payload))) fragile_world
  = Throws (ThrowError boom).
Proof. reflexivity. Qed.

(** ** Subscribing and unsubscribing *)

Lemma unsubscribe_spec (u : Unsubscribe) (w : World) :
  unsubscribe u w =
    (Normal tt,
     {| this := with_subscriptions
                  (Map_delete (captured_key u) (subscriptions (this w))) (this w);
        rt := match open_handle w with
              | Some sock =>
                  with_log (log (rt w) ++
                              [WsSend sock (WireAction "unsubscribe" (captured_channel u)
                                              (captured_symbol u))]) (rt w)
              | None => rt w
              end |}).
Proof.
  unfold unsubscribe, bind, update_this, ws_open, ret, sendUnsubscribe, send, ws_send, emit,
    update_rt. cbn.
  unfold open_handle at 1. cbn. fold (open_handle w).
  destruct (open_handle w) as [sock|] eqn:E; cbn; [|done].
  unfold open_handle. cbn. fold (open_handle w). by rewrite E.
Qed.

Lemma subscribe_closure (c : WebSocketChannel) (s : option string) (h : MessageHandler)
    (w0 w1 : World) (u : Unsubscribe) :
  subscribe c s h w0 = (Normal u, w1) ->
  u = {| captured_key := subscription_key c s; captured_channel := c;
         captured_symbol := s |}.
Proof. rewrite subscribe_spec. by intros [= <- _]. Qed.

Lemma with_subscriptions_same (t : KlingExWebSocket) :
  with_subscriptions (subscriptions t) t = t.
Proof. by destruct t. Qed.

(** C2, as the code has it.  Invoking the closure returned by
    [subscribe], in any later state, removes the entry stored under the
    captured key and, if the transport is open, sends one wire
    unsubscribe message (none otherwise); afterwards a message whose
    routing key is the captured key finds no entry under that key and can
    only reach an entry registered under the bare channel.  A further
    invocation, the key being absent, changes no field of the client; it
    has no effect at all when the transport is not open, and sends the
    wire unsubscribe message once more when it is open. *)
Theorem unsubscribe_closure :
  forall (w0 w1 : World) (c : WebSocketChannel) (s : option string) (h : MessageHandler)
         (u : Unsubscribe),
    subscribe c s h w0 = (Normal u, w1) ->
    forall w : World,
      let w' := exec (unsubscribe u) w in
      let sent := fun w : World =>
        match open_handle w with
        | Some sock => [WsSend sock (WireAction "unsubscribe" c s)]
        | None => []
        end in
      completion (unsubscribe u) w = Normal tt
      /\ captured_key u = subscription_key c s
      /\ subscriptions (this w') = Map_delete (captured_key u) (subscriptions (this w))
      /\ Map_get (subscriptions (this w')) (JStr (captured_key u)) = None
      /\ (forall k, k <> captured_key u ->
            assoc k (subscriptions (this w')) = assoc k (subscriptions (this w)))
      /\ log (rt w') = log (rt w) ++ sent w
      /\ (forall props,
            let chan := default JUndefined (assoc "channel" props) in
            let data := default JUndefined (assoc "data" props) in
            strict_eq_string (default JUndefined (assoc "type" props)) "pong" = false ->
            spec_routing_key chan data = Normal (JStr (captured_key u)) ->
            handleMessage (Decoded (JObj props)) w' =
              match Map_get (subscriptions (this w')) chan with
              | Some fallback =>
                  try_catch (call_handler (handler fallback) data)
                    (fun error => call_errorHandler (error_or error "Failed to parse message"))
                    w'
              | None => (Normal tt, w')
              end)
      /\ (forall w2 : World,
            Map_get (subscriptions (this w2)) (JStr (captured_key u)) = None ->
            this (exec (unsubscribe u) w2) = this w2
            /\ log (rt (exec (unsubscribe u) w2)) = log (rt w2) ++ sent w2
            /\ (open_handle w2 = None -> exec (unsubscribe u) w2 = w2)).
Proof.
  intros w0 w1 c s h u Hsub w w' sent.
  apply subscribe_closure in Hsub. subst u. cbn [captured_key].
  assert (Hlog : forall x : World,
            log (rt (exec (unsubscribe
                       {| captured_key := subscription_key c s; captured_channel := c;
                          captured_symbol := s |}) x)) = log (rt x) ++ sent x).
  { intros x. unfold exec. rewrite unsubscribe_spec. cbn. unfold sent.
    destruct (open_handle x); cbn; [done|by rewrite app_nil_r]. }
  assert (Hsubs : subscriptions (this w') =
                  Map_delete (subscription_key c s) (subscriptions (this w))).
  { unfold w', exec. by rewrite unsubscribe_spec. }
  split; [unfold completion; by rewrite unsubscribe_spec|].
  split; [done|]. split; [exact Hsubs|].
  split; [cbn [Map_get]; rewrite Hsubs; apply assoc_Map_delete_eq|].
  split; [intros k Hk; rewrite Hsubs; by apply assoc_Map_delete_ne|].
  split; [apply Hlog|].
  split.
  - intros props Hp Hkey.
    rewrite (handleMessage_object props _ _ Hp Hkey). cbn zeta.
    cbn [Map_get]. rewrite Hsubs. by rewrite assoc_Map_delete_eq.
  - intros w2 Habsent. split; [|split; [apply Hlog|]].
    + unfold exec. rewrite unsubscribe_spec. cbn in Habsent |- *.
      by rewrite (Map_delete_absent _ _ Habsent), with_subscriptions_same.
    + intros Hclosed. unfold exec. rewrite unsubscribe_spec. cbn in Habsent |- *.
      rewrite (Map_delete_absent _ _ Habsent), with_subscriptions_same, Hclosed.
      by destruct w2.
Qed.

Lemma unsubscribe_closure_witness :
  subscribe Ch_orderbook (Some "BTC-USDT") (quiet_handler 1) open_world
    = (Normal btc_closure, subscribed_world)
  /\ log (rt (exec (unsubscribe btc_closure) subscribed_world)) =
       log (rt subscribed_world) ++
         [WsSend 0 (WireAction "unsubscribe" Ch_orderbook (Some "BTC-USDT"))].
Proof.
  split; [vm_compute; reflexivity|].
  destruct (unsubscribe_closure open_world subscribed_world Ch_orderbook (Some "BTC-USDT")
              (quiet_handler 1) btc_closure
              ltac:(vm_compute; reflexivity) subscribed_world)
    as (_ & _ & _ & _ & _ & H & _).
  exact H.
Defined.

(** C2 as stated fails: on an open transport the second invocation of the
    closure is not a no-op, it sends a second wire unsubscribe message. *)
Lemma second_unsubscribe_sends_again :
  subscribe Ch_orderbook (Some "BTC-USDT") (quiet_handler 1) open_world
    = (Normal btc_closure, subscribed_world)
  /\ wire_sent (log (rt (exec (unsubscribe btc_closure)
                           (exec (unsubscribe btc_closure) subscribed_world)))) =
       [(0, WireAction "subscribe" Ch_orderbook (Some "BTC-USDT"));
        (0, WireAction "unsubscribe" Ch_orderbook (Some "BTC-USDT"));
        (0, WireAction "unsubscribe" Ch_orderbook (Some "BTC-USDT"))]
  /\ exec (unsubscribe btc_closure) (exec (unsubscribe btc_closure) subscribed_world)
       <> exec (unsubscribe btc_closure) subscribed_world.
Proof.
  split; [vm_compute; reflexivity|]. split; [vm_compute; reflexivity|].
  intros H. apply (f_equal (fun w => length (log (rt w)))) in H.
  vm_compute in H. discriminate H.
Qed.

(** C9.  The closure returned by [subscribe] holds the key (with the
    channel and symbol), not the subscription: when a newer subscription
    is registered under the same key, in any later state (whether or not
    the closure was already invoked), invoking the old closure removes
    the newer subscription. *)
Theorem stale_closure_removes_newer_subscription :
  forall (w0 w1 : World) (c : WebSocketChannel) (s : option string) (h1 : MessageHandler)
         (u1 : Unsubscribe),
    subscribe c s h1 w0 = (Normal u1, w1) ->
    forall (w : World) (c' : WebSocketChannel) (s' : option string) (h2 : MessageHandler),
      subscription_key c' s' = subscription_key c s ->
      let w2 := exec (subscribe c' s' h2) w in
      u1 = {| captured_key := subscription_key c s; captured_channel := c;
              captured_symbol := s |}
      /\ Map_get (subscriptions (this w2)) (JStr (captured_key u1)) =
           Some {| channel := c'; symbol := s'; handler := h2 |}
      /\ Map_get (subscriptions (this (exec (unsubscribe u1) w2))) (JStr (captured_key u1))
         = None
      /\ (forall props,
            let chan := default JUndefined (assoc "channel" props) in
            let data := default JUndefined (assoc "data" props) in
            strict_eq_string (default JUndefined (assoc "type" props)) "pong" = false ->
            spec_routing_key chan data = Normal (JStr (captured_key u1)) ->
            Map_get (subscriptions (this w2)) chan = None \/ chan = JStr (captured_key u1) ->
            handler_calls (log (rt (exec (handleMessage (Decoded (JObj props))) w2))) =
              handler_calls (log (rt w2)) ++ [(handler_id h2, data)]
            /\ handleMessage (Decoded (JObj props)) (exec (unsubscribe u1) w2) =
                 (Normal tt, exec (unsubscribe u1) w2)).
Proof.
  intros w0 w1 c s h1 u1 Hsub w c' s' h2 Hkey w2.
  apply subscribe_closure in Hsub. split; [exact Hsub|]. subst u1. cbn [captured_key].
  assert (H2 : assoc (subscription_key c s) (subscriptions (this w2)) =
               Some {| channel := c'; symbol := s'; handler := h2 |}).
  { unfold w2, exec. rewrite subscribe_spec. cbn. rewrite Hkey. apply assoc_Map_set_eq. }
  assert (H3 : assoc (subscription_key c s)
                 (subscriptions (this (exec (unsubscribe
                    {| captured_key := subscription_key c s; captured_channel := c;
                       captured_symbol := s |}) w2))) = None).
  { unfold exec. rewrite unsubscribe_spec. cbn. apply assoc_Map_delete_eq. }
  split; [exact H2|]. split; [exact H3|].
  intros props Hp Hrk Hbare.
  set (chan := default JUndefined (assoc "channel" props)) in *.
  set (data := default JUndefined (assoc "data" props)) in *.
  split.
  - unfold exec at 1. rewrite (handleMessage_object props w2 _ Hp Hrk). fold chan data.
    cbn [Map_get]. rewrite H2. cbn [or_else]. apply dispatch_handler_calls.
  - rewrite (handleMessage_object props _ _ Hp Hrk). fold chan data.
    cbn [Map_get]. rewrite H3. cbn [or_else].
    destruct Hbare as [Hbare| ->].
    + unfold exec. rewrite unsubscribe_spec. cbn.
      destruct chan as [| |?|?|k|?|?]; try done. cbn in Hbare |- *.
      destruct (String.eqb_spec k (subscription_key c s)) as [->|Hne].
      * by rewrite assoc_Map_delete_eq.
      * rewrite assoc_Map_delete_ne by done. by rewrite Hbare.
    + cbn [Map_get]. by rewrite H3.
Qed.

Lemma stale_closure_removes_newer_subscription_witness :
  (subscribe Ch_orderbook (Some "BTC-USDT") (quiet_handler 1) open_world
     = (Normal btc_closure, subscribed_world)
   /\ subscription_key Ch_orderbook (Some "BTC-USDT")
      = subscription_key Ch_orderbook (Some "BTC-USDT"))
  /\ Map_get (subscriptions (this
       (exec (unsubscribe btc_closure)
          (exec (subscribe Ch_orderbook (Some "BTC-USDT") (quiet_handler 2))
             (exec (unsubscribe btc_closure) subscribed_world)))))
       (JStr "orderbook:BTC-USDT") = None.
Proof.
  split; [split; vm_compute; reflexivity|].
  destruct (stale_closure_removes_newer_subscription open_world subscribed_world
              Ch_orderbook (Some "BTC-USDT") (quiet_handler 1) btc_closure
              ltac:(vm_compute; reflexivity)
              (exec (unsubscribe btc_closure) subscribed_world)
              Ch_orderbook (Some "BTC-USDT") (quiet_handler 2) eq_refl)
    as (_ & _ & H & _).
  exact H.
Defined.

(** ** Reconnection *)

Lemma scheduleReconnect_below_cap (w : World) :
  (Z.of_nat (reconnectAttempts (this w)) < maxReconnectAttempts (options (this w)))%Z ->
  scheduleReconnect w =
    (Normal tt,
     let id := next_timer (rt w) in
     let delay := backoff_delay (pow_approx (rt w))
                    (reconnectInterval (options (this w)))
                    (S (reconnectAttempts (this w))) in
     {| this := with_reconnectTimeout (Some id)
                  (with_reconnectAttempts (S (reconnectAttempts (this w))) (this w));
        rt := with_log (log (rt w) ++ [SetTimeout id delay])
                (with_next_timer (Pos.succ id)
                   (with_timeouts (timeouts (rt w) ++ [(id, delay)]) (rt w))) |}).
Proof.
  intros Hlt. unfold scheduleReconnect, bind at 1, get_this.
  destruct (Z.leb_spec (maxReconnectAttempts (options (this w)))
              (Z.of_nat (reconnectAttempts (this w)))); [lia|].
  reflexivity.
Qed.

Lemma scheduleReconnect_at_cap (w : World) :
  (maxReconnectAttempts (options (this w)) <= Z.of_nat (reconnectAttempts (this w)))%Z ->
  scheduleReconnect w = call_errorHandler (new_Error "Max reconnection attempts reached") w.
Proof.
  intros Hle. unfold scheduleReconnect, bind at 1, get_this.
  destruct (Z.leb_spec (maxReconnectAttempts (options (this w)))
              (Z.of_nat (reconnectAttempts (this w)))); [reflexivity|lia].
Qed.

Lemma scheduled_app (l1 l2 : list Effect) :
  scheduled (l1 ++ l2) = scheduled l1 ++ scheduled l2.
Proof. apply omap_app. Qed.

Lemma error_calls_app (l1 l2 : list Effect) :
  error_calls (l1 ++ l2) = error_calls l1 ++ error_calls l2.
Proof. apply omap_app. Qed.

(** *** Numbers *)

(** Multiplying a double by 1 gives the double back (NaN, the
    infinities and the zeros included). *)
Lemma SF64mul_1_r (x : spec_float) :
  valid_binary x = true -> SF64mul x (Prim2SF 1%float) = x.
Proof.
  change (Prim2SF 1%float) with (S754_finite false 4503599627370496 (-52)).
  destruct x as [s|s| |s m e]; cbn [SF64mul SFmul]; intros Hv.
  - by destruct s.
  - by destruct s.
  - done.
  - unfold SpecFloat.valid_binary, bounded, canonical_mantissa in Hv.
    apply andb_true_iff in Hv as [Hc Hb].
    apply Z.eqb_eq in Hc.
    rewrite Pos.mul_comm, xorb_false_r.
    assert (Hm : (4503599627370496 * m)%positive = Nat.iter 52 xO m) by (cbv; reflexivity).
    rewrite Hm.
    unfold binary_round_aux, shr_fexp.
    assert (Hd : Zdigits2 (Z.pos (Nat.iter 52 xO m)) = (Z.pos (digits2_pos m) + 52)%Z)
      by (cbn; lia).
    rewrite Hd.
    replace (fexp prec emax (Z.pos (digits2_pos m) + 52 + (e + -52)) - (e + -52))%Z
      with 52%Z by (replace (Z.pos (digits2_pos m) + 52 + (e + -52))%Z
                      with (Z.pos (digits2_pos m) + e)%Z by lia; rewrite Hc; lia).
    cbn [shr shr_record_of_loc].
    change (SpecFloat.iter_pos shr_1 52
              {| shr_m := Z.pos (Nat.iter 52 xO m); shr_r := false; shr_s := false |})
      with {| shr_m := Z.pos m; shr_r := false; shr_s := false |}.
    cbn [shr_m loc_of_shr_record round_nearest_even shr_r shr_s shr_record_of_loc Zdigits2].
    replace (e + -52 + 52)%Z with e by lia.
    rewrite Hc, Z.sub_diag. cbn [shr shr_m]. by rewrite Hb.
Qed.

Lemma Number_mul_1_r (x : float) : (x * 1)%float = x.
Proof. apply Prim2SF_inj. rewrite mul_spec. apply SF64mul_1_r, Prim2SF_valid. Qed.

(** The first attempt waits exactly the base interval, whatever the
    engine's [Math.pow]: the exponent is zero. *)
Lemma backoff_delay_first (approx : float -> float -> float) (base : float) :
  backoff_delay approx base 1 = base.
Proof.
  unfold backoff_delay, Math_pow.
  replace ((Number_of_nat 1 - 1 =? 0)%float) with true by (vm_compute; reflexivity).
  apply Number_mul_1_r.
Qed.

Lemma call_errorHandler_rt (e : JsError) (w : World) :
  rt (exec (call_errorHandler e) w) =
    with_log (log (rt (exec (call_errorHandler e) w))) (rt w).
Proof.
  unfold exec, call_errorHandler, bind, get_this, emit, update_rt. cbn.
  destruct (errorHandler (this w)) as [h|]; cbn; [|by destruct (rt w)].
  by destruct (error_handler_run h e).
Qed.




(** The products round as doubles do: an interval of 0.1 gives
    0.15000000000000002 for the second attempt; and for the default
    interval the first ten delays are exact and strictly increasing. *)
Lemma backoff_delay_in_doubles :
  backoff_delay sample_pow 0x1.999999999999ap-4 2 = 0x1.3333333333334p-3%float
  /\ map (backoff_delay sample_pow 5000) (seq 1 10) =
       [5000; 7500; 11250; 16875; 25312.5; 37968.75; 56953.125; 85429.6875;
        128144.53125; 192216.796875]%float.
Proof. split; vm_compute; reflexivity. Qed.

(** ** Frame rules *)

Section Frame.
Variable R : World -> World -> Prop.
Hypothesis R_refl : forall w, R w w.
Hypothesis R_trans : forall a b c, R a b -> R b c -> R a c.

Lemma respects_ret {A : Type} (a : A) : respects R (ret a).
Proof. intros w. apply R_refl. Qed.

Lemma respects_throw {A : Type} (t : Thrown) : respects R (@throw A t).
Proof. intros w. apply R_refl. Qed.

Lemma respects_lift {A : Type} (c : Completion A) : respects R (lift c).
Proof. intros w. apply R_refl. Qed.

Lemma respects_get_this : respects R get_this.
Proof. intros w. apply R_refl. Qed.

Lemma respects_get_rt : respects R get_rt.
Proof. intros w. apply R_refl. Qed.

Lemma respects_ws_open : respects R ws_open.
Proof. intros w. apply R_refl. Qed.

Lemma respects_bind {A B : Type} (m : M A) (k : A -> M B) :
  respects R m -> (forall a, respects R (k a)) -> respects R (bind m k).
Proof.
  intros Hm Hk w. unfold bind. specialize (Hm w).
  destruct (m w) as [[a|t] w1]; cbn in *; [|exact Hm].
  eapply R_trans; [exact Hm|apply Hk].
Qed.

Lemma respects_try_catch {A : Type} (m : M A) (k : Thrown -> M A) :
  respects R m -> (forall t, respects R (k t)) -> respects R (try_catch m k).
Proof.
  intros Hm Hk w. unfold try_catch. specialize (Hm w).
  destruct (m w) as [[a|t] w1]; cbn in *; [exact Hm|].
  eapply R_trans; [exact Hm|apply Hk].
Qed.

Lemma respects_for_each {A : Type} (f : A -> M unit) (l : list A) :
  (forall a, respects R (f a)) -> respects R (for_each f l).
Proof.
  intros Hf. induction l as [|x l IH]; cbn [for_each].
  - apply respects_ret.
  - apply respects_bind; [apply Hf|intros _; exact IH].
Qed.

Lemma respects_step (e : Event) :
  respects R (dispatch e) -> (forall t, respects R (emit (Uncaught t))) ->
  forall w, R w (step e w).
Proof.
  intros Hd He w. unfold step. specialize (Hd w).
  destruct (dispatch e w) as [[a|t] w1]; cbn in *; [exact Hd|].
  eapply R_trans; [exact Hd|apply He].
Qed.

Lemma respects_run_events (es : list Event) :
  (forall e w, R w (step e w)) -> forall w, R w (run_events es w).
Proof.
  intros Hs. unfold run_events. induction es as [|e es IH]; intros w; cbn.
  - apply R_refl.
  - eapply R_trans; [apply Hs|apply IH].
Qed.

End Frame.

(** Reduce a frame goal to its atoms: field updates and log entries. *)
Ltac frame_rules Hrefl Htrans :=
  repeat first
    [ apply (respects_bind _ Htrans); [|intros ?]
    | apply (respects_try_catch _ Htrans); [|intros ?]
    | apply (respects_for_each _ Hrefl Htrans); intros ?
    | apply (respects_ret _ Hrefl)
    | apply (respects_throw _ Hrefl)
    | apply (respects_lift _ Hrefl)
    | apply (respects_get_this _ Hrefl)
    | apply (respects_get_rt _ Hrefl)
    | apply (respects_ws_open _ Hrefl)
    | match goal with
      | |- respects _ (match ?x with _ => _ end) => destruct x
      | |- respects _ (let _ := _ in _) => cbv zeta
      end ].

Ltac unfold_methods :=
  unfold connect, disconnect, onError, subscribe, unsubscribe, onopen, onclose, onerror,
    onmessage, handleMessage, routing_key, reconnect_callback, reconnect_catch,
    ping_callback, rejection_reaction, resubscribeAll, startPingInterval,
    stopPingInterval, sendSubscribe, sendUnsubscribe, send, ws_send, ws_close, settle,
    new_WebSocket, setTimeout, setInterval, clearTimeout, clearInterval, call_handler,
    call_errorHandler, update_socket.

Lemma no_new_timer_refl (w : World) : no_new_timer w w.
Proof. reflexivity. Qed.

Lemma no_new_timer_trans (a b c : World) :
  no_new_timer a b -> no_new_timer b c -> no_new_timer a c.
Proof. unfold no_new_timer. congruence. Qed.

Lemma reconnect_stays_off_refl (w : World) : reconnect_stays_off w w.
Proof. intros H. exact H. Qed.

Lemma reconnect_stays_off_trans (a b c : World) :
  reconnect_stays_off a b -> reconnect_stays_off b c -> reconnect_stays_off a c.
Proof. unfold reconnect_stays_off. auto. Qed.

Ltac frame_atoms :=
  intros ?w; unfold update_this, update_rt, emit, update_rt; cbn;
  try match goal with
      | |- context [match ?x with _ => _ end] => destruct x; cbn
      end.

Lemma scheduleReconnect_keeps_reconnect_off : respects reconnect_stays_off scheduleReconnect.
Proof.
  unfold scheduleReconnect. unfold_methods.
  frame_rules reconnect_stays_off_refl reconnect_stays_off_trans;
    frame_atoms; unfold reconnect_stays_off; cbn; auto.
Qed.

Lemma dispatch_keeps_reconnect_off (e : Event) : respects reconnect_stays_off (dispatch e).
Proof.
  pose proof scheduleReconnect_keeps_reconnect_off as Hs.
  destruct e; unfold dispatch; unfold_methods;
    frame_rules reconnect_stays_off_refl reconnect_stays_off_trans;
    try exact Hs;
    frame_atoms; unfold reconnect_stays_off; cbn; auto.
Qed.

Ltac break_matches :=
  repeat match goal with
         | |- context [match ?x with _ => _ end] => destruct x eqn:?; cbn
         end.

(** *** Computations that cannot throw *)

Lemma returns_ret {A : Type} (a : A) : returns (ret a).
Proof. intros w. by exists a. Qed.

Lemma returns_bind {A B : Type} (m : M A) (k : A -> M B) :
  returns m -> (forall a, returns (k a)) -> returns (bind m k).
Proof.
  intros Hm Hk w. unfold bind. destruct (Hm w) as [a Ha].
  destruct (m w) as [c w1]. cbn in Ha. subst c. apply Hk.
Qed.

Lemma returns_get_this : returns get_this.
Proof. intros w. by eexists. Qed.

Lemma returns_get_rt : returns get_rt.
Proof. intros w. by eexists. Qed.

Lemma returns_ws_open : returns ws_open.
Proof. intros w. by eexists. Qed.

Lemma returns_update_this (f : KlingExWebSocket -> KlingExWebSocket) :
  returns (update_this f).
Proof. intros w. by exists tt. Qed.

Lemma returns_update_rt (f : Runtime -> Runtime) : returns (update_rt f).
Proof. intros w. by exists tt. Qed.

Lemma returns_emit (e : Effect) : returns (emit e).
Proof. intros w. by exists tt. Qed.

Lemma returns_for_each {A : Type} (f : A -> M unit) (l : list A) :
  (forall a, returns (f a)) -> returns (for_each f l).
Proof.
  intros Hf. induction l as [|x l IH]; cbn [for_each].
  - apply returns_ret.
  - apply returns_bind; [apply Hf|intros _; exact IH].
Qed.

Ltac returns_rules :=
  repeat first
    [ apply returns_bind; [|intros ?]
    | apply returns_for_each; intros ?
    | apply returns_ret
    | apply returns_get_this
    | apply returns_get_rt
    | apply returns_ws_open
    | apply returns_update_this
    | apply returns_update_rt
    | apply returns_emit
    | match goal with
      | |- returns (match ?x with _ => _ end) => destruct x
      | |- returns (let _ := _ in _) => cbv zeta
      end ].

Lemma disconnect_cannot_throw : returns disconnect.
Proof. unfold disconnect. unfold_methods. returns_rules. Qed.

Lemma disconnect_returns (w : World) : completion disconnect w = Normal tt.
Proof. destruct (disconnect_cannot_throw w) as [[] H]. exact H. Qed.

Lemma disconnect_turns_reconnect_off (w : World) :
  reconnect (options (this (exec disconnect w))) = false.
Proof.
  unfold exec, disconnect. unfold bind at 1. cbn [update_this].
  match goal with
  | |- context [snd (?m ?w1)] =>
      assert (H : respects reconnect_stays_off m); [|exact (H w1 eq_refl)]
  end.
  unfold_methods.
  frame_rules reconnect_stays_off_refl reconnect_stays_off_trans;
    frame_atoms; unfold reconnect_stays_off; cbn; auto.
Qed.

Lemma step_disconnect (w : World) : step Call_disconnect w = exec disconnect w.
Proof.
  unfold step, exec. cbn [dispatch]. pose proof (disconnect_returns w) as H.
  unfold completion in H. destruct (disconnect w) as [[[]|t] w1]; cbn in *; [done|discriminate].
Qed.

Lemma step_keeps_reconnect_off (e : Event) (w : World) : reconnect_stays_off w (step e w).
Proof.
  apply (respects_step _ reconnect_stays_off_trans).
  - apply dispatch_keeps_reconnect_off.
  - intros t w0 H. exact H.
Qed.

Lemma run_events_keeps_reconnect_off (es : list Event) (w : World) :
  reconnect_stays_off w (run_events es w).
Proof.
  apply (respects_run_events _ reconnect_stays_off_refl reconnect_stays_off_trans).
  intros e w0. apply step_keeps_reconnect_off.
Qed.

(** What [onclose] does when it does not reconnect. *)
Lemma onclose_quiet (wasClean : bool) (w : World) :
  reconnect (options (this w)) && negb wasClean = false ->
  onclose wasClean w =
    (Normal tt,
     match pingInterval (this w) with
     | Some id =>
         {| this := with_pingInterval None (with_isConnecting false (this w));
            rt := with_log (log (rt w) ++ [ClearInterval id])
                    (with_intervals
                       (filter (fun t => negb (Pos.eqb t id)) (intervals (rt w))) (rt w)) |}
     | None => {| this := with_isConnecting false (this w); rt := rt w |}
     end).
Proof.
  intros H. unfold onclose, stopPingInterval, clearInterval.
  unfold bind, update_this, update_rt, emit, update_rt, get_this, get_rt, ret. cbn.
  destruct (pingInterval (this w)); cbn; rewrite H; reflexivity.
Qed.

Lemma update_socket_spec (sock : nat) (f : Socket -> Socket) (w : World) :
  update_socket sock f w =
    (Normal tt,
     {| this := this w;
        rt := match sockets (rt w) !! sock with
              | Some s => with_sockets (<[sock := f s]> (sockets (rt w))) (rt w)
              | None => rt w
              end |}).
Proof. reflexivity. Qed.

Lemma step_close_quiet_eq (sock : nat) (wasClean : bool) (w : World) :
  reconnect (options (this w)) && negb wasClean = false ->
  step (Ev_close sock wasClean) w =
    snd (onclose wasClean
           (exec (update_socket sock
                    (fun s => with_closeFired true (with_readyState CLOSED s))) w))
  /\ fst (onclose wasClean
           (exec (update_socket sock
                    (fun s => with_closeFired true (with_readyState CLOSED s))) w))
     = Normal tt.
Proof.
  intros H. unfold step, exec. cbn [dispatch]. unfold bind.
  rewrite update_socket_spec. cbn [snd]. rewrite onclose_quiet by exact H. done.
Qed.

Lemma step_close_quiet (sock : nat) (wasClean : bool) (w : World) :
  reconnect (options (this w)) && negb wasClean = false ->
  let w' := step (Ev_close sock wasClean) w in
  scheduled (log (rt w')) = scheduled (log (rt w))
  /\ timeouts (rt w') = timeouts (rt w)
  /\ reconnectAttempts (this w') = reconnectAttempts (this w)
  /\ reconnectTimeout (this w') = reconnectTimeout (this w).
Proof.
  intros H w'. unfold w'. destruct (step_close_quiet_eq sock wasClean w H) as [-> _].
  unfold exec. rewrite update_socket_spec. cbn [snd].
  rewrite onclose_quiet by exact H. cbn.
  destruct (pingInterval (this w)); destruct (sockets (rt w) !! sock); cbn;
    rewrite ?scheduled_app, ?app_nil_r; done.
Qed.

Lemma dispatch_no_new_timer (e : Event) :
  not_close e = true -> respects no_new_timer (dispatch e).
Proof.
  destruct e; try discriminate; intros _; unfold dispatch; unfold_methods;
    frame_rules no_new_timer_refl no_new_timer_trans;
    frame_atoms; unfold no_new_timer; cbn; rewrite ?scheduled_app, ?app_nil_r; done.
Qed.

(** Only a non-clean closure, with reconnection enabled, arms a
    reconnect timer. *)
Lemma step_no_new_timer (e : Event) (w : World) :
  match e with
  | Ev_close _ wasClean => reconnect (options (this w)) && negb wasClean = false
  | _ => True
  end ->
  scheduled (log (rt (step e w))) = scheduled (log (rt w)).
Proof.
  intros H. destruct (not_close e) eqn:E.
  - apply (respects_step no_new_timer no_new_timer_trans e).
    + by apply dispatch_no_new_timer.
    + intros t w0. unfold no_new_timer, emit, update_rt. cbn.
      by rewrite scheduled_app, app_nil_r.
  - destruct e; try discriminate. by apply step_close_quiet.
Qed.

Lemma run_events_no_new_timer (es : list Event) (w : World) :
  reconnect (options (this w)) = false ->
  scheduled (log (rt (run_events es w))) = scheduled (log (rt w)).
Proof.
  revert w. unfold run_events. induction es as [|e es IH]; intros w Hoff; cbn; [done|].
  rewrite IH by (by apply step_keeps_reconnect_off).
  apply step_no_new_timer. destruct e; try done. by rewrite Hoff.
Qed.

(** C4.  After [disconnect()], whatever happens next, a closure event of
    any socket, clean or not, arms no reconnect timer and leaves the
    pending timers and the attempt counter as they are; indeed no later
    turn of the loop arms one.  And in any state at all, a clean closure
    arms no reconnect timer. *)
Theorem no_reconnect_after_disconnect :
  forall (w : World) (es : list Event) (sock : nat) (wasClean : bool),
    let disconnected := step Call_disconnect w in
    let later := run_events es disconnected in
    let closed := step (Ev_close sock wasClean) later in
    (scheduled (log (rt closed)) = scheduled (log (rt later))
     /\ timeouts (rt closed) = timeouts (rt later)
     /\ reconnectAttempts (this closed) = reconnectAttempts (this later))
    /\ scheduled (log (rt later)) = scheduled (log (rt disconnected))
    /\ (scheduled (log (rt (step (Ev_close sock true) w))) = scheduled (log (rt w))
        /\ timeouts (rt (step (Ev_close sock true) w)) = timeouts (rt w)).
Proof.
  intros w es sock wasClean disconnected later closed.
  assert (Hoff : reconnect (options (this disconnected)) = false).
  { unfold disconnected. rewrite step_disconnect. apply disconnect_turns_reconnect_off. }
  assert (Hlater : reconnect (options (this later)) = false).
  { by apply (run_events_keeps_reconnect_off es disconnected). }
  split; [|split].
  - destruct (step_close_quiet sock wasClean later) as (H1 & H2 & H3 & _).
    + by rewrite Hlater.
    + done.
  - by apply run_events_no_new_timer.
  - destruct (step_close_quiet sock true w) as (H1 & H2 & _).
    + apply andb_false_r.
    + done.
Qed.

(** C8.  [disconnect()] sets the stored [reconnect] option to [false],
    and nothing sets it again: it is [false] after any further sequence
    of calls and events, a manual [connect()] and its open event
    included; so a later non-clean closure arms no reconnect timer. *)
Theorem disconnect_disables_reconnect_for_good :
  forall (w : World) (es : list Event) (sock sock' : nat),
    let disconnected := step Call_disconnect w in
    let later := run_events es disconnected in
    let reconnected := run_events [Call_connect; Ev_open sock'] later in
    reconnect (options (this disconnected)) = false
    /\ reconnect (options (this later)) = false
    /\ reconnect (options (this reconnected)) = false
    /\ scheduled (log (rt (step (Ev_close sock false) later))) = scheduled (log (rt later))
    /\ scheduled (log (rt (step (Ev_close sock false) reconnected)))
       = scheduled (log (rt reconnected))
    /\ timeouts (rt (step (Ev_close sock false) reconnected)) = timeouts (rt reconnected).
Proof.
  intros w es sock sock' disconnected later reconnected.
  assert (Hoff : reconnect (options (this disconnected)) = false).
  { unfold disconnected. rewrite step_disconnect. apply disconnect_turns_reconnect_off. }
  assert (Hlater : reconnect (options (this later)) = false).
  { by apply (run_events_keeps_reconnect_off es disconnected). }
  assert (Hre : reconnect (options (this reconnected)) = false).
  { by apply (run_events_keeps_reconnect_off _ later). }
  split; [done|]. split; [done|]. split; [done|].
  split; [apply step_no_new_timer; by rewrite Hlater|].
  destruct (step_close_quiet sock false reconnected) as (H1 & H2 & _).
  - by rewrite Hre.
  - done.
Qed.

(** ** Replay on open *)

Lemma with_log_same (r : Runtime) : with_log (log r) r = r.
Proof. by destruct r. Qed.

Lemma world_eta (w : World) : {| this := this w; rt := rt w |} = w.
Proof. by destruct w. Qed.

Lemma for_each_sendSubscribe_open (subs : list (string * Subscription)) (sock : nat)
    (w : World) :
  open_handle w = Some sock ->
  for_each (fun entry => sendSubscribe (channel (snd entry)) (symbol (snd entry))) subs w =
    (Normal tt,
     {| this := this w; rt := with_log (log (rt w) ++ replay sock subs) (rt w) |}).
Proof.
  revert w. induction subs as [|[k sub] subs IH]; intros w Hopen; cbn [for_each replay map].
  - unfold ret. by rewrite app_nil_r, with_log_same, world_eta.
  - unfold bind at 1. unfold sendSubscribe, send, bind, ws_open, ws_send, emit, update_rt.
    rewrite Hopen. cbn [snd fst]. rewrite IH by exact Hopen. cbn.
    by rewrite <- app_assoc.
Qed.

Lemma for_each_sendSubscribe_closed (subs : list (string * Subscription)) (w : World) :
  open_handle w = None ->
  for_each (fun entry => sendSubscribe (channel (snd entry)) (symbol (snd entry))) subs w =
    (Normal tt, w).
Proof.
  intros Hclosed. induction subs as [|[k sub] subs IH]; cbn [for_each]; [done|].
  unfold bind at 1. unfold sendSubscribe, send, bind, ws_open. rewrite Hclosed. exact IH.
Qed.

Lemma resubscribeAll_open (sock : nat) (w : World) :
  open_handle w = Some sock ->
  resubscribeAll w =
    (Normal tt,
     {| this := this w;
        rt := with_log (log (rt w) ++ replay sock (subscriptions (this w))) (rt w) |}).
Proof.
  intros Hopen. unfold resubscribeAll, bind, get_this.
  by apply for_each_sendSubscribe_open.
Qed.

Lemma resubscribeAll_closed (w : World) :
  open_handle w = None -> resubscribeAll w = (Normal tt, w).
Proof.
  intros Hclosed. unfold resubscribeAll, bind, get_this.
  by apply for_each_sendSubscribe_closed.
Qed.

(** The open event of the client's current socket. *)
Lemma step_open_current (w : World) (sock : nat) (s : Socket) :
  ws (this w) = Some sock ->
  sockets (rt w) !! sock = Some s ->
  step (Ev_open sock) w =
    {| this := with_pingInterval (Some (next_timer (rt w)))
                 (with_reconnectAttempts 0 (with_isConnecting false (this w)));
       rt :=
         let opened := with_readyState OPEN s in
         let settled := match promise s with
                        | Pending => with_promise Resolved opened
                        | _ => opened
                        end in
         {| sockets := <[sock := settled]> (sockets (rt w));
            timeouts := timeouts (rt w);
            intervals := intervals (rt w) ++ [next_timer (rt w)];
            next_timer := Pos.succ (next_timer (rt w));
            url_rejected := url_rejected (rt w);
            pow_approx := pow_approx (rt w);
            log := log (rt w) ++ [SetInterval (next_timer (rt w)) 30000] ++
                     replay sock (subscriptions (this w)) ++
                     match promise s with
                     | Pending => [Settle sock Resolved]
                     | _ => []
                     end |} |}.
Proof.
  intros Hws Hs.
  assert (Hlt : sock < length (sockets (rt w))) by (eapply lookup_lt_Some; eauto).
  unfold step. cbn [dispatch]. unfold bind at 1. rewrite update_socket_spec, Hs.
  unfold onopen. unfold bind at 1. cbn [update_this snd fst].
  unfold bind at 1. cbn [update_this snd fst].
  unfold bind at 1. unfold startPingInterval, setInterval.
  unfold bind at 1 2 3 4, get_rt, update_rt, emit, update_rt, ret, update_this.
  cbn [snd fst this rt].
  unfold bind at 1. rewrite (resubscribeAll_open sock).
  2:{ unfold open_handle, socket_state. cbn. rewrite Hws.
      by rewrite list_lookup_insert_eq. }
  cbn [snd fst this rt]. unfold settle, bind, get_rt, update_socket, update_rt, emit,
    update_rt, ret. cbn.
  rewrite list_lookup_insert_eq by done. cbn.
  destruct (promise s) eqn:Hp; cbn; rewrite ?list_lookup_insert_eq by done; cbn;
    rewrite ?list_insert_insert_eq, <- ?app_assoc, ?app_nil_r; try done.
Qed.

Lemma stopPingInterval_spec (w : World) :
  stopPingInterval w =
    (Normal tt,
     match pingInterval (this w) with
     | Some id =>
         {| this := with_pingInterval None (this w);
            rt := with_log (log (rt w) ++ [ClearInterval id])
                    (with_intervals
                       (filter (fun t => negb (Pos.eqb t id)) (intervals (rt w))) (rt w)) |}
     | None => w
     end).
Proof.
  unfold stopPingInterval, clearInterval, bind, get_this, update_rt, emit, update_rt,
    update_this, ret. by destruct (pingInterval (this w)).
Qed.

(** A non-clean closure below the cap: the socket is marked closed, the
    ping timer is stopped and a reconnect is scheduled. *)
Lemma step_close_reconnects (w : World) (sock : nat) :
  reconnect (options (this w)) = true ->
  (Z.of_nat (reconnectAttempts (this w)) < maxReconnectAttempts (options (this w)))%Z ->
  step (Ev_close sock false) w =
    exec scheduleReconnect
      (exec stopPingInterval
         (exec (update_this (with_isConnecting false))
            (exec (update_socket sock
                     (fun s => with_closeFired true (with_readyState CLOSED s))) w))).
Proof.
  intros Hre Hlt. unfold step, exec. cbn [dispatch]. unfold bind at 1.
  rewrite update_socket_spec. cbn [snd fst]. unfold onclose.
  unfold bind at 1. cbn [update_this snd fst].
  unfold bind at 1. rewrite stopPingInterval_spec. cbn [snd fst].
  unfold bind at 1. cbn [get_this snd fst].
  match goal with
  | |- context [scheduleReconnect ?x] => set (wb := x)
  end.
  assert (Hopt : options (this wb) = options (this w))
    by (unfold wb; by destruct (pingInterval _)).
  assert (Hatt : reconnectAttempts (this wb) = reconnectAttempts (this w))
    by (unfold wb; by destruct (pingInterval _)).
  rewrite Hopt, Hre. cbn [negb andb].
  rewrite (scheduleReconnect_below_cap wb) by (by rewrite Hopt, Hatt). done.
Qed.

(** [connect()] when the client is neither open nor connecting and the
    URL is accepted: a socket is created and becomes the current one. *)
Lemma connect_creates (who : Awaiter) (w : World) :
  open_handle w = None ->
  isConnecting (this w) = false ->
  url_rejected (rt w) (url (this w)) = None ->
  connect who w =
    (Normal (AwaitingSocket (length (sockets (rt w)))),
     {| this := with_ws (Some (length (sockets (rt w))))
                  (with_isConnecting true (this w));
        rt := with_log (log (rt w) ++ [NewWebSocket (length (sockets (rt w)))])
                (with_sockets
                   (sockets (rt w) ++
                      [{| readyState := CONNECTING; socket_url := url (this w);
                          socket_auth := auth_param (this w); closeFired := false;
                          awaiter := who; promise := Pending |}]) (rt w)) |}).
Proof.
  intros Hopen Hconn Hurl. unfold connect. unfold bind at 1, ws_open. cbn [fst snd].
  revert Hopen. destruct (open_handle w); intros Hopen; [discriminate|].
  unfold bind at 1. cbn [get_this snd fst]. rewrite Hconn. cbn [bool_decide orb].
  unfold bind, update_this, try_catch, new_WebSocket, bind, get_rt, update_rt, emit,
    update_rt, ret, throw. cbn. rewrite Hurl. cbn. done.
Qed.

(** [connect()] when a constructor rejects the URL: the promise is
    rejected with what was thrown and the connecting flag is cleared. *)
Lemma connect_rejected (who : Awaiter) (w : World) (t : Thrown) :
  open_handle w = None ->
  isConnecting (this w) = false ->
  url_rejected (rt w) (url (this w)) = Some t ->
  connect who w = (Normal (ConstructorThrew t), w).
Proof.
  intros Hopen Hconn Hurl. unfold connect. unfold bind at 1, ws_open. cbn [fst snd].
  revert Hopen. destruct (open_handle w); intros Hopen; [discriminate|].
  unfold bind at 1. cbn [get_this snd fst]. rewrite Hconn. cbn [bool_decide orb].
  unfold bind, update_this, try_catch, new_WebSocket, bind, get_rt, update_rt, emit,
    update_rt, ret, throw. cbn. rewrite Hurl. cbn.
  destruct w as [t0 r]. cbn in *. rewrite <- Hconn. by destruct t0.
Qed.

(** The guard of [connect()]. *)
Lemma connect_guard (who : Awaiter) (w : World) :
  is_Some (open_handle w) \/ isConnecting (this w) = true ->
  connect who w = (Normal ReturnedAtOnce, w).
Proof.
  intros H. unfold connect. unfold bind at 1, ws_open. cbn [fst snd].
  unfold bind at 1. cbn [get_this snd fst].
  destruct (open_handle w) as [sock|]; cbn; [done|].
  destruct H as [[x Hx]|Hc]; [discriminate Hx|]. by rewrite Hc.
Qed.

(** The reconnect timer fires while the client is neither open nor
    connecting, and the URL is accepted: a new socket is created. *)
Lemma step_timeout_connects (w : World) (id : positive) :
  open_handle w = None ->
  isConnecting (this w) = false ->
  url_rejected (rt w) (url (this w)) = None ->
  step (Ev_timeout id) w =
    {| this := with_ws (Some (length (sockets (rt w))))
                 (with_isConnecting true (this w));
       rt := {| sockets := sockets (rt w) ++
                  [{| readyState := CONNECTING; socket_url := url (this w);
                      socket_auth := auth_param (this w); closeFired := false;
                      awaiter := ByReconnectTimer; promise := Pending |}];
                timeouts := filter (fun t => negb (Pos.eqb (fst t) id)) (timeouts (rt w));
                intervals := intervals (rt w);
                next_timer := next_timer (rt w);
                url_rejected := url_rejected (rt w);
                pow_approx := pow_approx (rt w);
                log := log (rt w) ++ [NewWebSocket (length (sockets (rt w)))] |} |}.
Proof.
  intros Hopen Hconn Hurl. unfold step. cbn [dispatch]. unfold bind at 1.
  cbn [update_rt snd fst]. unfold reconnect_callback. unfold bind at 1.
  rewrite connect_creates by done. done.
Qed.

Lemma wire_sent_app (l1 l2 : list Effect) :
  wire_sent (l1 ++ l2) = wire_sent l1 ++ wire_sent l2.
Proof. apply omap_app. Qed.

Lemma wire_sent_replay (sock : nat) (subs : list (string * Subscription)) :
  wire_sent (replay sock subs) =
    map (fun entry =>
           (sock, WireAction "subscribe" (channel (snd entry)) (symbol (snd entry)))) subs.
Proof. induction subs as [|[k sub] subs IH]; cbn; [done|]. by f_equal. Qed.

(** The state a non-clean closure of the current socket leaves, below
    the cap. *)
Lemma step_close_reconnects_facts (w : World) (sock : nat) (s : Socket) :
  ws (this w) = Some sock ->
  sockets (rt w) !! sock = Some s ->
  reconnect (options (this w)) = true ->
  (Z.of_nat (reconnectAttempts (this w)) < maxReconnectAttempts (options (this w)))%Z ->
  let lost := step (Ev_close sock false) w in
  open_handle lost = None
  /\ isConnecting (this lost) = false
  /\ url (this lost) = url (this w)
  /\ url_rejected (rt lost) = url_rejected (rt w)
  /\ length (sockets (rt lost)) = length (sockets (rt w))
  /\ subscriptions (this lost) = subscriptions (this w)
  /\ next_timer (rt lost) = Pos.succ (next_timer (rt w))
  /\ wire_sent (log (rt lost)) = wire_sent (log (rt w))
  /\ scheduled (log (rt lost)) =
       scheduled (log (rt w)) ++
         [(next_timer (rt w),
           backoff_delay (pow_approx (rt w))
             (reconnectInterval (options (this w)))
             (S (reconnectAttempts (this w))))].
Proof.
  intros Hws Hs Hre Hlt lost. unfold lost.
  rewrite (step_close_reconnects w sock Hre Hlt). unfold exec.
  rewrite update_socket_spec, Hs. cbn [update_this snd fst].
  rewrite stopPingInterval_spec. cbn [snd fst].
  rewrite scheduleReconnect_below_cap
    by (cbn; destruct (pingInterval (this w)); exact Hlt).
  unfold open_handle, socket_state.
  cbn. destruct (pingInterval (this w)); cbn; rewrite Hws, ?list_lookup_insert_eq
    by (eapply lookup_lt_Some; eauto); cbn;
    rewrite ?length_insert, ?wire_sent_app, ?scheduled_app, ?app_nil_r; done.
Qed.

(** C5.  When the client's current socket signals open, every entry of
    the registry is replayed on it as a wire subscribe message, in
    registry order, and nothing else is sent; the attempt counter is
    reset to zero and the registry is unchanged.  A non-clean closure
    leaves the registry as it is, so when the scheduled reconnect fires
    and the new socket opens, the subscriptions registered before the
    loss are replayed on the new socket without any call by the
    application. *)
Theorem open_replays_registry :
  forall (w : World) (sock : nat) (s : Socket),
    ws (this w) = Some sock ->
    sockets (rt w) !! sock = Some s ->
    let subscribe_frames := fun on : nat =>
      map (fun entry =>
             (on, WireAction "subscribe" (channel (snd entry)) (symbol (snd entry))))
          (subscriptions (this w)) in
    let opened := step (Ev_open sock) w in
    log (rt opened) =
      log (rt w) ++ [SetInterval (next_timer (rt w)) 30000] ++
        replay sock (subscriptions (this w)) ++
        match promise s with
        | Pending => [Settle sock Resolved]
        | _ => []
        end
    /\ wire_sent (log (rt opened)) = wire_sent (log (rt w)) ++ subscribe_frames sock
    /\ reconnectAttempts (this opened) = 0
    /\ subscriptions (this opened) = subscriptions (this w)
    /\ (reconnect (options (this w)) = true ->
        (Z.of_nat (reconnectAttempts (this w)) < maxReconnectAttempts (options (this w)))%Z ->
        url_rejected (rt w) (url (this w)) = None ->
        let sock' := length (sockets (rt w)) in
        let lost := step (Ev_close sock false) w in
        let back := run_events [Ev_timeout (next_timer (rt w)); Ev_open sock'] lost in
        subscriptions (this lost) = subscriptions (this w)
        /\ wire_sent (log (rt lost)) = wire_sent (log (rt w))
        /\ wire_sent (log (rt back)) = wire_sent (log (rt w)) ++ subscribe_frames sock'
        /\ ws (this back) = Some sock'
        /\ reconnectAttempts (this back) = 0
        /\ subscriptions (this back) = subscriptions (this w)).
Proof.
  intros w sock s Hws Hs frames opened.
  assert (Hopened := step_open_current w sock s Hws Hs). fold opened in Hopened.
  split; [by rewrite Hopened|].
  split.
  { rewrite Hopened. cbn [rt log]. rewrite !wire_sent_app, wire_sent_replay. cbn.
    destruct (promise s); cbn; by rewrite app_nil_r. }
  split; [by rewrite Hopened|]. split; [by rewrite Hopened|].
  intros Hre Hlt Hurl sock' lost back.
  destruct (step_close_reconnects_facts w sock s Hws Hs Hre Hlt)
    as (Hopen & Hconn & Hu & Hrej & Hlen & Hsubs & _ & Hwire & _).
  fold lost in Hopen, Hconn, Hu, Hrej, Hlen, Hsubs, Hwire.
  split; [exact Hsubs|]. split; [exact Hwire|].
  unfold back, run_events. cbn [fold_left].
  rewrite (step_timeout_connects lost) by (rewrite ?Hu, ?Hrej; done).
  rewrite Hlen. fold sock'.
  match goal with
  | |- context [step (Ev_open sock') ?x] => set (w2 := x)
  end.
  assert (Hnew : sockets (rt w2) !! sock' =
                 Some {| readyState := CONNECTING; socket_url := url (this lost);
                         socket_auth := auth_param (this lost); closeFired := false;
                         awaiter := ByReconnectTimer; promise := Pending |}).
  { unfold w2. cbn. apply list_lookup_middle. by rewrite Hlen. }
  rewrite (step_open_current w2 sock' _ eq_refl Hnew).
  cbn [rt log this promise subscriptions reconnectAttempts ws with_pingInterval
       with_reconnectAttempts with_isConnecting with_ws w2].
  rewrite !wire_sent_app, wire_sent_replay.
  unfold w2. cbn [rt log this subscriptions with_ws with_isConnecting].
  rewrite Hsubs, Hwire.
  change (wire_sent [NewWebSocket sock']) with (@nil (nat * Wire)).
  change (wire_sent [Settle sock' Resolved]) with (@nil (nat * Wire)).
  match goal with
  | |- context [wire_sent [SetInterval ?i ?ms]] =>
      change (wire_sent [SetInterval i ms]) with (@nil (nat * Wire))
  end.
  rewrite !app_nil_r. done.
Qed.

Lemma open_replays_registry_witness :
  (ws (this subscribed_world) = Some 0
   /\ sockets (rt subscribed_world) !! 0 = Some open_socket
   /\ reconnect (options (this subscribed_world)) = true
   /\ (Z.of_nat (reconnectAttempts (this subscribed_world))
       < maxReconnectAttempts (options (this subscribed_world)))%Z
   /\ url_rejected (rt subscribed_world) (url (this subscribed_world)) = None)
  /\ wire_sent (log (rt (run_events [Ev_close 0 false; Ev_timeout 2; Ev_open 1]
                           subscribed_world))) =
       [(0, WireAction "subscribe" Ch_orderbook (Some "BTC-USDT"));
        (1, WireAction "subscribe" Ch_orderbook (Some "BTC-USDT"))].
Proof.
  assert (Hws : ws (this subscribed_world) = Some 0) by (vm_compute; reflexivity).
  assert (Hs : sockets (rt subscribed_world) !! 0 = Some open_socket)
    by (vm_compute; reflexivity).
  assert (Hre : reconnect (options (this subscribed_world)) = true)
    by (vm_compute; reflexivity).
  assert (Hlt : (Z.of_nat (reconnectAttempts (this subscribed_world))
                 < maxReconnectAttempts (options (this subscribed_world)))%Z)
    by (vm_compute; reflexivity).
  assert (Hurl : url_rejected (rt subscribed_world) (url (this subscribed_world)) = None)
    by (vm_compute; reflexivity).
  split; [auto|].
  destruct (open_replays_registry subscribed_world 0 open_socket Hws Hs)
    as (_ & _ & _ & _ & H).
  destruct (H Hre Hlt Hurl) as (_ & _ & Hback & _).
  match type of Hback with
  | ?l = ?r =>
      assert (E : l = [(0, WireAction "subscribe" Ch_orderbook (Some "BTC-USDT"));
                       (1, WireAction "subscribe" Ch_orderbook (Some "BTC-USDT"))])
        by (rewrite Hback; vm_compute; reflexivity)
  end.
  etransitivity; [|exact E]. vm_compute. reflexivity.
Defined.

(** ** Idempotent connect *)

(** C6 fails on the code.  [disconnect()], [connect()], the close event
    of the discarded socket, [connect()]: the second [connect()] runs
    while socket 1 is still connecting, yet the close event of socket 0
    has cleared [isConnecting], so a third socket is constructed and two
    sockets are live at once. *)
Lemma overlapping_connects_two_live_handles :
  feasible overlapping_connects idle_world = true
  /\ (let before := run_events (take 5 overlapping_connects) idle_world in
      ws (this before) = Some 1
      /\ socket_state (rt before) 1 = Some CONNECTING
      /\ isConnecting (this before) = false)
  /\ sockets_created (log (rt (run_events overlapping_connects idle_world))) = [0; 1; 2]
  /\ map readyState (sockets (rt (run_events overlapping_connects idle_world)))
     = [CLOSED; CONNECTING; CONNECTING]
  /\ live_handles (run_events overlapping_connects idle_world) = 2.
Proof. vm_compute. repeat split; reflexivity. Qed.

(** * Further properties of the client *)

(** ** Identity of subscriptions *)

Lemma append_colon_not_name (c c' : WebSocketChannel) (sym : string) :
  channel_name c +:+ ":" +:+ sym <> channel_name c'.
Proof. destruct c, c'; cbn; discriminate. Qed.

Lemma append_colon_inj (c c' : WebSocketChannel) (sym sym' : string) :
  channel_name c +:+ ":" +:+ sym = channel_name c' +:+ ":" +:+ sym' ->
  c = c' /\ sym = sym'.
Proof.
  destruct c, c'; cbn; intros H; try discriminate H;
    injection H as H; cbn in H; by subst.
Qed.

Lemma channel_name_inj (c c' : WebSocketChannel) :
  channel_name c = channel_name c' -> c = c'.
Proof. destruct c, c'; cbn; intros H; try discriminate H; reflexivity. Qed.

(** X1.  Two subscriptions share a registry key only when they are on
    the same channel with the same symbol (an empty symbol counting as
    no symbol): subscriptions on different channels or symbols never
    replace one another. *)
Theorem subscription_key_injective :
  forall (c c' : WebSocketChannel) (s s' : option string),
    subscription_key c s = subscription_key c' s' <->
    c = c' /\ effective_symbol s = effective_symbol s'.
Proof.
  intros c c' s s'. unfold subscription_key, effective_symbol. split.
  - destruct s as [sym|], s' as [sym'|];
      repeat match goal with
             | |- context [String.eqb ?x ""] => destruct (String.eqb_spec x "")
             end; intros H;
      try (apply channel_name_inj in H; by subst);
      try (apply append_colon_inj in H as [-> ->]; done);
      try (by apply append_colon_not_name in H);
      try (symmetry in H; by apply append_colon_not_name in H).
  - intros [-> H]. destruct s as [sym|], s' as [sym'|];
      repeat match goal with
             | H : context [String.eqb ?x ""] |- _ => destruct (String.eqb_spec x "")
             | |- context [String.eqb ?x ""] => destruct (String.eqb_spec x "")
             end; try done; by injection H as ->.
Qed.

(** ** The registry holds one entry per key *)

Lemma Map_set_keys {V : Type} (k : string) (v : V) (m : list (string * V)) :
  (Map_set k v m).*1 = if decide (k ∈ m.*1) then m.*1 else m.*1 ++ [k].
Proof.
  induction m as [|[k0 x] m IH]; cbn; [done|].
  destruct (String.eqb_spec k0 k) as [->|Hne]; cbn.
  - rewrite decide_True by (apply elem_of_cons; by left). done.
  - rewrite IH. destruct (decide (k ∈ m.*1)) as [Hin|Hnin].
    + rewrite decide_True by (apply elem_of_cons; by right). done.
    + rewrite decide_False by (apply not_elem_of_cons; split; congruence). done.
Qed.

Lemma Map_delete_keys_subset {V : Type} (k k' : string) (m : list (string * V)) :
  k' ∈ (Map_delete k m).*1 -> k' ∈ m.*1.
Proof.
  induction m as [|[k0 x] m IH]; cbn; [done|].
  destruct (String.eqb k0 k); cbn; rewrite !elem_of_cons; tauto.
Qed.

Lemma Map_set_NoDup {V : Type} (k : string) (v : V) (m : list (string * V)) :
  NoDup m.*1 -> NoDup (Map_set k v m).*1.
Proof.
  intros H. rewrite Map_set_keys. destruct (decide (k ∈ m.*1)); [done|].
  apply NoDup_app. split; [done|]. split; [|apply NoDup_singleton].
  intros x Hx Hx'. apply list_elem_of_singleton in Hx'. by subst.
Qed.

Lemma Map_delete_NoDup {V : Type} (k : string) (m : list (string * V)) :
  NoDup m.*1 -> NoDup (Map_delete k m).*1.
Proof.
  induction m as [|[k0 x] m IH]; cbn; [done|].
  intros H. apply NoDup_cons in H as [Hnin H].
  destruct (String.eqb k0 k); cbn; [by apply IH|].
  apply NoDup_cons. split; [|by apply IH].
  intros Hin. apply Hnin. by apply Map_delete_keys_subset in Hin.
Qed.

Lemma keys_stay_unique_refl (w : World) : keys_stay_unique w w.
Proof. intros H. exact H. Qed.

Lemma keys_stay_unique_trans (a b c : World) :
  keys_stay_unique a b -> keys_stay_unique b c -> keys_stay_unique a c.
Proof. unfold keys_stay_unique. auto. Qed.

Lemma scheduleReconnect_keeps_keys : respects keys_stay_unique scheduleReconnect.
Proof.
  unfold scheduleReconnect. unfold_methods.
  frame_rules keys_stay_unique_refl keys_stay_unique_trans;
    frame_atoms; unfold keys_stay_unique, registry_keys; cbn; auto.
Qed.

Lemma dispatch_keeps_keys (e : Event) : respects keys_stay_unique (dispatch e).
Proof.
  pose proof scheduleReconnect_keeps_keys as Hs.
  destruct e; unfold dispatch; unfold_methods;
    frame_rules keys_stay_unique_refl keys_stay_unique_trans;
    try exact Hs;
    frame_atoms; unfold keys_stay_unique, registry_keys; cbn;
    auto using Map_set_NoDup, Map_delete_NoDup, NoDup_nil_2.
Qed.

Lemma step_keeps_keys (e : Event) (w : World) : keys_stay_unique w (step e w).
Proof.
  apply (respects_step _ keys_stay_unique_trans).
  - apply dispatch_keeps_keys.
  - intros t w0 H. exact H.
Qed.

(** X2.  [subscribe] is last-write-wins: the entry under the key is the
    new subscription, entries under other keys are untouched, and the
    key is appended to the registry only if it was not there (otherwise
    it keeps its place).  Hence the registry never holds two entries
    with the same key, whatever calls and events follow. *)
Theorem registry_one_entry_per_key :
  forall (w : World) (c : WebSocketChannel) (s : option string) (h : MessageHandler)
         (es : list Event),
    let key := subscription_key c s in
    let w' := exec (subscribe c s h) w in
    Map_get (subscriptions (this w')) (JStr key)
      = Some {| channel := c; symbol := s; handler := h |}
    /\ (forall k, k <> key ->
          Map_get (subscriptions (this w')) (JStr k)
          = Map_get (subscriptions (this w)) (JStr k))
    /\ registry_keys w' =
         (if decide (key ∈ registry_keys w) then registry_keys w
          else registry_keys w ++ [key])
    /\ (NoDup (registry_keys w) -> NoDup (registry_keys (run_events es w))).
Proof.
  intros w c s h es key w'.
  assert (Hsubs : subscriptions (this w') =
                  Map_set key {| channel := c; symbol := s; handler := h |}
                    (subscriptions (this w))).
  { unfold w', exec. by rewrite subscribe_spec. }
  split; [cbn; rewrite Hsubs; apply assoc_Map_set_eq|].
  split; [intros k Hk; cbn; rewrite Hsubs; apply assoc_Map_set_ne; congruence|].
  split; [unfold registry_keys; rewrite Hsubs; apply Map_set_keys|].
  apply (respects_run_events _ keys_stay_unique_refl keys_stay_unique_trans).
  intros e w0. apply step_keeps_keys.
Qed.

Lemma registry_one_entry_per_key_witness :
  NoDup (registry_keys idle_world)
  /\ NoDup (registry_keys
       (run_events [Call_subscribe Ch_ticker (Some "BTC-USDT") (quiet_handler 1);
                    Call_subscribe Ch_ticker (Some "BTC-USDT") (quiet_handler 2)]
          idle_world)).
Proof.
  assert (H : NoDup (registry_keys idle_world)) by apply NoDup_nil_2.
  split; [exact H|].
  destruct (registry_one_entry_per_key idle_world Ch_ticker None (quiet_handler 1)
              [Call_subscribe Ch_ticker (Some "BTC-USDT") (quiet_handler 1);
               Call_subscribe Ch_ticker (Some "BTC-USDT") (quiet_handler 2)])
    as (_ & _ & _ & Hn).
  exact (Hn H).
Defined.

(** ** Subscribing before connecting *)

Lemma step_subscribe (c : WebSocketChannel) (s : option string) (h : MessageHandler)
    (w : World) :
  step (Call_subscribe c s h) w = exec (subscribe c s h) w.
Proof.
  unfold step, exec. cbn [dispatch]. unfold bind. by rewrite subscribe_spec.
Qed.

Lemma step_unsubscribe (u : Unsubscribe) (w : World) :
  step (Call_unsubscribe u) w = exec (unsubscribe u) w.
Proof. unfold step, exec. cbn [dispatch]. by rewrite unsubscribe_spec. Qed.

Lemma subscribe_calls_closed
    (calls : list (WebSocketChannel * option string * MessageHandler)) (w : World) :
  open_handle w = None ->
  run_events (subscribe_calls calls) w =
    {| this := with_subscriptions (registry_after calls (subscriptions (this w))) (this w);
       rt := rt w |}.
Proof.
  revert w. unfold run_events.
  induction calls as [|[[c s] h] calls IH]; intros w Hclosed; cbn [subscribe_calls map fold_left
    registry_after].
  - by rewrite with_subscriptions_same, world_eta.
  - rewrite step_subscribe. unfold exec. rewrite subscribe_spec, Hclosed. cbn [snd].
    fold (subscribe_calls calls). rewrite IH by exact Hclosed. cbn.
    fold (registry_after calls). by destruct (this w).
Qed.

Lemma step_connect_creates (w : World) :
  open_handle w = None ->
  isConnecting (this w) = false ->
  url_rejected (rt w) (url (this w)) = None ->
  step Call_connect w = exec (connect ByCaller) w.
Proof.
  intros Ho Hc Hu. unfold step, exec. cbn [dispatch]. unfold bind.
  by rewrite connect_creates.
Qed.

(** X3.  Subscriptions made while the transport is not open send
    nothing and only fill the registry; when the client then connects
    and the socket opens, exactly one wire subscribe message per registry
    entry is sent on the new socket, in registry order, and nothing
    else. *)
Theorem subscribe_before_connect :
  forall (w : World) (calls : list (WebSocketChannel * option string * MessageHandler)),
    open_handle w = None ->
    isConnecting (this w) = false ->
    url_rejected (rt w) (url (this w)) = None ->
    let registered := run_events (subscribe_calls calls) w in
    let sock := length (sockets (rt w)) in
    let connected := run_events [Call_connect; Ev_open sock] registered in
    subscriptions (this registered) = registry_after calls (subscriptions (this w))
    /\ log (rt registered) = log (rt w)
    /\ wire_sent (log (rt connected)) =
         wire_sent (log (rt w)) ++
           map (fun entry =>
                  (sock, WireAction "subscribe" (channel (snd entry)) (symbol (snd entry))))
               (registry_after calls (subscriptions (this w)))
    /\ open_handle connected = Some sock.
Proof.
  intros w calls Ho Hc Hu registered sock connected.
  assert (Hreg := subscribe_calls_closed calls w Ho). fold registered in Hreg.
  split; [by rewrite Hreg|]. split; [by rewrite Hreg|].
  assert (Ho' : open_handle registered = None) by (rewrite Hreg; exact Ho).
  assert (Hc' : isConnecting (this registered) = false) by (by rewrite Hreg).
  assert (Hu' : url_rejected (rt registered) (url (this registered)) = None)
    by (by rewrite Hreg).
  unfold connected, run_events. cbn [fold_left].
  rewrite (step_connect_creates registered Ho' Hc' Hu'). unfold exec.
  rewrite (connect_creates ByCaller registered Ho' Hc' Hu'). cbn [snd].
  assert (Hlen : length (sockets (rt registered)) = sock) by (by rewrite Hreg).
  rewrite Hlen.
  match goal with
  | |- context [step (Ev_open sock) ?x] => set (w2 := x)
  end.
  assert (Hnew : sockets (rt w2) !! sock =
                 Some {| readyState := CONNECTING; socket_url := url (this registered);
                         socket_auth := auth_param (this registered); closeFired := false;
                         awaiter := ByCaller; promise := Pending |}).
  { unfold w2. cbn. apply list_lookup_middle. by rewrite Hlen. }
  rewrite (step_open_current w2 sock _ eq_refl Hnew). split.
  - cbn [rt log this promise subscriptions with_pingInterval with_reconnectAttempts
         with_isConnecting with_ws w2].
    rewrite !wire_sent_app, wire_sent_replay.
    unfold w2. cbn [rt log this subscriptions with_ws with_isConnecting with_log].
    rewrite wire_sent_app, Hreg. cbn [rt log this subscriptions with_subscriptions].
    change (wire_sent [NewWebSocket sock]) with (@nil (nat * Wire)).
    change (wire_sent [Settle sock Resolved]) with (@nil (nat * Wire)).
    match goal with
    | |- context [wire_sent [SetInterval ?i ?ms]] =>
        change (wire_sent [SetInterval i ms]) with (@nil (nat * Wire))
    end.
    by rewrite !app_nil_r.
  - unfold open_handle, socket_state. cbn.
    rewrite list_lookup_insert_eq; [done|].
    unfold w2. cbn. rewrite length_app. cbn. lia.
Qed.

Lemma subscribe_before_connect_witness :
  (open_handle idle_world = None
   /\ isConnecting (this idle_world) = false
   /\ url_rejected (rt idle_world) (url (this idle_world)) = None)
  /\ wire_sent (log (rt (run_events [Call_connect; Ev_open 0]
                           (run_events (subscribe_calls example_calls) idle_world)))) =
       [(0, WireAction "subscribe" Ch_orderbook (Some "BTC-USDT"));
        (0, WireAction "subscribe" Ch_trades (Some "BTC-USDT"));
        (0, WireAction "subscribe" Ch_ticker (Some "BTC-USDT"));
        (0, WireAction "subscribe" Ch_user_orders None);
        (0, WireAction "subscribe" Ch_user_balances None)].
Proof.
  assert (Ho : open_handle idle_world = None) by (vm_compute; reflexivity).
  assert (Hc : isConnecting (this idle_world) = false) by (vm_compute; reflexivity).
  assert (Hu : url_rejected (rt idle_world) (url (this idle_world)) = None)
    by (vm_compute; reflexivity).
  split; [auto|].
  destruct (subscribe_before_connect idle_world example_calls Ho Hc Hu)
    as (_ & _ & H & _).
  match type of H with
  | ?l = ?r =>
      assert (E : l = [(0, WireAction "subscribe" Ch_orderbook (Some "BTC-USDT"));
                       (0, WireAction "subscribe" Ch_trades (Some "BTC-USDT"));
                       (0, WireAction "subscribe" Ch_ticker (Some "BTC-USDT"));
                       (0, WireAction "subscribe" Ch_user_orders None);
                       (0, WireAction "subscribe" Ch_user_balances None)])
        by (rewrite H; vm_compute; reflexivity)
  end.
  etransitivity; [|exact E]. vm_compute. reflexivity.
Defined.

(** ** Where frames go *)

Lemma sends_on_current_refl (w : World) : sends_on_current w w.
Proof.
  split; [done|]. exists []. split; [by rewrite app_nil_r|].
  intros x Hx. by apply elem_of_nil in Hx.
Qed.

Lemma sends_on_current_trans (a b c : World) :
  sends_on_current a b -> sends_on_current b c -> sends_on_current a c.
Proof.
  intros [Hab (n1 & E1 & H1)] [Hbc (n2 & E2 & H2)]. split; [congruence|].
  exists (n1 ++ n2). split; [by rewrite E2, E1, app_assoc|].
  intros x Hx. apply elem_of_app in Hx as [Hx|Hx]; [by apply H1|].
  rewrite <- Hab. by apply H2.
Qed.

Lemma silent_refl (w : World) : silent w w.
Proof. reflexivity. Qed.

Lemma silent_trans (a b c : World) : silent a b -> silent b c -> silent a c.
Proof. unfold silent. congruence. Qed.

(** A step that changes neither the current open socket nor the frames
    sent. *)
Lemma sends_on_current_quiet (w w' : World) :
  open_handle w' = open_handle w ->
  wire_sent (log (rt w')) = wire_sent (log (rt w)) ->
  sends_on_current w w'.
Proof.
  intros Ho Hw. split; [done|]. exists []. split; [by rewrite app_nil_r|].
  intros x Hx. by apply elem_of_nil in Hx.
Qed.

Lemma send_on_current (data : Wire) : respects sends_on_current (send data).
Proof.
  intros w. unfold send, bind, ws_open, ws_send, emit, update_rt. cbn [fst snd].
  destruct (open_handle w) as [sock|] eqn:E; cbn [fst snd];
    [|apply sends_on_current_refl].
  split; [reflexivity|]. exists [(sock, data)].
  split; [cbn [rt log with_log]; by rewrite wire_sent_app|].
  intros x Hx. apply list_elem_of_singleton in Hx. by subst.
Qed.

Lemma settle_on_current (sock : nat) (p : PromiseState) :
  respects sends_on_current (settle sock p).
Proof.
  intros w. unfold settle, bind, get_rt, update_socket, update_rt, emit, update_rt, ret.
  cbn. destruct (sockets (rt w) !! sock) as [s|] eqn:Hs; cbn;
    [|apply sends_on_current_refl].
  destruct (promise s); cbn; try apply sends_on_current_refl.
  rewrite Hs. cbn. apply sends_on_current_quiet.
  - unfold open_handle, socket_state. cbn. destruct (ws (this w)) as [h|]; [|done].
    destruct (decide (h = sock)) as [->|Hne].
    + rewrite list_lookup_insert_eq by (eapply lookup_lt_Some; eauto). by rewrite Hs.
    + by rewrite list_lookup_insert_ne.
  - cbn. by rewrite wire_sent_app, app_nil_r.
Qed.

Ltac unfold_methods_above_send :=
  unfold subscribe, unsubscribe, onError, onopen, onmessage, handleMessage, routing_key,
    ping_callback, resubscribeAll, startPingInterval, sendSubscribe, sendUnsubscribe,
    setInterval, call_handler, call_errorHandler.

Ltac frame_rules_current :=
  repeat first
    [ apply send_on_current
    | apply settle_on_current
    | apply (respects_bind _ sends_on_current_trans); [|intros ?]
    | apply (respects_try_catch _ sends_on_current_trans); [|intros ?]
    | apply (respects_for_each _ sends_on_current_refl sends_on_current_trans); intros ?
    | apply (respects_ret _ sends_on_current_refl)
    | apply (respects_throw _ sends_on_current_refl)
    | apply (respects_lift _ sends_on_current_refl)
    | apply (respects_get_this _ sends_on_current_refl)
    | apply (respects_get_rt _ sends_on_current_refl)
    | apply (respects_ws_open _ sends_on_current_refl)
    | match goal with
      | |- respects _ (match ?x with _ => _ end) => destruct x
      | |- respects _ (let _ := _ in _) => cbv zeta
      end ].

Ltac current_atoms :=
  intros ?w; unfold update_this, update_rt, emit, update_rt; cbn;
  apply sends_on_current_quiet; cbn; rewrite ?wire_sent_app, ?app_nil_r; done.

Lemma onopen_on_current (sock : nat) : respects sends_on_current (onopen sock).
Proof. unfold_methods_above_send. frame_rules_current; current_atoms. Qed.

Lemma dispatch_on_current (e : Event) :
  match e with
  | Call_onError _ | Call_subscribe _ _ _ | Call_unsubscribe _
  | Ev_message _ _ | Ev_interval _ => True
  | _ => False
  end ->
  respects sends_on_current (dispatch e).
Proof.
  destruct e; intros []; unfold dispatch; unfold_methods_above_send;
    frame_rules_current; current_atoms.
Qed.

Lemma dispatch_silent (e : Event) :
  match e with
  | Call_connect | Call_disconnect | Ev_close _ _ | Ev_error _ | Ev_timeout _ => True
  | _ => False
  end ->
  respects silent (dispatch e).
Proof.
  assert (Hs : respects silent scheduleReconnect).
  { unfold scheduleReconnect. unfold_methods.
    frame_rules silent_refl silent_trans;
      frame_atoms; unfold silent; cbn; rewrite ?wire_sent_app, ?app_nil_r; done. }
  destruct e; intros []; unfold dispatch; unfold_methods;
    frame_rules silent_refl silent_trans; try exact Hs;
    frame_atoms; unfold silent; cbn; rewrite ?wire_sent_app, ?app_nil_r; done.
Qed.

Lemma open_handle_Some (w : World) (sock : nat) :
  open_handle w = Some sock <->
  ws (this w) = Some sock /\ socket_state (rt w) sock = Some OPEN.
Proof.
  unfold open_handle. destruct (ws (this w)) as [h|]; [|split; [done|by intros [? _]]].
  destruct (socket_state (rt w) h) as [[]|] eqn:E; split;
    try (intros [= <-]; done); try (intros [[= ->] H]; congruence).
Qed.

Lemma onopen_cannot_throw (sock : nat) : returns (onopen sock).
Proof. unfold onopen. unfold_methods. returns_rules. Qed.

Lemma step_open (sock : nat) (w : World) :
  step (Ev_open sock) w =
    exec (onopen sock) (exec (update_socket sock (with_readyState OPEN)) w).
Proof.
  unfold step, exec. cbn [dispatch]. unfold bind. rewrite update_socket_spec. cbn [snd].
  match goal with |- context [onopen sock ?x] => destruct (onopen_cannot_throw sock x) as [[] H] end.
  destruct (onopen sock _) as [c w2]. cbn in H. by subst c.
Qed.

(** X4.  Whatever the call or event, every frame it sends goes to the
    socket that is the client's current socket and is open when the
    turn ends: nothing is ever sent on a discarded socket or on one that
    is connecting, closing or closed. *)
Theorem frames_only_on_current_open_socket :
  forall (e : Event) (w : World),
    exists new : list (nat * Wire),
      wire_sent (log (rt (step e w))) = wire_sent (log (rt w)) ++ new
      /\ forall sock m, (sock, m) ∈ new ->
           ws (this (step e w)) = Some sock
           /\ socket_state (rt (step e w)) sock = Some OPEN.
Proof.
  intros e w.
  assert (Hun : forall t, respects sends_on_current (emit (Uncaught t))).
  { intros t w0. unfold emit, update_rt. cbn. apply sends_on_current_quiet; [done|].
    cbn. by rewrite wire_sent_app, app_nil_r. }
  assert (Hquiet : forall t, respects silent (emit (Uncaught t))).
  { intros t w0. unfold silent, emit, update_rt. cbn.
    by rewrite wire_sent_app, app_nil_r. }
  assert (Hcur : forall w0 w1, sends_on_current w0 w1 ->
            exists new : list (nat * Wire),
              wire_sent (log (rt w1)) = wire_sent (log (rt w0)) ++ new
              /\ forall sock m, (sock, m) ∈ new ->
                   ws (this w1) = Some sock /\ socket_state (rt w1) sock = Some OPEN).
  { intros w0 w1 [Ho (new & E & Hnew)]. exists new. split; [exact E|].
    intros sock m Hin. apply open_handle_Some. rewrite Ho. exact (Hnew _ Hin). }
  assert (Hsil : forall w0 w1, silent w0 w1 ->
            exists new : list (nat * Wire),
              wire_sent (log (rt w1)) = wire_sent (log (rt w0)) ++ new
              /\ forall sock m, (sock, m) ∈ new ->
                   ws (this w1) = Some sock /\ socket_state (rt w1) sock = Some OPEN).
  { intros w0 w1 H. exists []. split; [by rewrite app_nil_r|].
    intros sock m Hin. by apply elem_of_nil in Hin. }
  destruct e.
  1,2,7,8,10: apply Hsil, (respects_step _ silent_trans); [by apply dispatch_silent|done].
  1,2,3,5,6: apply Hcur, (respects_step _ sends_on_current_trans);
    [by apply dispatch_on_current|done].
  rewrite step_open.
  set (w1 := exec (update_socket sock (with_readyState OPEN)) w).
  destruct (Hcur w1 (exec (onopen sock) w1) (onopen_on_current sock w1))
    as (new & E & Hnew).
  exists new. split; [|exact Hnew]. rewrite E. f_equal. unfold w1, exec.
  rewrite update_socket_spec. cbn. by destruct (sockets (rt w) !! sock).
Qed.

(** ** Disconnecting *)

Lemma disconnect_fields (w : World) :
  let w' := exec disconnect w in
  this w' =
    {| ws := None; url := url (this w); apiKey := apiKey (this w); jwt := jwt (this w);
       options := with_reconnect false (options (this w));
       subscriptions := []; reconnectAttempts := reconnectAttempts (this w);
       reconnectTimeout := None; pingInterval := None;
       isConnecting := isConnecting (this w); errorHandler := errorHandler (this w) |}
  /\ timeouts (rt w') =
       match reconnectTimeout (this w) with
       | Some id => filter (fun t => negb (Pos.eqb (fst t) id)) (timeouts (rt w))
       | None => timeouts (rt w)
       end
  /\ intervals (rt w') =
       match pingInterval (this w) with
       | Some id => filter (fun t => negb (Pos.eqb t id)) (intervals (rt w))
       | None => intervals (rt w)
       end
  /\ log (rt w') =
       log (rt w)
       ++ match pingInterval (this w) with
          | Some id => [ClearInterval id]
          | None => []
          end
       ++ match reconnectTimeout (this w) with
          | Some id => [ClearTimeout id]
          | None => []
          end
       ++ match ws (this w) with
          | Some sock => [WsClose sock 1000 "Client disconnect"]
          | None => []
          end
  /\ next_timer (rt w') = next_timer (rt w)
  /\ pow_approx (rt w') = pow_approx (rt w)
  /\ url_rejected (rt w') = url_rejected (rt w)
  /\ sockets (rt w') =
       match ws (this w) with
       | Some sock =>
           match sockets (rt w) !! sock with
           | Some s =>
               <[sock := match readyState s with
                         | CONNECTING | OPEN => with_readyState CLOSING s
                         | _ => s
                         end]> (sockets (rt w))
           | None => sockets (rt w)
           end
       | None => sockets (rt w)
       end.
Proof.
  unfold exec, disconnect, stopPingInterval, clearInterval, clearTimeout, ws_close,
    update_socket.
  unfold bind, update_this, update_rt, emit, update_rt, get_this, get_rt, ret.
  cbn. destruct (this w) as [ws0 u k j o subs n rto pi ic eh]. cbn.
  destruct pi as [p|], rto as [r|], ws0 as [sock|]; cbn;
    try destruct (sockets (rt w) !! sock); cbn;
    rewrite <- ?app_assoc, ?app_nil_r; repeat split; reflexivity.
Qed.

(** X5.  [disconnect()] never throws.  It turns reconnection off,
    empties the registry, forgets the socket, the ping timer and the
    reconnect timer, and leaves the other fields alone; it cancels
    exactly the reconnect timer recorded in [reconnectTimeout] (a timer
    armed earlier and overwritten there stays pending) and the ping
    timer recorded in [pingInterval]; it calls [close(1000, "Client
    disconnect")] on the current socket if there is one.  Calling it
    again right away changes nothing. *)
Theorem disconnect_effects :
  forall (w : World),
    let w' := exec disconnect w in
    completion disconnect w = Normal tt
    /\ this w' =
         {| ws := None; url := url (this w); apiKey := apiKey (this w);
            jwt := jwt (this w);
            options := with_reconnect false (options (this w));
            subscriptions := []; reconnectAttempts := reconnectAttempts (this w);
            reconnectTimeout := None; pingInterval := None;
            isConnecting := isConnecting (this w);
            errorHandler := errorHandler (this w) |}
    /\ timeouts (rt w') =
         match reconnectTimeout (this w) with
         | Some id => filter (fun t => negb (Pos.eqb (fst t) id)) (timeouts (rt w))
         | None => timeouts (rt w)
         end
    /\ intervals (rt w') =
         match pingInterval (this w) with
         | Some id => filter (fun t => negb (Pos.eqb t id)) (intervals (rt w))
         | None => intervals (rt w)
         end
    /\ wire_sent (log (rt w')) = wire_sent (log (rt w))
    /\ omap (fun e => match e with
                      | WsClose sock code reason => Some (sock, code, reason)
                      | _ => None
                      end) (log (rt w')) =
         omap (fun e => match e with
                        | WsClose sock code reason => Some (sock, code, reason)
                        | _ => None
                        end) (log (rt w))
         ++ match ws (this w) with
            | Some sock => [(sock, 1000%Z, "Client disconnect")]
            | None => []
            end
    /\ exec disconnect w' = w'.
Proof.
  intros w w'.
  destruct (disconnect_fields w)
    as (Hthis & Htime & Hint & Hlog & Hnext & Hpow & Hurl & Hsock).
  fold w' in Hthis, Htime, Hint, Hlog, Hnext, Hpow, Hurl, Hsock.
  split; [apply disconnect_returns|]. split; [exact Hthis|].
  split; [exact Htime|]. split; [exact Hint|].
  split.
  { rewrite Hlog, !wire_sent_app.
    destruct (pingInterval (this w)), (reconnectTimeout (this w)), (ws (this w)); cbn;
      by rewrite ?app_nil_r. }
  split.
  { rewrite Hlog, !omap_app.
    destruct (pingInterval (this w)), (reconnectTimeout (this w)), (ws (this w)); cbn;
      by rewrite ?app_nil_r. }
  destruct (disconnect_fields w') as (Hthis2 & Htime2 & Hint2 & Hlog2 & Hnext2 & Hpow2
                                      & Hurl2 & Hsock2).
  rewrite Hthis in Hthis2, Htime2, Hint2, Hlog2, Hsock2. cbn in *.
  rewrite !app_nil_r in Hlog2.
  destruct (exec disconnect w') as [t2 r2], w' as [t1 r1]. cbn in *.
  f_equal; [rewrite Hthis, Hthis2; reflexivity|].
  destruct r2, r1. cbn in *. by subst.
Qed.

(** ** Who changes the registry *)

Lemma same_subscriptions_refl (w : World) : same_subscriptions w w.
Proof. reflexivity. Qed.

Lemma same_subscriptions_trans (a b c : World) :
  same_subscriptions a b -> same_subscriptions b c -> same_subscriptions a c.
Proof. unfold same_subscriptions. congruence. Qed.

Lemma dispatch_same_subscriptions (e : Event) :
  edits_registry e = false -> respects same_subscriptions (dispatch e).
Proof.
  assert (Hs : respects same_subscriptions scheduleReconnect).
  { unfold scheduleReconnect. unfold_methods.
    frame_rules same_subscriptions_refl same_subscriptions_trans;
      frame_atoms; unfold same_subscriptions; cbn; done. }
  destruct e; try discriminate; intros _; unfold dispatch; unfold_methods;
    frame_rules same_subscriptions_refl same_subscriptions_trans; try exact Hs;
    frame_atoms; unfold same_subscriptions; cbn; done.
Qed.

(** X6.  Only [subscribe], the unsubscribe closures and [disconnect()]
    change the registry: [connect()], [onError] and every event of the
    runtime (open, close, error, message, timers) leave it exactly as it
    is, so subscriptions survive any loss of the transport. *)
Theorem registry_changed_only_by_calls :
  forall (es : list Event) (w : World),
    forallb (fun e => negb (edits_registry e)) es = true ->
    subscriptions (this (run_events es w)) = subscriptions (this w).
Proof.
  unfold run_events. induction es as [|e es IH]; intros w H; cbn in *; [done|].
  apply andb_prop in H as [He Hes]. rewrite IH by exact Hes.
  apply (respects_step same_subscriptions same_subscriptions_trans e).
  - apply dispatch_same_subscriptions. by destruct (edits_registry e).
  - intros t w0. reflexivity.
Qed.

Lemma registry_changed_only_by_calls_witness :
  forallb (fun e => negb (edits_registry e)) failing_reconnects = true
  /\ subscriptions (this (run_events failing_reconnects subscribed_world))
     = subscriptions (this subscribed_world).
Proof.
  split; [reflexivity|].
  apply (registry_changed_only_by_calls failing_reconnects subscribed_world).
  reflexivity.
Defined.

(** ** What routing a frame can do *)

Lemma assoc_elem_of {V : Type} (k : string) (m : list (string * V)) (v : V) :
  assoc k m = Some v -> exists k', (k', v) ∈ m.
Proof.
  induction m as [|[k0 x] m IH]; cbn; [done|].
  destruct (String.eqb k0 k).
  - intros [= ->]. exists k0. apply elem_of_cons. by left.
  - intros H. destruct (IH H) as [k' Hk']. exists k'. apply elem_of_cons. by right.
Qed.

Lemma Map_get_elem_of {V : Type} (key : Js) (m : list (string * V)) (v : V) :
  Map_get m key = Some v -> exists k', (k', v) ∈ m.
Proof. destruct key; cbn; try done. apply assoc_elem_of. Qed.

Lemma only_logs_refl (w : World) : only_logs w w.
Proof. by repeat split. Qed.

Lemma only_logs_trans (a b c : World) : only_logs a b -> only_logs b c -> only_logs a c.
Proof.
  intros (H1 & H2 & H3 & H4 & H5) (G1 & G2 & G3 & G4 & G5).
  repeat split; congruence.
Qed.

Lemma handleMessage_only_logs (frame : RawFrame) : respects only_logs (handleMessage frame).
Proof.
  unfold_methods.
  frame_rules only_logs_refl only_logs_trans; frame_atoms; by repeat split.
Qed.

(** X7.  What [handleMessage] does itself, the callbacks it invokes
    being caller code that does not call back into the client: it never
    touches the client's fields, its sockets or its timers, and sends
    nothing; it calls at most one subscription callback, which is the
    callback of an entry of the registry, and reports at most one
    error. *)
Theorem handleMessage_is_read_only :
  forall (frame : RawFrame) (w : World),
    let w' := exec (handleMessage frame) w in
    this w' = this w
    /\ sockets (rt w') = sockets (rt w)
    /\ timeouts (rt w') = timeouts (rt w)
    /\ intervals (rt w') = intervals (rt w)
    /\ wire_sent (log (rt w')) = wire_sent (log (rt w))
    /\ (handler_calls (log (rt w')) = handler_calls (log (rt w))
        \/ exists key subscription payload,
             (key, subscription) ∈ subscriptions (this w)
             /\ handler_calls (log (rt w')) =
                  handler_calls (log (rt w)) ++ [(handler_id (handler subscription), payload)])
    /\ (error_calls (log (rt w')) = error_calls (log (rt w))
        \/ exists h e, errorHandler (this w) = Some h
             /\ error_calls (log (rt w')) =
                  error_calls (log (rt w)) ++ [(error_handler_id h, e)]).
Proof.
  intros frame w w'.
  destruct (handleMessage_only_logs frame w) as (H1 & H2 & H3 & H4 & _).
  fold (exec (handleMessage frame) w) in H1, H2, H3, H4. fold w' in H1, H2, H3, H4.
  split; [exact H1|]. split; [exact H2|]. split; [exact H3|]. split; [exact H4|].
  assert (Herr : forall e,
            handleMessage frame w = call_errorHandler e w ->
            wire_sent (log (rt w')) = wire_sent (log (rt w))
            /\ handler_calls (log (rt w')) = handler_calls (log (rt w))
            /\ (error_calls (log (rt w')) = error_calls (log (rt w))
                \/ exists h e, errorHandler (this w) = Some h
                     /\ error_calls (log (rt w')) =
                          error_calls (log (rt w)) ++ [(error_handler_id h, e)])).
  { intros e He. unfold w', exec. rewrite He.
    fold (exec (call_errorHandler e) w). rewrite call_errorHandler_log.
    rewrite wire_sent_app, handler_calls_app, error_calls_app.
    destruct (errorHandler (this w)) as [h|]; cbn; rewrite ?app_nil_r.
    - split; [done|]. split; [done|]. right. by exists h, e.
    - by repeat split; try left. }
  destruct frame as [e|m].
  { destruct (Herr e eq_refl) as (A & B & C). split; [exact A|]. split; [by left|exact C]. }
  destruct m as [| |b|r|s|items|props];
    try (unfold w', exec; cbn; split; [done|]; split; left; done).
  1,2: (edestruct Herr as (A & B & C); [reflexivity|]);
       (split; [exact A|]; split; [by left|exact C]).
  destruct (strict_eq_string (default JUndefined (assoc "type" props)) "pong") eqn:Hp.
  { unfold w', exec. rewrite (handleMessage_pong props w Hp). cbn.
    split; [done|]. split; left; done. }
  destruct (spec_routing_key (default JUndefined (assoc "channel" props))
              (default JUndefined (assoc "data" props))) as [key|t] eqn:Hkey.
  2: { edestruct Herr as (A & B & C); [by apply handleMessage_unroutable|].
       split; [exact A|]. split; [by left|exact C]. }
  unfold w', exec. rewrite (handleMessage_object props w key Hp Hkey).
  destruct (or_else _ _) as [sub|] eqn:Hfound; [|cbn; split; [done|]; split; left; done].
  assert (Hin : exists k, (k, sub) ∈ subscriptions (this w)).
  { unfold or_else in Hfound.
    destruct (Map_get (subscriptions (this w)) key) as [s1|] eqn:E1.
    - injection Hfound as <-. by apply Map_get_elem_of in E1.
    - by apply Map_get_elem_of in Hfound. }
  destruct Hin as [k Hk].
  fold (exec (try_catch (call_handler (handler sub)
                (default JUndefined (assoc "data" props)))
          (fun error => call_errorHandler (error_or error "Failed to parse message"))) w).
  rewrite dispatch_log. rewrite !wire_sent_app, !handler_calls_app, !error_calls_app.
  split; [|split].
  - cbn. destruct (handler_run _ _), (errorHandler (this w)); cbn; by rewrite app_nil_r.
  - right. exists k, sub, (default JUndefined (assoc "data" props)). split; [done|].
    f_equal. cbn. by destruct (handler_run _ _), (errorHandler (this w)).
  - cbn. destruct (handler_run _ _) as [t|]; [|left; by rewrite app_nil_r].
    destruct (errorHandler (this w)) as [h|]; [|left; by rewrite app_nil_r].
    right. by exists h, (error_or t "Failed to parse message").
Qed.

(** ** After a disconnect *)

Lemma nothing_delivered_refl (w : World) : nothing_delivered w w.
Proof. by intros H. Qed.

Lemma nothing_delivered_trans (a b c : World) :
  nothing_delivered a b -> nothing_delivered b c -> nothing_delivered a c.
Proof.
  intros Hab Hbc Ha. destruct (Hab Ha) as [Hb E1]. destruct (Hbc Hb) as [Hc E2].
  split; [done|congruence].
Qed.

Lemma Map_get_empty {V : Type} (key : Js) : Map_get (@nil (string * V)) key = None.
Proof. by destruct key. Qed.

Lemma handleMessage_nothing_delivered (frame : RawFrame) :
  respects nothing_delivered (handleMessage frame).
Proof.
  intros w Hempty.
  assert (Herr : forall e,
            subscriptions (this (snd (call_errorHandler e w))) = []
            /\ handler_calls (log (rt (snd (call_errorHandler e w))))
               = handler_calls (log (rt w))).
  { intros e. fold (exec (call_errorHandler e) w).
    rewrite call_errorHandler_this, call_errorHandler_log, handler_calls_app.
    split; [done|]. destruct (errorHandler (this w)); cbn; by rewrite app_nil_r. }
  destruct frame as [e|m]; [apply Herr|].
  destruct m as [| |b|r|s|items|props]; try (by split); try apply Herr.
  destruct (strict_eq_string (default JUndefined (assoc "type" props)) "pong") eqn:Hp.
  - by rewrite (handleMessage_pong props w Hp).
  - destruct (spec_routing_key (default JUndefined (assoc "channel" props))
                (default JUndefined (assoc "data" props))) as [key|t] eqn:Hkey.
    + rewrite (handleMessage_object props w key Hp Hkey), Hempty, !Map_get_empty.
      by split.
    + rewrite (handleMessage_unroutable props w t Hp Hkey). apply Herr.
Qed.

Lemma dispatch_nothing_delivered (e : Event) :
  is_subscribe e = false -> respects nothing_delivered (dispatch e).
Proof.
  assert (Hs : respects nothing_delivered scheduleReconnect).
  { unfold scheduleReconnect. unfold_methods.
    frame_rules nothing_delivered_refl nothing_delivered_trans;
      frame_atoms; unfold nothing_delivered; cbn;
      rewrite ?handler_calls_app, ?app_nil_r; done. }
  destruct e; try discriminate; intros _; unfold dispatch;
    try apply handleMessage_nothing_delivered;
    unfold_methods;
    frame_rules nothing_delivered_refl nothing_delivered_trans; try exact Hs;
    frame_atoms; unfold nothing_delivered; cbn;
    rewrite ?handler_calls_app, ?app_nil_r; try done.
  all: intros ->; done.
Qed.

Lemma run_events_nothing_delivered (es : list Event) (w : World) :
  forallb (fun e => negb (is_subscribe e)) es = true ->
  nothing_delivered w (run_events es w).
Proof.
  revert w. unfold run_events.
  induction es as [|e es IH]; intros w Hes; cbn in *; [apply nothing_delivered_refl|].
  apply andb_prop in Hes as [He Hes].
  eapply nothing_delivered_trans; [|by apply IH].
  apply (respects_step nothing_delivered nothing_delivered_trans e).
  - apply dispatch_nothing_delivered. by destruct (is_subscribe e).
  - intros t w0 H0. split; [done|]. unfold emit, update_rt. cbn.
    by rewrite handler_calls_app, app_nil_r.
Qed.

(** X8.  [disconnect()] empties the registry, so from then on, until the
    application subscribes again, no frame that arrives and no other
    event calls any subscription callback. *)
Theorem no_delivery_after_disconnect :
  forall (es : list Event) (w : World),
    forallb (fun e => negb (is_subscribe e)) es = true ->
    let disconnected := step Call_disconnect w in
    subscriptions (this (run_events es disconnected)) = []
    /\ handler_calls (log (rt (run_events es disconnected)))
       = handler_calls (log (rt w)).
Proof.
  intros es w Hes disconnected.
  assert (Hd : subscriptions (this disconnected) = []
               /\ handler_calls (log (rt disconnected)) = handler_calls (log (rt w))).
  { unfold disconnected. rewrite step_disconnect.
    destruct (disconnect_fields w) as (Hthis & _ & _ & Hlog & _).
    rewrite Hthis, Hlog, !handler_calls_app. split; [done|].
    destruct (pingInterval (this w)), (reconnectTimeout (this w)), (ws (this w)); cbn;
      by rewrite ?app_nil_r. }
  destruct Hd as [Hempty Hcalls].
  destruct (run_events_nothing_delivered es disconnected Hes Hempty) as [H1 H2].
  split; [exact H1|]. by rewrite H2.
Qed.

Lemma no_delivery_after_disconnect_witness :
  forallb (fun e => negb (is_subscribe e))
    [Ev_message 0 (Decoded (data_message "orderbook" btc_payload)); Ev_close 0 true] = true
  /\ handler_calls
       (log (rt (run_events
          [Ev_message 0 (Decoded (data_message "orderbook" btc_payload)); Ev_close 0 true]
          (step Call_disconnect subscribed_world))))
     = handler_calls (log (rt subscribed_world)).
Proof.
  split; [reflexivity|].
  destruct (no_delivery_after_disconnect
              [Ev_message 0 (Decoded (data_message "orderbook" btc_payload));
               Ev_close 0 true] subscribed_world eq_refl) as [_ H].
  exact H.
Defined.

(** ** User-scoped subscriptions and the fallback lookup *)

(** X9.  A subscription made without a symbol (as [userOrders] and
    [userBalances] do) receives every data message of its channel,
    whether or not the payload carries a [symbol] field, unless an entry
    is registered under the symbol-qualified key of that message. *)
Theorem user_scoped_subscription_receives_channel :
  forall (w : World) (c : WebSocketChannel) (h : MessageHandler)
         (props : list (string * Js)) (key : Js),
    let data := default JUndefined (assoc "data" props) in
    let w1 := exec (subscribe c None h) w in
    assoc "channel" props = Some (JStr (channel_name c)) ->
    strict_eq_string (default JUndefined (assoc "type" props)) "pong" = false ->
    completion (routing_key (JObj props)) w1 = Normal key ->
    Map_get (subscriptions (this w)) key = None \/ key = JStr (channel_name c) ->
    handler_calls (log (rt (exec (handleMessage (Decoded (JObj props))) w1))) =
      handler_calls (log (rt w1)) ++ [(handler_id h, data)]
    /\ exec (userOrders h) w = exec (subscribe Ch_user_orders None h) w
    /\ exec (userBalances h) w = exec (subscribe Ch_user_balances None h) w.
Proof.
  intros w c h props key data w1 Hchan Hp Hrk Hkey. split; [|done].
  unfold completion in Hrk. rewrite routing_key_object in Hrk.
  cbn [fst] in Hrk. fold data in Hrk.
  assert (Hsubs : subscriptions (this w1) =
                  Map_set (channel_name c)
                    {| channel := c; symbol := None; handler := h |}
                    (subscriptions (this w))).
  { unfold w1, exec. by rewrite subscribe_spec. }
  unfold exec at 1. rewrite (handleMessage_object props w1 key Hp Hrk), Hchan.
  change (default JUndefined (Some (JStr (channel_name c)))) with (JStr (channel_name c)).
  fold data.
  assert (Hfound : or_else (Map_get (subscriptions (this w1)) key)
                     (Map_get (subscriptions (this w1)) (JStr (channel_name c)))
                   = Some {| channel := c; symbol := None; handler := h |}).
  { rewrite Hsubs. cbn [Map_get]. rewrite assoc_Map_set_eq.
    destruct Hkey as [Hnone| ->]; [|cbn [Map_get]; by rewrite assoc_Map_set_eq].
    destruct key as [| |?|?|k|?|?]; try done. cbn [Map_get] in *.
    destruct (String.eqb_spec (channel_name c) k) as [<-|Hne].
    - by rewrite assoc_Map_set_eq.
    - rewrite assoc_Map_set_ne by done. by rewrite Hnone. }
  rewrite Hfound. apply dispatch_handler_calls.
Qed.

Lemma user_scoped_subscription_receives_channel_witness :
  (assoc "channel" (data_message_props "user.orders" btc_payload)
     = Some (JStr (channel_name Ch_user_orders))
   /\ strict_eq_string
        (default JUndefined (assoc "type" (data_message_props "user.orders" btc_payload)))
        "pong" = false
   /\ completion (routing_key (JObj (data_message_props "user.orders" btc_payload)))
        (exec (subscribe Ch_user_orders None (quiet_handler 4)) subscribed_world)
      = Normal (JStr "user.orders:BTC-USDT")
   /\ Map_get (subscriptions (this subscribed_world)) (JStr "user.orders:BTC-USDT") = None)
  /\ handler_calls
       (log (rt (exec (handleMessage (Decoded (data_message "user.orders" btc_payload)))
                   (exec (subscribe Ch_user_orders None (quiet_handler 4))
                      subscribed_world))))
     = [(4, btc_payload)].
Proof.
  assert (H1 : assoc "channel" (data_message_props "user.orders" btc_payload)
               = Some (JStr (channel_name Ch_user_orders))) by (vm_compute; reflexivity).
  assert (H2 : strict_eq_string
                 (default JUndefined
                    (assoc "type" (data_message_props "user.orders" btc_payload)))
                 "pong" = false) by (vm_compute; reflexivity).
  assert (H3 : completion
                 (routing_key (JObj (data_message_props "user.orders" btc_payload)))
                 (exec (subscribe Ch_user_orders None (quiet_handler 4)) subscribed_world)
               = Normal (JStr "user.orders:BTC-USDT")) by (vm_compute; reflexivity).
  assert (H4 : Map_get (subscriptions (this subscribed_world))
                 (JStr "user.orders:BTC-USDT") = None) by (vm_compute; reflexivity).
  split; [auto|].
  destruct (user_scoped_subscription_receives_channel subscribed_world Ch_user_orders
              (quiet_handler 4) (data_message_props "user.orders" btc_payload)
              (JStr "user.orders:BTC-USDT") H1 H2 H3 (or_introl H4)) as [H _].
  match type of H with
  | ?l = ?r => assert (E : l = [(4, btc_payload)]) by (rewrite H; vm_compute; reflexivity)
  end.
  exact E.
Defined.

(** ** Closures and the reconnect schedule *)

Lemma after_close_cleanup_fields (sock : nat) (w : World) :
  let wb := after_close_cleanup sock w in
  options (this wb) = options (this w)
  /\ reconnectAttempts (this wb) = reconnectAttempts (this w)
  /\ errorHandler (this wb) = errorHandler (this w)
  /\ subscriptions (this wb) = subscriptions (this w)
  /\ isConnecting (this wb) = false
  /\ pingInterval (this wb) = None
  /\ timeouts (rt wb) = timeouts (rt w)
  /\ next_timer (rt wb) = next_timer (rt w)
  /\ scheduled (log (rt wb)) = scheduled (log (rt w))
  /\ error_calls (log (rt wb)) = error_calls (log (rt w))
  /\ pow_approx (rt wb) = pow_approx (rt w).
Proof.
  unfold after_close_cleanup, exec. rewrite update_socket_spec. cbn [update_this snd].
  rewrite stopPingInterval_spec. cbn.
  destruct (pingInterval (this w)) eqn:E, (sockets (rt w) !! sock); cbn;
    rewrite ?scheduled_app, ?error_calls_app, ?app_nil_r; repeat split; done.
Qed.

Lemma step_close_at_cap (w : World) (sock : nat) :
  reconnect (options (this w)) = true ->
  (maxReconnectAttempts (options (this w)) <= Z.of_nat (reconnectAttempts (this w)))%Z ->
  step (Ev_close sock false) w =
    match call_errorHandler max_attempts_error (after_close_cleanup sock w) with
    | (Normal _, w') => w'
    | (Throws t, w') => exec (emit (Uncaught t)) w'
    end.
Proof.
  intros Hre Hcap.
  destruct (after_close_cleanup_fields sock w) as (Ho & Ha & _).
  unfold step. cbn [dispatch]. unfold bind at 1.
  rewrite update_socket_spec. cbn [snd fst]. unfold onclose.
  unfold bind at 1. cbn [update_this snd fst].
  unfold bind at 1. rewrite stopPingInterval_spec. cbn [snd fst].
  unfold bind at 1. cbn [get_this snd fst].
  unfold after_close_cleanup, exec in *. rewrite update_socket_spec in *.
  cbn [update_this snd] in *. rewrite stopPingInterval_spec in *. cbn [snd] in *.
  rewrite Ho, Hre. cbn [negb andb].
  rewrite scheduleReconnect_at_cap by (by rewrite Ho, Ha). done.
Qed.

Lemma step_close_below_cap (w : World) (sock : nat) :
  reconnect (options (this w)) = true ->
  (Z.of_nat (reconnectAttempts (this w)) < maxReconnectAttempts (options (this w)))%Z ->
  let w' := step (Ev_close sock false) w in
  let armed := (next_timer (rt w),
                backoff_delay (pow_approx (rt w))
                  (reconnectInterval (options (this w)))
                  (S (reconnectAttempts (this w)))) in
  scheduled (log (rt w')) = scheduled (log (rt w)) ++ [armed]
  /\ timeouts (rt w') = timeouts (rt w) ++ [armed]
  /\ reconnectAttempts (this w') = S (reconnectAttempts (this w))
  /\ reconnectTimeout (this w') = Some (next_timer (rt w))
  /\ error_calls (log (rt w')) = error_calls (log (rt w))
  /\ options (this w') = options (this w).
Proof.
  intros Hre Hlt w' armed. unfold w'.
  rewrite (step_close_reconnects w sock Hre Hlt).
  fold (after_close_cleanup sock w).
  destruct (after_close_cleanup_fields sock w)
    as (Ho & Ha & _ & _ & _ & _ & Ht & Hn & Hs & He & Hpow).
  unfold exec at 1 2 3 4 5 6.
  rewrite scheduleReconnect_below_cap by (by rewrite Ho, Ha).
  cbn [snd this rt log timeouts reconnectAttempts reconnectTimeout options
       with_reconnectTimeout with_reconnectAttempts with_log with_next_timer with_timeouts].
  rewrite scheduled_app, error_calls_app, Ho, Ha, Ht, Hn, Hs, He, Hpow. cbn.
  by rewrite app_nil_r.
Qed.

(** X10.  A non-clean closure while reconnection is enabled arms
    exactly one reconnect timer if the attempt counter is below
    [maxReconnectAttempts] (and counts the attempt; the delay is the
    product in doubles [reconnectInterval * Math.pow(1.5, attempts)],
    [attempts] being the counter before the closure), and none once the
    counter has reached it: then the error "Max reconnection attempts
    reached" goes to the error handler, if one is registered, and the
    counter and the pending timers stay as they are.  This holds for the
    closure of any socket, the current one or not. *)
Theorem non_clean_closure_schedules_once :
  forall (w : World) (sock : nat),
    reconnect (options (this w)) = true ->
    let attempts := reconnectAttempts (this w) in
    let cap := maxReconnectAttempts (options (this w)) in
    let w' := step (Ev_close sock false) w in
    let armed := (next_timer (rt w),
                  backoff_delay (pow_approx (rt w))
                    (reconnectInterval (options (this w))) (S attempts)) in
    ((Z.of_nat attempts < cap)%Z ->
       scheduled (log (rt w')) = scheduled (log (rt w)) ++ [armed]
       /\ timeouts (rt w') = timeouts (rt w) ++ [armed]
       /\ reconnectAttempts (this w') = S attempts
       /\ error_calls (log (rt w')) = error_calls (log (rt w)))
    /\ ((cap <= Z.of_nat attempts)%Z ->
         scheduled (log (rt w')) = scheduled (log (rt w))
         /\ timeouts (rt w') = timeouts (rt w)
         /\ reconnectAttempts (this w') = attempts
         /\ error_calls (log (rt w')) =
              error_calls (log (rt w)) ++
                match errorHandler (this w) with
                | Some h => [(error_handler_id h, max_attempts_error)]
                | None => []
                end).
Proof.
  intros w sock Hre attempts cap w' armed. split.
  - intros Hlt. destruct (step_close_below_cap w sock Hre Hlt) as (A & B & C & _ & D & _).
    by repeat split.
  - intros Hcap. unfold w'. rewrite (step_close_at_cap w sock Hre Hcap).
    destruct (after_close_cleanup_fields sock w)
      as (Ho & Ha & Heh & _ & _ & _ & Ht & Hn & Hs & He & _).
    set (wb := after_close_cleanup sock w) in *.
    pose proof (call_errorHandler_this max_attempts_error wb) as Hthis.
    pose proof (call_errorHandler_log max_attempts_error wb) as Hlog.
    pose proof (call_errorHandler_rt max_attempts_error wb) as Hrt.
    unfold exec in Hthis, Hlog, Hrt.
    destruct (call_errorHandler max_attempts_error wb) as [[[]|t] w1]; cbn [snd] in *.
    all: assert (Htime : timeouts (rt w1) = timeouts (rt wb)) by (by rewrite Hrt).
    all: assert (Hsched : scheduled (log (rt w1)) = scheduled (log (rt w)))
      by (rewrite Hlog, scheduled_app, Hs; destruct (errorHandler (this wb)); cbn;
          by rewrite app_nil_r).
    all: assert (Herr : error_calls (log (rt w1)) =
                        error_calls (log (rt w)) ++
                          match errorHandler (this w) with
                          | Some h => [(error_handler_id h, max_attempts_error)]
                          | None => []
                          end)
      by (rewrite Hlog, error_calls_app, He, Heh; by destruct (errorHandler (this w))).
    + rewrite Hthis, Htime. by repeat split.
    + unfold exec, emit, update_rt. cbn [snd this rt log timeouts with_log].
      rewrite scheduled_app, error_calls_app, Hthis, Htime, Hsched, Herr. cbn.
      rewrite !app_nil_r. by repeat split.
Qed.

Lemma non_clean_closure_schedules_once_witness :
  (reconnect (options (this retry_world)) = true
   /\ (Z.of_nat (reconnectAttempts (this retry_world))
       < maxReconnectAttempts (options (this retry_world)))%Z)
  /\ reconnectAttempts (this (step (Ev_close 0 false) retry_world)) = 1.
Proof.
  assert (Hre : reconnect (options (this retry_world)) = true)
    by (vm_compute; reflexivity).
  assert (Hlt : (Z.of_nat (reconnectAttempts (this retry_world))
                 < maxReconnectAttempts (options (this retry_world)))%Z)
    by (vm_compute; reflexivity).
  split; [auto|].
  destruct (non_clean_closure_schedules_once retry_world 0 Hre) as [H _].
  destruct (H Hlt) as (_ & _ & Hn & _).
  match type of Hn with
  | ?l = ?r => assert (E : l = 1) by (rewrite Hn; vm_compute; reflexivity)
  end.
  exact E.
Defined.

(** ** The back-off restarts after a successful open *)

Lemma keeps_counter_refl (w : World) : keeps_counter w w.
Proof. by split. Qed.

Lemma keeps_counter_trans (a b c : World) :
  keeps_counter a b -> keeps_counter b c -> keeps_counter a c.
Proof. intros [A1 A2] [B1 B2]. split; congruence. Qed.

Lemma step_open_resets_counter (sock : nat) (w : World) :
  reconnectAttempts (this (step (Ev_open sock) w)) = 0
  /\ options (this (step (Ev_open sock) w)) = options (this w).
Proof.
  rewrite step_open.
  set (w1 := exec (update_socket sock (with_readyState OPEN)) w).
  assert (Hw1 : options (this w1) = options (this w))
    by (unfold w1, exec; by rewrite update_socket_spec).
  set (rest := bind startPingInterval
                 (fun _ => bind resubscribeAll (fun _ => settle sock Resolved))).
  change (exec (onopen sock) w1)
    with (exec rest {| this := with_reconnectAttempts 0
                                 (with_isConnecting false (this w1));
                       rt := rt w1 |}).
  assert (H : respects keeps_counter rest).
  { unfold rest. unfold_methods.
    frame_rules keeps_counter_refl keeps_counter_trans; frame_atoms; by split. }
  destruct (H {| this := with_reconnectAttempts 0 (with_isConnecting false (this w1));
                 rt := rt w1 |}) as [H1 H2].
  unfold exec at 1 2. rewrite H1, H2. cbn [this reconnectAttempts options
    with_reconnectAttempts with_isConnecting]. by split.
Qed.


(** X11.  Every open event resets the attempt counter to zero, so the
    first reconnect scheduled after a connection that had opened waits
    exactly [reconnectInterval] (the product with [Math.pow(1.5, 0)],
    which is 1), however many attempts it took to get that
    connection. *)
Theorem backoff_restarts_after_open :
  forall (w : World) (sock sock' : nat),
    reconnect (options (this w)) = true ->
    (0 < maxReconnectAttempts (options (this w)))%Z ->
    let opened := step (Ev_open sock) w in
    let lost := step (Ev_close sock' false) opened in
    let delay := backoff_delay (pow_approx (rt w))
                   (reconnectInterval (options (this w))) 1 in
    reconnectAttempts (this opened) = 0
    /\ scheduled (log (rt lost)) =
         scheduled (log (rt opened)) ++ [(next_timer (rt opened), delay)]
    /\ delay = reconnectInterval (options (this w))
    /\ reconnectAttempts (this lost) = 1.
Proof.
  intros w sock sock' Hre Hcap opened lost delay.
  destruct (step_open_resets_counter sock w) as [H0 Ho]. fold opened in H0, Ho.
  split; [exact H0|].
  assert (Hre' : reconnect (options (this opened)) = true) by (by rewrite Ho).
  assert (Hlt : (Z.of_nat (reconnectAttempts (this opened))
                 < maxReconnectAttempts (options (this opened)))%Z)
    by (rewrite H0, Ho; exact Hcap).
  destruct (step_close_below_cap opened sock' Hre' Hlt) as (A & _ & C & _).
  fold lost in A, C. rewrite Ho, H0, backoff_delay_first in A. rewrite H0 in C.
  unfold delay. rewrite backoff_delay_first.
  split; [exact A|]. split; [reflexivity|exact C].
Qed.

Lemma backoff_restarts_after_open_witness :
  (reconnect (options (this (run_events (take 9 failing_reconnects) retry_world))) = true
   /\ (0 < maxReconnectAttempts
             (options (this (run_events (take 9 failing_reconnects) retry_world))))%Z
   /\ reconnectAttempts (this (run_events (take 9 failing_reconnects) retry_world)) = 3)
  /\ reconnectAttempts
       (this (step (Ev_open 3)
                (run_events (take 9 failing_reconnects) retry_world))) = 0.
Proof.
  assert (Hre : reconnect (options (this (run_events (take 9 failing_reconnects)
                                            retry_world))) = true)
    by (vm_compute; reflexivity).
  assert (Hcap : (0 < maxReconnectAttempts
                        (options (this (run_events (take 9 failing_reconnects)
                                          retry_world))))%Z)
    by (vm_compute; reflexivity).
  split; [split; [exact Hre|split; [exact Hcap|vm_compute; reflexivity]]|].
  destruct (backoff_restarts_after_open
              (run_events (take 9 failing_reconnects) retry_world) 3 3 Hre Hcap)
    as [H _].
  exact H.
Defined.

(** ** Connecting *)

(** X12.  While the current socket is open or the connecting flag is
    set, [connect()] returns at once and does nothing: no socket is
    constructed and no state changes.  A reconnect timer that fires in
    such a state likewise only consumes itself. *)
Theorem connect_guard_is_noop :
  forall (w : World) (who : Awaiter) (id : positive),
    is_Some (open_handle w) \/ isConnecting (this w) = true ->
    connect who w = (Normal ReturnedAtOnce, w)
    /\ step Call_connect w = w
    /\ step (Ev_timeout id) w =
         {| this := this w;
            rt := with_timeouts
                    (filter (fun t => negb (Pos.eqb (fst t) id)) (timeouts (rt w)))
                    (rt w) |}.
Proof.
  intros w who id H. split; [by apply connect_guard|]. split.
  - unfold step. cbn [dispatch]. unfold bind. by rewrite connect_guard.
  - unfold step. cbn [dispatch]. unfold bind at 1. cbn [update_rt snd fst].
    unfold reconnect_callback, bind. rewrite connect_guard; [done|].
    destruct H as [H|H]; [left|right; exact H]. exact H.
Qed.

Lemma connect_guard_is_noop_witness :
  (is_Some (open_handle open_world) \/ isConnecting (this open_world) = true)
  /\ step Call_connect open_world = open_world.
Proof.
  assert (H : is_Some (open_handle open_world) \/ isConnecting (this open_world) = true).
  { left. exists 0. vm_compute. reflexivity. }
  split; [exact H|].
  destruct (connect_guard_is_noop open_world ByCaller 1%positive H) as (_ & E & _).
  exact E.
Defined.

(** X13.  When a constructor rejects the URL, [connect()] creates no
    socket and leaves the client exactly as it was (the connecting flag
    is cleared again); its promise is rejected with what was thrown.
    When the call came from a reconnect timer, the error handler gets
    that error (or "Reconnection failed" if the thrown value is no
    [Error]) and no further attempt is scheduled. *)
Theorem connect_with_rejected_url :
  forall (w : World) (who : Awaiter) (t : Thrown) (id : positive),
    open_handle w = None ->
    isConnecting (this w) = false ->
    url_rejected (rt w) (url (this w)) = Some t ->
    let fired := step (Ev_timeout id) w in
    connect who w = (Normal (ConstructorThrew t), w)
    /\ step Call_connect w = w
    /\ this fired = this w
    /\ sockets (rt fired) = sockets (rt w)
    /\ scheduled (log (rt fired)) = scheduled (log (rt w))
    /\ error_calls (log (rt fired)) =
         error_calls (log (rt w)) ++
           match errorHandler (this w) with
           | Some h => [(error_handler_id h, error_or t "Reconnection failed")]
           | None => []
           end.
Proof.
  intros w who t id Ho Hc Hu fired.
  split; [by apply connect_rejected|]. split.
  { unfold step. cbn [dispatch]. unfold bind. by rewrite (connect_rejected _ w t). }
  set (w1 := {| this := this w;
                rt := with_timeouts
                        (filter (fun x => negb (Pos.eqb (fst x) id)) (timeouts (rt w)))
                        (rt w) |}).
  assert (Hstep : fired =
            match call_errorHandler (error_or t "Reconnection failed") w1 with
            | (Normal _, w') => w'
            | (Throws t', w') => exec (emit (Uncaught t')) w'
            end).
  { unfold fired, step. cbn [dispatch]. unfold bind at 1. cbn [update_rt snd fst].
    fold w1. unfold reconnect_callback, bind.
    rewrite (connect_rejected ByReconnectTimer w1 t) by done. done. }
  pose proof (call_errorHandler_this (error_or t "Reconnection failed") w1) as Hthis.
  pose proof (call_errorHandler_log (error_or t "Reconnection failed") w1) as Hlog.
  pose proof (call_errorHandler_rt (error_or t "Reconnection failed") w1) as Hrt.
  unfold exec in Hthis, Hlog, Hrt. rewrite Hstep.
  destruct (call_errorHandler (error_or t "Reconnection failed") w1) as [[[]|t'] w2];
    cbn [snd] in *.
  all: assert (Hsock : sockets (rt w2) = sockets (rt w)) by (by rewrite Hrt).
  all: assert (Hsched : scheduled (log (rt w2)) = scheduled (log (rt w)))
    by (rewrite Hlog, scheduled_app; destruct (errorHandler (this w1)); cbn;
        by rewrite app_nil_r).
  all: assert (Herr : error_calls (log (rt w2)) =
                      error_calls (log (rt w)) ++
                        match errorHandler (this w) with
                        | Some h => [(error_handler_id h, error_or t "Reconnection failed")]
                        | None => []
                        end)
    by (rewrite Hlog, error_calls_app; cbn; by destruct (errorHandler (this w))).
  - by repeat split.
  - unfold exec, emit, update_rt. cbn [snd this rt log sockets with_log].
    rewrite scheduled_app, error_calls_app, Hsched, Herr. cbn.
    rewrite !app_nil_r. by repeat split.
Qed.

Lemma connect_with_rejected_url_witness :
  (open_handle bad_url_world = None
   /\ isConnecting (this bad_url_world) = false
   /\ url_rejected (rt bad_url_world) (url (this bad_url_world))
      = Some (ThrowError (new_TypeError "Invalid URL")))
  /\ step Call_connect bad_url_world = bad_url_world.
Proof.
  assert (Ho : open_handle bad_url_world = None) by (vm_compute; reflexivity).
  assert (Hc : isConnecting (this bad_url_world) = false) by (vm_compute; reflexivity).
  assert (Hu : url_rejected (rt bad_url_world) (url (this bad_url_world))
               = Some (ThrowError (new_TypeError "Invalid URL")))
    by (vm_compute; reflexivity).
  split; [auto|].
  destruct (connect_with_rejected_url bad_url_world ByCaller _ 1%positive Ho Hc Hu)
    as (_ & E & _).
  exact E.
Defined.

Lemma auth_param_spec (t : KlingExWebSocket) :
  auth_param t =
    match configured (apiKey t), configured (jwt t) with
    | Some k, _ => ApiKeyParam k
    | None, Some j => TokenParam j
    | None, None => NoAuth
    end.
Proof.
  unfold auth_param, configured.
  destruct (apiKey t) as [k|], (jwt t) as [j|]; try done;
    repeat match goal with
           | |- context [String.eqb ?x ""] => destruct (String.eqb x "")
           end; done.
Qed.

(** X14.  A [connect()] that passes the guard with an accepted URL
    constructs exactly one socket, makes it the current one and sets the
    connecting flag.  The socket's URL carries the API key if one is
    configured (present and not empty), whatever the bearer token is;
    the bearer token only if no API key is configured; and no credential
    otherwise. *)
Theorem connect_creates_authenticated_socket :
  forall (w : World) (who : Awaiter),
    open_handle w = None ->
    isConnecting (this w) = false ->
    url_rejected (rt w) (url (this w)) = None ->
    let w' := exec (connect who) w in
    let sock := length (sockets (rt w)) in
    sockets (rt w') =
      sockets (rt w) ++
        [{| readyState := CONNECTING; socket_url := url (this w);
            socket_auth := match configured (apiKey (this w)), configured (jwt (this w)) with
                           | Some k, _ => ApiKeyParam k
                           | None, Some j => TokenParam j
                           | None, None => NoAuth
                           end;
            closeFired := false; awaiter := who; promise := Pending |}]
    /\ ws (this w') = Some sock
    /\ isConnecting (this w') = true
    /\ sockets_created (log (rt w')) = sockets_created (log (rt w)) ++ [sock]
    /\ completion (connect who) w = Normal (AwaitingSocket sock).
Proof.
  intros w who Ho Hc Hu w' sock. unfold w', exec, completion.
  rewrite (connect_creates who w Ho Hc Hu). cbn. rewrite auth_param_spec.
  unfold sockets_created. rewrite omap_app. by repeat split.
Qed.

Lemma connect_creates_authenticated_socket_witness :
  (open_handle idle_world = None
   /\ isConnecting (this idle_world) = false
   /\ url_rejected (rt idle_world) (url (this idle_world)) = None)
  /\ ws (this (exec (connect ByCaller) idle_world)) = Some 0.
Proof.
  assert (Ho : open_handle idle_world = None) by (vm_compute; reflexivity).
  assert (Hc : isConnecting (this idle_world) = false) by (vm_compute; reflexivity).
  assert (Hu : url_rejected (rt idle_world) (url (this idle_world)) = None)
    by (vm_compute; reflexivity).
  split; [auto|].
  destruct (connect_creates_authenticated_socket idle_world ByCaller Ho Hc Hu)
    as (_ & E & _).
  exact E.
Defined.

(** ** Transport errors *)

(** The error event, when the registered error handler returns. *)
Lemma step_error_quiet (w : World) (sock : nat) (s : Socket) (h : ErrorHandler) :
  sockets (rt w) !! sock = Some s ->
  errorHandler (this w) = Some h ->
  error_handler_run h websocket_error = None ->
  step (Ev_error sock) w =
    {| this := with_isConnecting false (this w);
       rt :=
         let closed := with_readyState CLOSED s in
         let reported := CallErrorHandler (error_handler_id h) websocket_error in
         {| sockets := <[sock := match promise s with
                                 | Pending => with_promise (Rejected websocket_error) closed
                                 | _ => closed
                                 end]> (sockets (rt w));
            timeouts := timeouts (rt w);
            intervals := intervals (rt w);
            next_timer := next_timer (rt w);
            url_rejected := url_rejected (rt w);
            pow_approx := pow_approx (rt w);
            log := log (rt w) ++ [reported] ++
                     match promise s with
                     | Pending =>
                         Settle sock (Rejected websocket_error) ::
                         match awaiter s with
                         | ByReconnectTimer => [reported]
                         | ByCaller => []
                         end
                     | _ => []
                     end |} |}.
Proof.
  intros Hs Hh Hrun.
  assert (Hlt : sock < length (sockets (rt w))) by (eapply lookup_lt_Some; eauto).
  unfold step. cbn [dispatch]. unfold bind at 1. cbn [get_rt snd fst].
  unfold bind at 1. rewrite update_socket_spec, Hs. cbn [snd fst].
  unfold bind at 1. unfold onerror. unfold bind at 1. cbn [update_this snd fst].
  unfold bind at 1. unfold call_errorHandler at 1. unfold bind at 1. cbn [get_this snd fst this].
  cbn [errorHandler with_isConnecting]. rewrite Hh.
  unfold bind at 1. cbn [emit update_rt snd fst].
  fold websocket_error. rewrite Hrun. cbn [ret snd fst].
  unfold settle, bind at 1. cbn [get_rt snd fst rt sockets with_log with_sockets].
  rewrite list_lookup_insert_eq by done. cbn [fmap option_fmap option_map promise
    with_readyState].
  unfold rejection_reaction, reconnect_catch, call_errorHandler.
  destruct (promise s) eqn:Hp.
  - unfold bind, update_socket, update_rt, emit, update_rt, get_rt, get_this, ret.
    cbn. rewrite Hs. rewrite !list_lookup_insert_eq by (rewrite ?length_insert; done).
    cbn. rewrite Hp. cbn. rewrite list_insert_insert_eq.
    rewrite list_lookup_insert_eq by done. cbn.
    destruct (awaiter s); cbn; rewrite ?Hh; cbn; rewrite ?Hrun; cbn;
      rewrite <- ?app_assoc; done.
  - unfold bind, get_rt, ret. cbn. rewrite Hs, list_lookup_insert_eq by done. cbn.
    rewrite Hp. cbn. by destruct (awaiter s).
  - unfold bind, get_rt, ret. cbn. rewrite Hs, list_lookup_insert_eq by done. cbn.
    rewrite Hp. cbn. by destruct (awaiter s).
Qed.

(** X15.  An error event by itself schedules no reconnect and changes
    neither the registry nor the attempt counter (reconnection is the
    close handler's business).  When the registered error handler
    returns, it is called with the error "WebSocket error"; the promise
    of the [connect()] call that created the socket, if still pending,
    is rejected with that error; and if that call was made by a
    reconnect timer, the timer's catch clause reports the same error to
    the handler a second time. *)
Theorem transport_error_reporting :
  forall (w : World) (sock : nat),
    let w' := step (Ev_error sock) w in
    scheduled (log (rt w')) = scheduled (log (rt w))
    /\ subscriptions (this w') = subscriptions (this w)
    /\ (forall (s : Socket) (h : ErrorHandler),
          sockets (rt w) !! sock = Some s ->
          errorHandler (this w) = Some h ->
          error_handler_run h websocket_error = None ->
          error_calls (log (rt w')) =
            error_calls (log (rt w)) ++
              (error_handler_id h, websocket_error) ::
              match promise s, awaiter s with
              | Pending, ByReconnectTimer => [(error_handler_id h, websocket_error)]
              | _, _ => []
              end
          /\ promise <$> (sockets (rt w') !! sock) =
               Some match promise s with
                    | Pending => Rejected websocket_error
                    | settled => settled
                    end
          /\ isConnecting (this w') = false
          /\ reconnectAttempts (this w') = reconnectAttempts (this w)).
Proof.
  intros w sock w'.
  split; [by apply step_no_new_timer|].
  split.
  { apply (respects_step same_subscriptions same_subscriptions_trans (Ev_error sock)).
    - by apply dispatch_same_subscriptions.
    - intros t w0. reflexivity. }
  intros s h Hs Hh Hrun. unfold w'. rewrite (step_error_quiet w sock s h Hs Hh Hrun).
  assert (Hlt : sock < length (sockets (rt w))) by (eapply lookup_lt_Some; eauto).
  cbn. rewrite list_lookup_insert_eq by done.
  rewrite error_calls_app.
  destruct (promise s) eqn:Hp, (awaiter s); cbn; rewrite ?Hp; by repeat split.
Qed.

Lemma transport_error_reporting_witness :
  (sockets (rt (run_events (take 2 failing_reconnects) retry_world)) !! 1
     = Some {| readyState := CONNECTING; socket_url := "wss://api.klingex.io/ws";
               socket_auth := TokenParam "jwt"; closeFired := false;
               awaiter := ByReconnectTimer; promise := Pending |}
   /\ errorHandler (this (run_events (take 2 failing_reconnects) retry_world))
      = Some (quiet_error_handler 9)
   /\ error_handler_run (quiet_error_handler 9) websocket_error = None)
  /\ error_calls (log (rt (step (Ev_error 1)
                             (run_events (take 2 failing_reconnects) retry_world))))
     = [(9, websocket_error); (9, websocket_error)].
Proof.
  assert (Hs : sockets (rt (run_events (take 2 failing_reconnects) retry_world)) !! 1
               = Some {| readyState := CONNECTING; socket_url := "wss://api.klingex.io/ws";
                         socket_auth := TokenParam "jwt"; closeFired := false;
                         awaiter := ByReconnectTimer; promise := Pending |})
    by (vm_compute; reflexivity).
  assert (Hh : errorHandler (this (run_events (take 2 failing_reconnects) retry_world))
               = Some (quiet_error_handler 9)) by (vm_compute; reflexivity).
  assert (Hrun : error_handler_run (quiet_error_handler 9) websocket_error = None)
    by reflexivity.
  split; [auto|].
  destruct (transport_error_reporting
              (run_events (take 2 failing_reconnects) retry_world) 1) as (_ & _ & H).
  destruct (H _ _ Hs Hh Hrun) as (E & _).
  match type of E with
  | ?l = ?r =>
      assert (E' : l = [(9, websocket_error); (9, websocket_error)])
        by (rewrite E; vm_compute; reflexivity)
  end.
  exact E'.
Defined.

(** ** The liveness ping *)

Lemma keeps_ping_refl (w : World) : keeps_ping w w.
Proof. split; [done|]. split; [done|]. exists []. by rewrite app_nil_r. Qed.

Lemma keeps_ping_trans (a b c : World) :
  keeps_ping a b -> keeps_ping b c -> keeps_ping a c.
Proof.
  intros (A1 & A2 & l1 & A3) (B1 & B2 & l2 & B3).
  split; [congruence|]. split; [congruence|].
  exists (l1 ++ l2). by rewrite B3, A3, app_assoc.
Qed.

Ltac ping_atoms :=
  intros ?w; unfold update_this, update_rt, emit, update_rt; cbn;
  try match goal with
      | |- context [match ?x with _ => _ end] => destruct x; cbn
      end;
  (split; [done|]; split; [done|]; cbn;
   first [ by eexists | by (exists []; rewrite app_nil_r) ]).

Lemma step_close_decomposed (sock : nat) (wasClean : bool) (w : World) :
  step (Ev_close sock wasClean) w =
    match onclose_decision wasClean (after_close_cleanup sock w) with
    | (Normal _, w') => w'
    | (Throws t, w') => exec (emit (Uncaught t)) w'
    end.
Proof.
  unfold step. cbn [dispatch]. unfold bind at 1.
  rewrite update_socket_spec. cbn [snd fst]. unfold onclose.
  unfold bind at 1. cbn [update_this snd fst].
  unfold bind at 1. rewrite stopPingInterval_spec. cbn [snd fst].
  unfold after_close_cleanup, exec. rewrite update_socket_spec.
  cbn [update_this snd]. rewrite stopPingInterval_spec. done.
Qed.

(** X16.  The open event arms one interval timer of 30000 ms and
    records it; a tick of the timer sends one ping frame on the current
    socket if it is open and nothing otherwise, and changes no field;
    a close event, clean or not, cancels the recorded timer and forgets
    it. *)
Theorem liveness_ping :
  forall (w : World) (sock : nat) (wasClean : bool) (id : positive),
    (let opened := step (Ev_open sock) w in
     pingInterval (this opened) = Some (next_timer (rt w))
     /\ intervals (rt opened) = intervals (rt w) ++ [next_timer (rt w)]
     /\ exists more,
          log (rt opened) = log (rt w) ++ SetInterval (next_timer (rt w)) 30000 :: more)
    /\ (let ticked := step (Ev_interval id) w in
        this ticked = this w
        /\ log (rt ticked) =
             log (rt w) ++ match open_handle w with
                           | Some current => [WsSend current WirePing]
                           | None => []
                           end)
    /\ (let closed := step (Ev_close sock wasClean) w in
        pingInterval (this closed) = None
        /\ intervals (rt closed) =
             match pingInterval (this w) with
             | Some ping => filter (fun t => negb (Pos.eqb t ping)) (intervals (rt w))
             | None => intervals (rt w)
             end).
Proof.
  intros w sock wasClean id. split; [|split].
  - cbv zeta. rewrite step_open.
    set (w1 := exec (update_socket sock (with_readyState OPEN)) w).
    assert (Hw1 : next_timer (rt w1) = next_timer (rt w)
                  /\ intervals (rt w1) = intervals (rt w) /\ log (rt w1) = log (rt w)).
    { unfold w1, exec. rewrite update_socket_spec. cbn.
      by destruct (sockets (rt w) !! sock). }
    destruct Hw1 as (Hn & Hi & Hl).
    set (rest := bind resubscribeAll (fun _ => settle sock Resolved)).
    set (w2 := {| this := with_pingInterval (Some (next_timer (rt w1)))
                            (with_reconnectAttempts 0 (with_isConnecting false (this w1)));
                  rt := with_log (log (rt w1) ++ [SetInterval (next_timer (rt w1)) 30000])
                          (with_next_timer (Pos.succ (next_timer (rt w1)))
                             (with_intervals (intervals (rt w1) ++ [next_timer (rt w1)])
                                (rt w1))) |}).
    change (exec (onopen sock) w1) with (exec rest w2).
    assert (H : respects keeps_ping rest).
    { unfold rest. unfold_methods.
      frame_rules keeps_ping_refl keeps_ping_trans; ping_atoms. }
    destruct (H w2) as (H1 & H2 & more & H3). unfold exec.
    rewrite H1, H2, H3. unfold w2. cbn [this rt pingInterval intervals log
      with_pingInterval with_log with_next_timer with_intervals].
    rewrite Hn, Hi, Hl. split; [done|]. split; [done|].
    exists more. by rewrite <- app_assoc.
  - cbv zeta. unfold step. cbn [dispatch]. unfold ping_callback, send, bind, ws_open,
      ws_send, emit, update_rt. cbn.
    destruct (open_handle w); cbn; [done|]. by rewrite app_nil_r.
  - cbv zeta. rewrite step_close_decomposed.
    assert (Hclean : pingInterval (this (after_close_cleanup sock w)) = None
                     /\ intervals (rt (after_close_cleanup sock w)) =
                          match pingInterval (this w) with
                          | Some ping =>
                              filter (fun t => negb (Pos.eqb t ping)) (intervals (rt w))
                          | None => intervals (rt w)
                          end).
    { unfold after_close_cleanup, exec. rewrite update_socket_spec.
      cbn [update_this snd]. rewrite stopPingInterval_spec. cbn.
      destruct (pingInterval (this w)) eqn:E, (sockets (rt w) !! sock); cbn; by rewrite ?E. }
    destruct Hclean as [Hp Hi].
    assert (H : respects keeps_ping (onclose_decision wasClean)).
    { unfold onclose_decision, scheduleReconnect. unfold_methods.
      frame_rules keeps_ping_refl keeps_ping_trans; ping_atoms. }
    destruct (H (after_close_cleanup sock w)) as (H1 & H2 & _).
    destruct (onclose_decision wasClean (after_close_cleanup sock w)) as [[[]|t] w'];
      cbn [snd] in *; unfold exec, emit, update_rt; cbn; by rewrite H1, H2.
Qed.

(** ** The reconnection loop *)

Lemma error_frame_refl (w : World) : error_frame w w.
Proof. by repeat split. Qed.

Lemma error_frame_trans (a b c : World) :
  error_frame a b -> error_frame b c -> error_frame a c.
Proof.
  intros (A1 & A2 & A3 & A4 & A5 & A6 & A7 & A8 & A9 & A10)
         (B1 & B2 & B3 & B4 & B5 & B6 & B7 & B8 & B9 & B10).
  repeat split; congruence.
Qed.

Lemma step_error_frame (sock : nat) (w : World) : error_frame w (step (Ev_error sock) w).
Proof.
  apply (respects_step error_frame error_frame_trans (Ev_error sock)).
  - unfold dispatch. unfold_methods.
    frame_rules error_frame_refl error_frame_trans;
      frame_atoms; unfold error_frame; cbn;
      rewrite ?length_insert, ?scheduled_app, ?app_nil_r; by repeat split.
  - intros t w0. unfold error_frame, emit, update_rt. cbn.
    rewrite scheduled_app, app_nil_r. by repeat split.
Qed.

Lemma same_engine_refl (w : World) : same_engine w w.
Proof. reflexivity. Qed.

Lemma same_engine_trans (a b c : World) :
  same_engine a b -> same_engine b c -> same_engine a c.
Proof. unfold same_engine. congruence. Qed.

Lemma step_same_engine (e : Event) (w : World) : same_engine w (step e w).
Proof.
  apply (respects_step same_engine same_engine_trans e).
  - destruct e; unfold dispatch, scheduleReconnect; unfold_methods;
      frame_rules same_engine_refl same_engine_trans; frame_atoms; reflexivity.
  - intros t w0. reflexivity.
Qed.

Lemma run_events_same_engine (es : list Event) (w : World) :
  same_engine w (run_events es w).
Proof.
  apply (respects_run_events same_engine same_engine_refl same_engine_trans).
  apply step_same_engine.
Qed.

(** One failed attempt below the cap leads to the next scheduled
    attempt. *)
Lemma failed_attempt_below_cap (w : World) (id : positive) :
  retry_ready w ->
  (Z.of_nat (reconnectAttempts (this w)) < maxReconnectAttempts (options (this w)))%Z ->
  let w' := run_events (failed_attempt id (length (sockets (rt w)))) w in
  retry_ready w'
  /\ options (this w') = options (this w)
  /\ reconnectAttempts (this w') = S (reconnectAttempts (this w))
  /\ reconnectTimeout (this w') = Some (next_timer (rt w))
  /\ next_timer (rt w') = Pos.succ (next_timer (rt w))
  /\ length (sockets (rt w')) = S (length (sockets (rt w)))
  /\ pow_approx (rt w') = pow_approx (rt w)
  /\ scheduled (log (rt w')) =
       scheduled (log (rt w)) ++
         [(next_timer (rt w),
           backoff_delay (pow_approx (rt w))
             (reconnectInterval (options (this w)))
             (S (reconnectAttempts (this w))))].
Proof.
  intros (Hre & Hc & Ho & Hu) Hlt w'.
  pose proof (run_events_same_engine (failed_attempt id (length (sockets (rt w)))) w)
    as Hengine. fold w' in Hengine. revert Hengine.
  set (sock := length (sockets (rt w))) in *.
  unfold w', failed_attempt, run_events. cbn [fold_left].
  rewrite (step_timeout_connects w id Ho Hc Hu). fold sock.
  match goal with
  | |- context [step (Ev_error sock) ?x] => set (w1 := x)
  end.
  intros Hengine.
  pose proof (step_same_engine (Ev_error sock) w1) as Hengine2.
  destruct (step_error_frame sock w1)
    as (E1 & E2 & E3 & E4 & E5 & E6 & E7 & E8 & E9 & E10).
  set (w2 := step (Ev_error sock) w1) in *.
  assert (Hws : ws (this w2) = Some sock) by (by rewrite E1).
  assert (Hlen : sock < length (sockets (rt w2))).
  { rewrite E9. unfold w1. cbn. rewrite length_app. cbn. unfold sock. lia. }
  destruct (lookup_lt_is_Some_2 _ _ Hlen) as [s Hs].
  assert (Hre2 : reconnect (options (this w2)) = true) by (by rewrite E2).
  assert (Hlt2 : (Z.of_nat (reconnectAttempts (this w2))
                  < maxReconnectAttempts (options (this w2)))%Z)
    by (by rewrite E2, E3).
  destruct (step_close_reconnects_facts w2 sock s Hws Hs Hre2 Hlt2)
    as (F1 & F2 & F3 & F4 & F5 & _ & F7 & _ & F9).
  destruct (step_close_below_cap w2 sock Hre2 Hlt2) as (_ & _ & G3 & G4 & _ & G6).
  set (w3 := step (Ev_close sock false) w2) in *.
  split.
  { split; [by rewrite G6|]. split; [exact F2|]. split; [exact F1|].
    rewrite F4, F3, E6, E5. exact Hu. }
  split; [by rewrite G6, E2|]. split; [by rewrite G3, E3|].
  split; [by rewrite G4, E8|]. split; [by rewrite F7, E8|].
  split.
  { rewrite F5, E9. unfold w1. cbn. rewrite length_app. cbn. unfold sock. lia. }
  split; [exact Hengine|].
  rewrite F9, E10, E8, E2, E3, Hengine2. unfold w1. cbn.
  by rewrite scheduled_app, app_nil_r.
Qed.

(** X17.  The reconnection loop.  While the client waits for its reconnect
    timer and [k] more attempts fit under [maxReconnectAttempts], [k]
    failed attempts in a row (timer fires, the new socket errors and
    closes uncleanly) create [k] sockets, raise the attempt counter from
    [n] to [n + k], and arm exactly [k] timers whose delays are the
    products in doubles [reconnectInterval * Math.pow(1.5, n)], ...,
    [reconnectInterval * Math.pow(1.5, n + k - 1)], in this order; the
    client is again waiting for its timer. *)
Theorem reconnection_loop (k : nat) (w : World) (id : positive) :
  retry_ready w ->
  reconnectTimeout (this w) = Some id ->
  (Z.of_nat (reconnectAttempts (this w) + k) <= maxReconnectAttempts (options (this w)))%Z ->
  let w' := failed_rounds k w in
  retry_ready w'
  /\ reconnectAttempts (this w') = reconnectAttempts (this w) + k
  /\ length (sockets (rt w')) = length (sockets (rt w)) + k
  /\ map snd (scheduled (log (rt w'))) =
       map snd (scheduled (log (rt w))) ++
         map (backoff_delay (pow_approx (rt w)) (reconnectInterval (options (this w))))
             (seq (S (reconnectAttempts (this w))) k).
Proof.
  revert w id. induction k as [|k IH]; intros w id Hready Hid Hcap; cbn zeta.
  - cbn. rewrite !Nat.add_0_r, app_nil_r. done.
  - cbn [failed_rounds]. rewrite Hid.
    assert (Hlt : (Z.of_nat (reconnectAttempts (this w))
                   < maxReconnectAttempts (options (this w)))%Z) by lia.
    destruct (failed_attempt_below_cap w id Hready Hlt)
      as (Hready' & Hopt & Hatt & Htimer & _ & Hlen & Hpow & Hsched).
    set (w1 := run_events (failed_attempt id (length (sockets (rt w)))) w) in *.
    assert (Hcap' : (Z.of_nat (reconnectAttempts (this w1) + k)
                     <= maxReconnectAttempts (options (this w1)))%Z)
      by (rewrite Hopt, Hatt; lia).
    destruct (IH w1 _ Hready' Htimer Hcap') as (R1 & R2 & R3 & R4).
    split; [exact R1|]. split; [rewrite R2, Hatt; lia|].
    split; [rewrite R3, Hlen; lia|].
    rewrite R4, Hsched, Hopt, Hatt, Hpow, map_app. cbn [map snd seq].
    by rewrite <- app_assoc.
Qed.

Lemma reconnection_loop_witness :
  (retry_ready waiting_world
   /\ reconnectTimeout (this waiting_world) = Some 2%positive
   /\ (Z.of_nat (reconnectAttempts (this waiting_world) + 2)
       <= maxReconnectAttempts (options (this waiting_world)))%Z)
  /\ map snd (scheduled (log (rt (failed_rounds 2 waiting_world)))) =
       [1000%float; 1500%float; 2250%float].
Proof.
  assert (Hready : retry_ready waiting_world)
    by (repeat split; vm_compute; reflexivity).
  assert (Hid : reconnectTimeout (this waiting_world) = Some 2%positive)
    by (vm_compute; reflexivity).
  assert (Hatt : reconnectAttempts (this waiting_world) = 1)
    by (vm_compute; reflexivity).
  assert (Hmax : maxReconnectAttempts (options (this waiting_world)) = 3%Z)
    by (vm_compute; reflexivity).
  assert (Hcap : (Z.of_nat (reconnectAttempts (this waiting_world) + 2)
                  <= maxReconnectAttempts (options (this waiting_world)))%Z)
    by (rewrite Hatt, Hmax; lia).
  split; [split; [exact Hready|split; [exact Hid|exact Hcap]]|].
  destruct (reconnection_loop 2 waiting_world 2%positive Hready Hid Hcap)
    as (_ & _ & _ & H).
  match type of H with
  | ?l = _ =>
      assert (E : l = [1000%float; 1500%float; 2250%float])
        by (rewrite H; vm_compute; reflexivity)
  end.
  exact E.
Defined.

(** ** A reconnect timer that [disconnect()] does not cancel *)

Lemma pending_after_cancelling_another (id r : positive) (l : list (positive * float)) :
  id <> r ->
  id ∈ l.*1 ->
  id ∈ (filter (fun t => negb (Pos.eqb (fst t) r)) l).*1.
Proof.
  intros Hne Hin. apply list_elem_of_fmap in Hin as [[i d] [-> Hin]].
  apply list_elem_of_fmap. exists (i, d). split; [done|].
  apply list_elem_of_filter. split; [|done].
  cbn in *. apply negb_prop_intro. intros Heq. apply Is_true_true in Heq.
  apply Pos.eqb_eq in Heq. done.
Qed.

(** X18.  [scheduleReconnect] overwrites [reconnectTimeout] without
    cancelling the timer recorded there, and [disconnect()] cancels only
    the recorded one.  So a pending reconnect timer that is not the
    recorded one is still pending after [disconnect()], and when it fires
    (no connection attempt in flight, URL accepted) the client, although
    reconnection is now off, creates a new socket and is connecting
    again. *)
Theorem superseded_timer_reconnects_after_disconnect (w : World) (id : positive) :
  enabled (Ev_timeout id) w = true ->
  reconnectTimeout (this w) <> Some id ->
  isConnecting (this w) = false ->
  url_rejected (rt w) (url (this w)) = None ->
  let off := step Call_disconnect w in
  let fired := step (Ev_timeout id) off in
  enabled (Ev_timeout id) off = true
  /\ reconnect (options (this off)) = false
  /\ ws (this off) = None
  /\ ws (this fired) = Some (length (sockets (rt w)))
  /\ isConnecting (this fired) = true
  /\ sockets_created (log (rt fired)) =
       sockets_created (log (rt off)) ++ [length (sockets (rt w))]
  /\ (exists s, sockets (rt fired) !! length (sockets (rt w)) = Some s
                /\ readyState s = CONNECTING).
Proof.
  intros Hpending Hrec Hconn Hurl off fired.
  destruct (disconnect_fields w) as (Hthis & Htimers & _ & _ & _ & _ & Hrej & Hsocks).
  cbn zeta in *. subst fired off. rewrite step_disconnect.
  set (w1 := exec disconnect w) in *.
  assert (Hlen : length (sockets (rt w1)) = length (sockets (rt w))).
  { rewrite Hsocks. destruct (ws (this w)) as [sock|]; [|done].
    destruct (sockets (rt w) !! sock); [|done]. by rewrite length_insert. }
  assert (Hopen1 : open_handle w1 = None) by (unfold open_handle; by rewrite Hthis).
  assert (Hconn1 : isConnecting (this w1) = false) by (by rewrite Hthis).
  assert (Hurl1 : url_rejected (rt w1) (url (this w1)) = None)
    by (by rewrite Hrej, Hthis).
  rewrite (step_timeout_connects w1 id Hopen1 Hconn1 Hurl1). rewrite Hlen. cbn.
  split.
  { apply bool_decide_eq_true. apply bool_decide_eq_true in Hpending.
    rewrite Htimers. destruct (reconnectTimeout (this w)) as [r|]; [|done].
    apply pending_after_cancelling_another; [congruence|done]. }
  split; [by rewrite Hthis|]. split; [by rewrite Hthis|].
  split; [done|]. split; [done|]. split.
  { unfold sockets_created. rewrite omap_app. done. }
  eexists. split.
  - rewrite lookup_app_r by lia. rewrite Hlen, Nat.sub_diag. reflexivity.
  - done.
Qed.

Lemma superseded_timer_reconnects_after_disconnect_witness :
  (enabled (Ev_timeout 2) superseded_timer_world = true
   /\ reconnectTimeout (this superseded_timer_world) <> Some 2%positive
   /\ isConnecting (this superseded_timer_world) = false
   /\ url_rejected (rt superseded_timer_world) (url (this superseded_timer_world)) = None)
  /\ ws (this (step (Ev_timeout 2) (step Call_disconnect superseded_timer_world)))
     = Some 2.
Proof.
  assert (Hpending : enabled (Ev_timeout 2) superseded_timer_world = true)
    by (vm_compute; reflexivity).
  assert (Hrec : reconnectTimeout (this superseded_timer_world) = Some 3%positive)
    by (vm_compute; reflexivity).
  assert (Hne : reconnectTimeout (this superseded_timer_world) <> Some 2%positive)
    by (rewrite Hrec; discriminate).
  assert (Hconn : isConnecting (this superseded_timer_world) = false)
    by (vm_compute; reflexivity).
  assert (Hurl : url_rejected (rt superseded_timer_world)
                   (url (this superseded_timer_world)) = None)
    by (vm_compute; reflexivity).
  assert (Hlen : length (sockets (rt superseded_timer_world)) = 2)
    by (vm_compute; reflexivity).
  split; [split; [exact Hpending|split; [exact Hne|split; [exact Hconn|exact Hurl]]]|].
  destruct (superseded_timer_reconnects_after_disconnect
              superseded_timer_world 2%positive Hpending Hne Hconn Hurl)
    as (_ & _ & _ & H & _).
  rewrite H, Hlen. reflexivity.
Defined.
